(** * The ports routing core: message queue and node state machine

    A shallow embedding of [mojo/edk/system/ports/message_queue.cc] and
    [mojo/edk/system/ports/node.cc].

    Conventions of the embedding.
    - Fixed-width unsigned integers are values of [Z] with the wrap-around
      written out ([wrap32], [wrap64]).
    - [Port] objects live in an object store ([objects], indexed by
      allocation order); a [std::shared_ptr<Port>] is an index into that
      store, the null pointer is [None].  The node's map [ports_] binds port
      names to such pointers, so that a record erased from the map is still
      reachable through the handles an operation holds.
    - [std::mutex] is a boolean: locking a held mutex (self-deadlock) and
      dereferencing a null pointer have no outcome ([Stuck]).
    - The delegate is a log: [ForwardMessage] and [PortStatusChanged] append
      to it, [GenerateRandomPortName] reads the next name of a name source.
    - A failed [CHECK] or [CHECK_EQ] ends the process ([Fatal]).
    - [DCHECK]s and [DVLOG]s are debugging aids and are not modelled. *)

From Stdlib Require Import ZArith Lia.
From stdpp Require Import base option list gmap.

Local Open Scope Z_scope.

(** ** Names, error codes, events and messages *)

Abbreviation NodeName := N.
Abbreviation PortName := N.

Definition kInvalidNodeName : NodeName := 0%N.
Definition kInvalidPortName : PortName := 0%N.

(** Modelled from the spec: the constants of [event.h], which is not part of
    the sources at hand: the initial sequence number of every fresh port is 1
    and the sentinel for an invalid sequence number is 0. *)
Definition kInitialSequenceNum : Z := 1.
Definition kInvalidSequenceNum : Z := 0.

Definition wrap32 (x : Z) : Z := x mod 2 ^ 32.
Definition wrap64 (x : Z) : Z := x mod 2 ^ 64.

Inductive Result :=
| OK
| ERROR_PORT_UNKNOWN
| ERROR_PORT_EXISTS
| ERROR_PORT_STATE_UNEXPECTED
| ERROR_PORT_CANNOT_SEND_SELF
| ERROR_PORT_PEER_CLOSED
| ERROR_PORT_CANNOT_SEND_PEER
| ERROR_NOT_IMPLEMENTED.

Global Instance Result_eq_dec : EqDecision Result.
Proof. solve_decision. Defined.

Record PortDescriptor := {
  pd_peer_node_name : NodeName;
  pd_peer_port_name : PortName;
  pd_referring_node_name : NodeName;
  pd_referring_port_name : PortName;
  pd_next_sequence_num_to_send : Z;
  pd_next_sequence_num_to_receive : Z }.

Definition empty_descriptor : PortDescriptor :=
  {| pd_peer_node_name := kInvalidNodeName;
     pd_peer_port_name := kInvalidPortName;
     pd_referring_node_name := kInvalidNodeName;
     pd_referring_port_name := kInvalidPortName;
     pd_next_sequence_num_to_send := 0;
     pd_next_sequence_num_to_receive := 0 |}.

Record ObserveProxyEventData := {
  proxy_node_name : NodeName;
  proxy_port_name : PortName;
  proxy_to_node_name : NodeName;
  proxy_to_port_name : PortName }.

(** A user message: [EventHeader.port_name], [UserEventData.sequence_num],
    the payload bytes, and the [num_ports] slots.  The port-name array and the
    descriptor array both have [num_ports] entries; slot [i] is the pair
    [(ports()[i], GetPortDescriptors(event)[i])]. *)
Record UserMessage := {
  um_port_name : PortName;
  sequence_num : Z;
  um_slots : list (PortName * PortDescriptor);
  um_payload : list Z }.

Definition ports (m : UserMessage) : list PortName := (um_slots m).*1.
Definition num_ports (m : UserMessage) : nat := length (um_slots m).

(** The internal events, each with its event data. *)
Inductive InternalEvent :=
| kPortAccepted
| kObserveProxy (event : ObserveProxyEventData)
| kObserveProxyAck (last_sequence_num : Z)
| kObserveClosure (last_sequence_num : Z)
| kUnrecognized (type : Z).

(** A message is tagged by [EventHeader.type]: [kUser] or an internal event
    addressed to [port_name]. *)
Inductive Message :=
| kUser (m : UserMessage)
| Internal (port_name : PortName) (ev : InternalEvent).

Definition NewInternalMessage (port_name : PortName) (ev : InternalEvent)
  : Message := Internal port_name ev.

(** ** MessageQueue (message_queue.cc)

    [message_queue.cc] computes with 32-bit sequence numbers
    ([GetSequenceNum] returns [uint32_t], the constructor takes one), while
    [node.cc] computes with [uint64_t]; each file is followed as written. *)

Module MessageQueue.

(** [heap_] is a [std::vector] kept as a binary heap by [std::push_heap]
    and [std::pop_heap] under [operator<], which makes [heap_[0]] a message
    of least [GetSequenceNum].  The vector is represented by the list of
    its messages in the order in which successive [std::pop_heap] calls
    take them out, which is ascending in [GetSequenceNum]: [heap_[0]] is
    the head of the list.  Messages of different numbers have one such
    order.  Among messages of equal number the order is the library's
    choice ([std::push_heap] and [std::pop_heap] promise a heap and no
    more); [push_heap] below puts a message behind those of its number, so
    what is stated about the messages that leave a queue after it accepted
    one is stated for distinct numbers (lemma [push_heap_unique]).  The
    fields are those the two functions use;
    [signalable_] starts out true ([message_queue.h] is not part of the
    sources at hand). *)
Record t := {
  heap_ : list UserMessage;
  next_sequence_num_ : Z;
  signalable_ : bool }.

(** [inline uint32_t GetSequenceNum(const ScopedMessage&)]. *)
Definition GetSequenceNum (m : UserMessage) : Z := wrap32 (sequence_num m).

(** [MessageQueue::MessageQueue(uint32_t next_sequence_num)]. *)
Definition make (next_sequence_num : Z) : t :=
  {| heap_ := []; next_sequence_num_ := wrap32 next_sequence_num;
     signalable_ := true |}.

Definition next_sequence_num (q : t) : Z := next_sequence_num_ q.

Definition set_signalable (b : bool) (q : t) : t :=
  {| heap_ := heap_ q; next_sequence_num_ := next_sequence_num_ q;
     signalable_ := b |}.

(** [heap_.emplace_back(m); std::push_heap(...)]: [m] comes before the
    first message of greater number. *)
Fixpoint push_heap (m : UserMessage) (h : list UserMessage)
  : list UserMessage :=
  match h with
  | [] => [m]
  | x :: h' =>
      if GetSequenceNum m <? GetSequenceNum x then m :: x :: h'
      else x :: push_heap m h'
  end.

(** [GetNextMessageIf(selector, message)]: the message handed out (or
    null) and the queue afterwards.  A null [selector] is [None]. *)
Definition GetNextMessageIf (selector : option (UserMessage -> bool))
    (q : t) : option UserMessage * t :=
  match heap_ q with
  | [] => (None, q)
  | top :: rest =>
      if negb (GetSequenceNum top =? next_sequence_num_ q) then (None, q)
      else
        if match selector with
           | Some select => negb (select top)
           | None => false
           end
        then (None, q)
        else (Some top,
              {| heap_ := rest;
                 next_sequence_num_ := wrap32 (next_sequence_num_ q + 1);
                 signalable_ := signalable_ q |})
  end.

(** [AcceptMessage(message, has_next_message)]: the queue afterwards and
    the flag written to [*has_next_message]. *)
Definition AcceptMessage (m : UserMessage) (q : t) : t * bool :=
  let h := push_heap m (heap_ q) in
  let q' := {| heap_ := h; next_sequence_num_ := next_sequence_num_ q;
               signalable_ := signalable_ q |} in
  if negb (signalable_ q) then (q', false)
  else (q', match h with
            | top :: _ => GetSequenceNum top =? next_sequence_num_ q
            | [] => false
            end).

(** The least [GetSequenceNum] among the messages of a heap, whatever
    their order. *)
Fixpoint min_sequence_num (h : list UserMessage) : option Z :=
  match h with
  | [] => None
  | x :: h' =>
      match min_sequence_num h' with
      | None => Some (GetSequenceNum x)
      | Some s => Some (Z.min (GetSequenceNum x) s)
      end
  end.

(** The representation invariant: ascending order. *)
Fixpoint ascending (h : list UserMessage) : Prop :=
  match h with
  | [] => True
  | x :: h' =>
      (forall y, y ∈ h' -> GetSequenceNum x <= GetSequenceNum y) /\
      ascending h'
  end.

Definition wf (q : t) : Prop :=
  ascending (heap_ q) /\ 0 <= next_sequence_num_ q < 2 ^ 32.

End MessageQueue.

(** ** Port (port.h) *)

Inductive State := kUninitialized | kReceiving | kBuffering | kProxying | kClosed.

Global Instance State_eq_dec : EqDecision State.
Proof. solve_decision. Defined.

(** A [std::shared_ptr<Port>] that is not null. *)
Abbreviation PortPtr := nat.

(** Modelled from the spec: the fields of [Port] ([port.h] of this revision
    is not part of the sources at hand), as the spec lists them and as
    [node.cc] uses them.  The two sequence counters are 64-bit; [lock] tells
    whether the record's mutex is held; [user_data], which no modelled
    operation reads, is left out. *)
Record Port := {
  lock : bool;
  state : State;
  peer_node_name : NodeName;
  peer_port_name : PortName;
  next_sequence_num_to_send : Z;
  last_sequence_num_to_receive : Z;
  message_queue : MessageQueue.t;
  send_on_proxy_removal : option (NodeName * Message);
  remove_proxy_on_last_message : bool;
  peer_closed : bool;
  outgoing_messages : list UserMessage;
  outgoing_ports : list PortPtr }.

(** Modelled from the spec: the constructor [Port::Port] of this revision
    ([port.cc] is not part of the sources at hand): a port is created
    Uninitialized, with no peer, [last_sequence_num_to_receive] unknown (0),
    nothing armed, and a queue expecting [next_sequence_num_to_receive]. *)
Definition new_Port (next_sequence_num_to_send next_sequence_num_to_receive : Z)
  : Port :=
  {| lock := false;
     state := kUninitialized;
     peer_node_name := kInvalidNodeName;
     peer_port_name := kInvalidPortName;
     next_sequence_num_to_send := wrap64 next_sequence_num_to_send;
     last_sequence_num_to_receive := 0;
     message_queue := MessageQueue.make next_sequence_num_to_receive;
     send_on_proxy_removal := None;
     remove_proxy_on_last_message := false;
     peer_closed := false;
     outgoing_messages := [];
     outgoing_ports := [] |}.

Definition set_lock (b : bool) (p : Port) : Port :=
  {| lock := b; state := state p; peer_node_name := peer_node_name p;
     peer_port_name := peer_port_name p;
     next_sequence_num_to_send := next_sequence_num_to_send p;
     last_sequence_num_to_receive := last_sequence_num_to_receive p;
     message_queue := message_queue p;
     send_on_proxy_removal := send_on_proxy_removal p;
     remove_proxy_on_last_message := remove_proxy_on_last_message p;
     peer_closed := peer_closed p;
     outgoing_messages := outgoing_messages p;
     outgoing_ports := outgoing_ports p |}.

Definition set_state (s : State) (p : Port) : Port :=
  {| lock := lock p; state := s; peer_node_name := peer_node_name p;
     peer_port_name := peer_port_name p;
     next_sequence_num_to_send := next_sequence_num_to_send p;
     last_sequence_num_to_receive := last_sequence_num_to_receive p;
     message_queue := message_queue p;
     send_on_proxy_removal := send_on_proxy_removal p;
     remove_proxy_on_last_message := remove_proxy_on_last_message p;
     peer_closed := peer_closed p;
     outgoing_messages := outgoing_messages p;
     outgoing_ports := outgoing_ports p |}.

Definition set_peer (node : NodeName) (port : PortName) (p : Port) : Port :=
  {| lock := lock p; state := state p; peer_node_name := node;
     peer_port_name := port;
     next_sequence_num_to_send := next_sequence_num_to_send p;
     last_sequence_num_to_receive := last_sequence_num_to_receive p;
     message_queue := message_queue p;
     send_on_proxy_removal := send_on_proxy_removal p;
     remove_proxy_on_last_message := remove_proxy_on_last_message p;
     peer_closed := peer_closed p;
     outgoing_messages := outgoing_messages p;
     outgoing_ports := outgoing_ports p |}.

Definition set_peer_node_name (node : NodeName) (p : Port) : Port :=
  set_peer node (peer_port_name p) p.

Definition set_next_sequence_num_to_send (s : Z) (p : Port) : Port :=
  {| lock := lock p; state := state p; peer_node_name := peer_node_name p;
     peer_port_name := peer_port_name p;
     next_sequence_num_to_send := s;
     last_sequence_num_to_receive := last_sequence_num_to_receive p;
     message_queue := message_queue p;
     send_on_proxy_removal := send_on_proxy_removal p;
     remove_proxy_on_last_message := remove_proxy_on_last_message p;
     peer_closed := peer_closed p;
     outgoing_messages := outgoing_messages p;
     outgoing_ports := outgoing_ports p |}.

Definition set_last_sequence_num_to_receive (s : Z) (p : Port) : Port :=
  {| lock := lock p; state := state p; peer_node_name := peer_node_name p;
     peer_port_name := peer_port_name p;
     next_sequence_num_to_send := next_sequence_num_to_send p;
     last_sequence_num_to_receive := s;
     message_queue := message_queue p;
     send_on_proxy_removal := send_on_proxy_removal p;
     remove_proxy_on_last_message := remove_proxy_on_last_message p;
     peer_closed := peer_closed p;
     outgoing_messages := outgoing_messages p;
     outgoing_ports := outgoing_ports p |}.

Definition set_message_queue (q : MessageQueue.t) (p : Port) : Port :=
  {| lock := lock p; state := state p; peer_node_name := peer_node_name p;
     peer_port_name := peer_port_name p;
     next_sequence_num_to_send := next_sequence_num_to_send p;
     last_sequence_num_to_receive := last_sequence_num_to_receive p;
     message_queue := q;
     send_on_proxy_removal := send_on_proxy_removal p;
     remove_proxy_on_last_message := remove_proxy_on_last_message p;
     peer_closed := peer_closed p;
     outgoing_messages := outgoing_messages p;
     outgoing_ports := outgoing_ports p |}.

Definition set_send_on_proxy_removal (d : option (NodeName * Message))
    (p : Port) : Port :=
  {| lock := lock p; state := state p; peer_node_name := peer_node_name p;
     peer_port_name := peer_port_name p;
     next_sequence_num_to_send := next_sequence_num_to_send p;
     last_sequence_num_to_receive := last_sequence_num_to_receive p;
     message_queue := message_queue p;
     send_on_proxy_removal := d;
     remove_proxy_on_last_message := remove_proxy_on_last_message p;
     peer_closed := peer_closed p;
     outgoing_messages := outgoing_messages p;
     outgoing_ports := outgoing_ports p |}.

Definition set_remove_proxy_on_last_message (b : bool) (p : Port) : Port :=
  {| lock := lock p; state := state p; peer_node_name := peer_node_name p;
     peer_port_name := peer_port_name p;
     next_sequence_num_to_send := next_sequence_num_to_send p;
     last_sequence_num_to_receive := last_sequence_num_to_receive p;
     message_queue := message_queue p;
     send_on_proxy_removal := send_on_proxy_removal p;
     remove_proxy_on_last_message := b;
     peer_closed := peer_closed p;
     outgoing_messages := outgoing_messages p;
     outgoing_ports := outgoing_ports p |}.

Definition set_peer_closed (b : bool) (p : Port) : Port :=
  {| lock := lock p; state := state p; peer_node_name := peer_node_name p;
     peer_port_name := peer_port_name p;
     next_sequence_num_to_send := next_sequence_num_to_send p;
     last_sequence_num_to_receive := last_sequence_num_to_receive p;
     message_queue := message_queue p;
     send_on_proxy_removal := send_on_proxy_removal p;
     remove_proxy_on_last_message := remove_proxy_on_last_message p;
     peer_closed := b;
     outgoing_messages := outgoing_messages p;
     outgoing_ports := outgoing_ports p |}.

Definition set_outgoing (ms : list UserMessage) (ps : list PortPtr)
    (p : Port) : Port :=
  {| lock := lock p; state := state p; peer_node_name := peer_node_name p;
     peer_port_name := peer_port_name p;
     next_sequence_num_to_send := next_sequence_num_to_send p;
     last_sequence_num_to_receive := last_sequence_num_to_receive p;
     message_queue := message_queue p;
     send_on_proxy_removal := send_on_proxy_removal p;
     remove_proxy_on_last_message := remove_proxy_on_last_message p;
     peer_closed := peer_closed p;
     outgoing_messages := ms;
     outgoing_ports := ps |}.

(** [PortRef]: a port name together with the record it was looked up to. *)
Record PortRef := { name : PortName; port : PortPtr }.

(** ** Node state and the monad of its operations *)

(** The delegate: what was handed to [ForwardMessage], which ports were
    reported by [PortStatusChanged], and the names that
    [GenerateRandomPortName] produces, in order. *)
Record Delegate := {
  forwarded : list (NodeName * Message);
  status_changed : list PortRef;
  name_source : nat -> PortName;
  names_generated : nat }.

(** The node.  [oops_log] is the log a failed [CHECK] writes the name of
    its error to, before it ends the process. *)
Record Node := {
  name_ : NodeName;
  delegate_ : Delegate;
  objects : list Port;
  ports_ : gmap PortName PortPtr;
  local_messages_ : list Message;
  is_delivering_local_messages_ : bool;
  oops_log : list Result }.

Definition set_delegate (d : Delegate) (n : Node) : Node :=
  {| name_ := name_ n; delegate_ := d; objects := objects n;
     ports_ := ports_ n; local_messages_ := local_messages_ n;
     is_delivering_local_messages_ := is_delivering_local_messages_ n;
     oops_log := oops_log n |}.

Definition set_objects (o : list Port) (n : Node) : Node :=
  {| name_ := name_ n; delegate_ := delegate_ n; objects := o;
     ports_ := ports_ n; local_messages_ := local_messages_ n;
     is_delivering_local_messages_ := is_delivering_local_messages_ n;
     oops_log := oops_log n |}.

Definition set_ports (m : gmap PortName PortPtr) (n : Node) : Node :=
  {| name_ := name_ n; delegate_ := delegate_ n; objects := objects n;
     ports_ := m; local_messages_ := local_messages_ n;
     is_delivering_local_messages_ := is_delivering_local_messages_ n;
     oops_log := oops_log n |}.

Definition set_local (ms : list Message) (b : bool) (n : Node) : Node :=
  {| name_ := name_ n; delegate_ := delegate_ n; objects := objects n;
     ports_ := ports_ n; local_messages_ := ms;
     is_delivering_local_messages_ := b;
     oops_log := oops_log n |}.

Definition set_oops_log (l : list Result) (n : Node) : Node :=
  {| name_ := name_ n; delegate_ := delegate_ n; objects := objects n;
     ports_ := ports_ n; local_messages_ := local_messages_ n;
     is_delivering_local_messages_ := is_delivering_local_messages_ n;
     oops_log := l |}.

(** The outcome of running an operation: a value and the node afterwards;
    no outcome at all (null dereference, self-deadlock); or the end of the
    process at a failed [CHECK], with the node as it was at that point and
    the check's message in its log. *)
Inductive outcome (A : Type) :=
| Done (a : A) (n : Node)
| Stuck
| Fatal (n : Node).
Arguments Done {A} a n.
Arguments Stuck {A}.
Arguments Fatal {A} n.

Definition M (A : Type) : Type := Node -> outcome A.

Definition ret {A} (a : A) : M A := fun n => Done a n.
Global Instance M_bind : MBind M := fun A B f c n =>
  match c n with
  | Done a n' => f a n'
  | Stuck => Stuck
  | Fatal n' => Fatal n'
  end.

Definition stuck {A} : M A := fun _ => Stuck.
Definition get_node : M Node := fun n => Done n n.
Definition modify_node (f : Node -> Node) : M unit := fun n => Done tt (f n).

(** [*p] for a non-null [p]. *)
Definition deref (p : PortPtr) : M Port := fun n =>
  match objects n !! p with
  | Some r => Done r n
  | None => Stuck
  end.

(** [p->field = ...]. *)
Definition update (p : PortPtr) (f : Port -> Port) : M unit :=
  r ← deref p; modify_node (fun n => set_objects (<[p := f r]> (objects n)) n).

(** [p->...] for a pointer that may be null. *)
Definition nonnull (p : option PortPtr) : M PortPtr :=
  match p with
  | Some p => ret p
  | None => stuck
  end.

(** [std::make_shared<Port>(...)]. *)
Definition make_shared (r : Port) : M PortPtr := fun n =>
  Done (length (objects n)) (set_objects (objects n ++ [r]) n).

(** [p->lock.lock()] and [p->lock.unlock()].  Unlocking a mutex that is not
    held is undefined in C++; here it leaves the mutex free. *)
Definition lock_lock (p : PortPtr) : M unit :=
  r ← deref p; if lock r then stuck else update p (set_lock true).

Definition lock_unlock (p : PortPtr) : M unit := update p (set_lock false).

(** [{ std::lock_guard<std::mutex> guard(p->lock); body }]: the lock is
    released on every way out of the block. *)
Definition lock_guard {A} (p : PortPtr) (body : M A) : M A :=
  lock_lock p;; a ← body; lock_unlock p;; ret a.

(** The delegate's callbacks. *)
Definition ForwardMessage (to : NodeName) (m : Message) : M unit :=
  modify_node (fun n =>
    let d := delegate_ n in
    set_delegate {| forwarded := forwarded d ++ [(to, m)];
                    status_changed := status_changed d;
                    name_source := name_source d;
                    names_generated := names_generated d |} n).

Definition PortStatusChanged (r : PortRef) : M unit :=
  modify_node (fun n =>
    let d := delegate_ n in
    set_delegate {| forwarded := forwarded d;
                    status_changed := status_changed d ++ [r];
                    name_source := name_source d;
                    names_generated := names_generated d |} n).

Definition GenerateRandomPortName : M PortName := fun n =>
  let d := delegate_ n in
  Done (name_source d (names_generated d))
       (set_delegate {| forwarded := forwarded d;
                        status_changed := status_changed d;
                        name_source := name_source d;
                        names_generated := S (names_generated d) |} n).

(** A [CHECK_EQ] that fails: the process ends there. *)
Definition check_failed {A} : M A := fun n => Fatal n.

(** [DebugError] / [OOPS(x)]:
    [CHECK(false) << "Oops: " << message; return error_code;].
    [CHECK] is fatal: the message, which names the error, is logged and the
    process is aborted, so the [return] is never reached. *)
Definition OOPS (x : Result) : M Result :=
  fun n => Fatal (set_oops_log (oops_log n ++ [x]) n).

(** ** Node (node.cc) *)

(** Iterate a body over a list, stopping at the first result that is not
    [OK] ([for (...) { int rv = ...; if (rv != OK) return rv; }]). *)
Fixpoint for_each_ok {A} (body : A -> M Result) (l : list A) : M Result :=
  match l with
  | [] => ret OK
  | x :: l' =>
      rv ← body x;
      if decide (rv = OK) then for_each_ok body l' else ret rv
  end.

(** Iterate a body that cannot fail. *)
Fixpoint for_each {A} (body : A -> M unit) (l : list A) : M unit :=
  match l with
  | [] => ret tt
  | x :: l' => body x;; for_each body l'
  end.

Definition CanAcceptMoreMessages (port : Port) : bool :=
  let next_sequence_num :=
    MessageQueue.next_sequence_num (message_queue port) in
  if peer_closed port || remove_proxy_on_last_message port then
    if last_sequence_num_to_receive port =? wrap64 (next_sequence_num - 1)
    then false else true
  else true.

(** [std::shared_ptr<Port> Node::GetPort(const PortName&)]. *)
Definition GetPort (port_name : PortName) : M (option PortPtr) :=
  n ← get_node; ret (ports_ n !! port_name).

(** [int Node::GetPort(port_name, port_ref)], the overload that fills a
    [PortRef]. *)
Definition GetPortRef (port_name : PortName) : M (Result * option PortRef) :=
  port ← GetPort port_name;
  match port with
  | None => ret (ERROR_PORT_UNKNOWN, None)
  | Some p => ret (OK, Some {| name := port_name; port := p |})
  end.

Definition AddPortWithName (port_name : PortName) (port : PortPtr) : M Result :=
  n ← get_node;
  match ports_ n !! port_name with
  | Some _ => OOPS ERROR_PORT_EXISTS
  | None =>
      modify_node (fun n => set_ports (<[port_name := port]> (ports_ n)) n);;
      ret OK
  end.

Definition ErasePort (port_name : PortName) : M unit :=
  modify_node (fun n => set_ports (delete port_name (ports_ n)) n).

Definition CreateUninitializedPort : M (Result * option PortRef) :=
  port_name ← GenerateRandomPortName;
  port ← make_shared (new_Port kInitialSequenceNum kInitialSequenceNum);
  rv ← AddPortWithName port_name port;
  if decide (rv = OK)
  then ret (OK, Some {| name := port_name; port := port |})
  else ret (rv, None).

Definition FlushOutgoingMessages_Locked (port : PortPtr) : M unit :=
  r ← deref port;
  let outgoing := outgoing_ports r in
  update port (set_outgoing (outgoing_messages r) []);;
  for_each (fun outgoing_port =>
              update outgoing_port (set_peer_node_name (peer_node_name r)))
           outgoing;;
  r ← deref port;
  for_each (fun message =>
              ForwardMessage (peer_node_name r)
                (kUser {| um_port_name := peer_port_name r;
                          sequence_num := sequence_num message;
                          um_slots := um_slots message;
                          um_payload := um_payload message |}))
           (outgoing_messages r);;
  update port (fun r => set_outgoing [] (outgoing_ports r) r).

Definition InitializePort (port_ref : PortRef) (peer_node_name : NodeName)
    (peer_port_name : PortName) : M Result :=
  let port := port port_ref in
  rv ← lock_guard port (
    r ← deref port;
    if decide (state r ≠ kUninitialized) then ret ERROR_PORT_STATE_UNEXPECTED
    else
      update port (set_state kReceiving);;
      update port (set_peer peer_node_name peer_port_name);;
      FlushOutgoingMessages_Locked port;;
      ret OK);
  if decide (rv = OK) then PortStatusChanged port_ref;; ret OK
  else ret rv.

Definition ClosePort (port_ref : PortRef) : M Result :=
  let port := port port_ref in
  data ← lock_guard port (
    r ← deref port;
    if decide (state r ≠ kReceiving) then ret None
    else
      update port (set_state kClosed);;
      ret (Some (wrap64 (next_sequence_num_to_send r - 1))));
  match data with
  | None => ret ERROR_PORT_STATE_UNEXPECTED
  | Some last_sequence_num =>
      r ← deref port;
      ForwardMessage (peer_node_name r)
        (NewInternalMessage (peer_port_name r)
           (kObserveClosure last_sequence_num));;
      ErasePort (name port_ref);;
      ret OK
  end.

(** The body of the second loop of [GetMessageIf]: a port that arrived in
    the delivered message becomes signalable. *)
Definition make_signalable (new_port_name : PortName) : M unit :=
  new_port ← GetPort new_port_name;
  new_port ← nonnull new_port;
  lock_guard new_port (
    update new_port (fun r =>
      set_message_queue
        (MessageQueue.set_signalable true (message_queue r)) r)).

Definition GetMessageIf (port_ref : PortRef)
    (selector : option (UserMessage -> bool))
  : M (Result * option UserMessage) :=
  let port := port port_ref in
  res ← lock_guard port (
    r ← deref port;
    if decide (state r ≠ kReceiving) then ret (ERROR_PORT_STATE_UNEXPECTED, None)
    else if negb (CanAcceptMoreMessages r) then ret (ERROR_PORT_PEER_CLOSED, None)
    else
      let '(message, q) :=
        MessageQueue.GetNextMessageIf selector (message_queue r) in
      update port (set_message_queue q);;
      ret (OK, message));
  match res with
  | (OK, Some message) =>
      for_each make_signalable (ports message);;
      ret (OK, Some message)
  | _ => ret res
  end.

Definition GetMessage (port_ref : PortRef) : M (Result * option UserMessage) :=
  GetMessageIf port_ref None.

Definition WillSendPort_Locked (port : PortPtr) (to_node_name : NodeName)
    (slot : PortName * PortDescriptor) : M (PortName * PortDescriptor) :=
  let local_port_name := slot.1 in
  new_port_name ← GenerateRandomPortName;
  update port (set_state kBuffering);;
  r ← deref port;
  n ← get_node;
  let port_descriptor :=
    {| pd_peer_node_name := peer_node_name r;
       pd_peer_port_name := peer_port_name r;
       pd_referring_node_name := name_ n;
       pd_referring_port_name := local_port_name;
       pd_next_sequence_num_to_send := next_sequence_num_to_send r;
       pd_next_sequence_num_to_receive :=
         MessageQueue.next_sequence_num (message_queue r) |} in
  update port (set_peer to_node_name new_port_name);;
  ret (new_port_name, port_descriptor).

Definition AcceptPort (port_name : PortName) (port_descriptor : PortDescriptor)
  : M Result :=
  port ← make_shared
    (new_Port (pd_next_sequence_num_to_send port_descriptor)
              (pd_next_sequence_num_to_receive port_descriptor));
  update port (set_state kReceiving);;
  update port (set_peer (pd_peer_node_name port_descriptor)
                        (pd_peer_port_name port_descriptor));;
  update port (fun r =>
    set_message_queue (MessageQueue.set_signalable false (message_queue r)) r);;
  rv ← AddPortWithName port_name port;
  if decide (rv = OK) then
    ForwardMessage (pd_referring_node_name port_descriptor)
      (NewInternalMessage (pd_referring_port_name port_descriptor)
         kPortAccepted);;
    ret OK
  else ret rv.

(** The first loop of [WillSendMessage_Locked]: look up and lock the
    embedded ports one after the other, [i] being the index of the next one
    and [taken] the pointers locked so far ([ports[0..i-1]]).  On an error at
    index [i] the source runs
    [for (size_t j = 0; j <= i; ++j) ports[i]->lock.unlock();]
    and decrements the sender's [next_sequence_num_to_send]. *)
Fixpoint lock_ports (port : PortPtr) (names : list PortName) (i : nat)
    (taken : list PortPtr) : M (Result * list PortPtr) :=
  match names with
  | [] => ret (OK, taken)
  | port_name_i :: rest =>
      ports_i ← GetPort port_name_i;
      ports_i ← nonnull ports_i;
      lock_lock ports_i;;
      r ← deref ports_i;
      s ← deref port;
      let error :=
        if decide (state r ≠ kReceiving) then ERROR_PORT_STATE_UNEXPECTED
        else if decide (port_name_i = peer_port_name s)
             then ERROR_PORT_CANNOT_SEND_PEER
             else OK in
      if decide (error ≠ OK) then
        for_each (fun _ : nat => lock_unlock ports_i) (seq 0 (S i));;
        update port (fun s =>
          set_next_sequence_num_to_send
            (wrap64 (next_sequence_num_to_send s - 1)) s);;
        ret (error, taken ++ [ports_i])
      else lock_ports port rest (S i) (taken ++ [ports_i])
  end.

(** The second loop: hand every embedded port off. *)
Fixpoint send_ports (port : PortPtr) (ports : list PortPtr)
    (slots : list (PortName * PortDescriptor))
  : M (list (PortName * PortDescriptor)) :=
  match ports, slots with
  | ports_i :: ports', slot :: slots' =>
      s ← deref port;
      slot' ← WillSendPort_Locked ports_i (peer_node_name s) slot;
      rest ← send_ports port ports' slots';
      ret (slot' :: rest)
  | _, _ => ret []
  end.

(** [WillSendMessage_Locked(port, port_name, message, ports_taken)].  The
    message is changed in place, so it is returned in every case, together
    with the pointers stored through [ports_taken] (ignored by a caller that
    passes [nullptr]). *)
Definition WillSendMessage_Locked (port : PortPtr) (port_name : PortName)
    (message : UserMessage) : M (Result * UserMessage * list PortPtr) :=
  s ← deref port;
  message ←
    (if decide (sequence_num message = 0) then
       update port (set_next_sequence_num_to_send
                      (wrap64 (next_sequence_num_to_send s + 1)));;
       ret {| um_port_name := um_port_name message;
               sequence_num := next_sequence_num_to_send s;
               um_slots := um_slots message;
               um_payload := um_payload message |}
     else ret message);
  '(error, message, ports_taken) ←
    (if decide (0 < num_ports message)%nat then
       '(error, ports) ← lock_ports port (ports message) 0 [];
       if decide (error ≠ OK) then ret (error, message, ports)
       else
         slots ← send_ports port ports (um_slots message);
         for_each lock_unlock ports;;
         ret (OK, {| um_port_name := um_port_name message;
                      sequence_num := sequence_num message;
                      um_slots := slots;
                      um_payload := um_payload message |}, ports)
     else ret (OK, message, []));
  if decide (error ≠ OK) then ret (error, message, ports_taken)
  else
    s ← deref port;
    ret (OK, {| um_port_name := peer_port_name s;
                 sequence_num := sequence_num message;
                 um_slots := um_slots message;
                 um_payload := um_payload message |}, ports_taken).

(** The loop of [ForwardMessages_Locked]; every round takes one message out
    of the port's heap, so [fuel] bounds the rounds (lemma
    [ForwardMessages_loop_fuel]). *)
Fixpoint ForwardMessages_loop (fuel : nat) (port : PortPtr)
    (port_name : PortName) : M Result :=
  match fuel with
  | O => stuck
  | S fuel =>
      r ← deref port;
      let '(message, q) :=
        MessageQueue.GetNextMessageIf None (message_queue r) in
      update port (set_message_queue q);;
      match message with
      | None => ret OK
      | Some message =>
          '(rv, message, _) ← WillSendMessage_Locked port port_name message;
          if decide (rv ≠ OK) then ret rv
          else
            r ← deref port;
            ForwardMessage (peer_node_name r) (kUser message);;
            ForwardMessages_loop fuel port port_name
      end
  end.

Definition ForwardMessages_Locked (port : PortPtr) (port_name : PortName)
  : M Result :=
  r ← deref port;
  ForwardMessages_loop
    (S (length (MessageQueue.heap_ (message_queue r)))) port port_name.

Definition InitiateProxyRemoval_Locked (port : PortPtr) (port_name : PortName)
  : M unit :=
  n ← get_node;
  r ← deref port;
  let data := {| proxy_node_name := name_ n;
                 proxy_port_name := port_name;
                 proxy_to_node_name := peer_node_name r;
                 proxy_to_port_name := peer_port_name r |} in
  ForwardMessage (peer_node_name r)
    (NewInternalMessage (peer_port_name r) (kObserveProxy data)).

(** [MaybeRemoveProxy_Locked]: the deferred message is moved out of
    [send_on_proxy_removal] into [ForwardMessage]; the record, by then erased
    from the map, is left as it is. *)
Definition MaybeRemoveProxy_Locked (port : PortPtr) (port_name : PortName)
  : M unit :=
  r ← deref port;
  if negb (remove_proxy_on_last_message r) then ret tt
  else if negb (CanAcceptMoreMessages r) then
    ErasePort port_name;;
    match send_on_proxy_removal r with
    | Some (to_node, message) => ForwardMessage to_node message
    | None => ret tt
    end
  else ret tt.

Definition OnUserMessage (message : UserMessage) : M Result :=
  let port_name := um_port_name message in
  port ← GetPort port_name;
  rv ← for_each_ok (fun slot => AcceptPort slot.1 slot.2) (um_slots message);
  if decide (rv ≠ OK) then ret rv
  else
    '(rv, has_next_message, message_accepted) ←
      match port with
      | None => ret (OK, false, false)
      | Some port =>
          lock_guard port (
            r ← deref port;
            if CanAcceptMoreMessages r then
              let '(q, has_next_message) :=
                MessageQueue.AcceptMessage message (message_queue r) in
              update port (set_message_queue q);;
              if decide (state r = kBuffering) then ret (OK, false, true)
              else if decide (state r = kProxying) then
                rv ← ForwardMessages_Locked port port_name;
                if decide (rv ≠ OK) then ret (rv, false, true)
                else
                  MaybeRemoveProxy_Locked port port_name;;
                  ret (OK, false, true)
              else ret (OK, has_next_message, true)
            else ret (OK, false, false))
      end;
    if decide (rv ≠ OK) then ret rv
    else
      (if negb message_accepted then
         for_each (fun port_name_i =>
                     '(rv, port_ref) ← GetPortRef port_name_i;
                     match port_ref with
                     | Some port_ref => ClosePort port_ref;; ret tt
                     | None => ret tt
                     end)
                  (ports message)
       else if (has_next_message : bool) then
         match port with
         | Some port =>
             PortStatusChanged {| name := port_name; port := port |}
         | None => ret tt
         end
       else ret tt);;
      ret OK.

Definition OnPortAccepted (port_name : PortName) : M Result :=
  port ← GetPort port_name;
  match port with
  | None => OOPS ERROR_PORT_UNKNOWN
  | Some port =>
      lock_guard port (
        r ← deref port;
        if decide (state r ≠ kBuffering) then OOPS ERROR_PORT_STATE_UNEXPECTED
        else
          update port (set_state kProxying);;
          rv ← ForwardMessages_Locked port port_name;
          if decide (rv ≠ OK) then ret rv
          else
            r ← deref port;
            (if remove_proxy_on_last_message r
             then MaybeRemoveProxy_Locked port port_name
             else InitiateProxyRemoval_Locked port port_name);;
            ret OK)
  end.

Definition OnObserveProxy (port_name : PortName)
    (event : ObserveProxyEventData) : M Result :=
  port ← GetPort port_name;
  match port with
  | None => ret OK
  | Some port =>
      lock_guard port (
        r ← deref port;
        if decide (peer_node_name r = proxy_node_name event /\
                   peer_port_name r = proxy_port_name event) then
          if decide (state r = kReceiving) then
            update port (set_peer (proxy_to_node_name event)
                                  (proxy_to_port_name event));;
            let ack := wrap64 (next_sequence_num_to_send r - 1) in
            ForwardMessage (proxy_node_name event)
              (NewInternalMessage (proxy_port_name event)
                 (kObserveProxyAck ack))
          else
            let ack := kInvalidSequenceNum in
            update port (set_send_on_proxy_removal
              (Some (proxy_node_name event,
                     NewInternalMessage (proxy_port_name event)
                       (kObserveProxyAck ack))))
        else
          ForwardMessage (peer_node_name r)
            (NewInternalMessage (peer_port_name r) (kObserveProxy event)));;
      ret OK
  end.

Definition OnObserveProxyAck (port_name : PortName) (last_sequence_num : Z)
  : M Result :=
  port ← GetPort port_name;
  match port with
  | None => ret ERROR_PORT_UNKNOWN
  | Some port =>
      lock_guard port (
        r ← deref port;
        if decide (state r ≠ kProxying) then OOPS ERROR_PORT_STATE_UNEXPECTED
        else if decide (last_sequence_num = kInvalidSequenceNum) then
          InitiateProxyRemoval_Locked port port_name;;
          ret OK
        else
          update port (set_remove_proxy_on_last_message true);;
          update port (set_last_sequence_num_to_receive last_sequence_num);;
          MaybeRemoveProxy_Locked port port_name;;
          ret OK)
  end.

Definition OnObserveClosure (port_name : PortName) (last_sequence_num : Z)
  : M Result :=
  port ← GetPort port_name;
  match port with
  | None => ret OK
  | Some port =>
      notify_delegate ← lock_guard port (
        update port (set_peer_closed true);;
        update port (set_last_sequence_num_to_receive last_sequence_num);;
        r ← deref port;
        if decide (state r = kReceiving) then ret true
        else
          let next_node_name := peer_node_name r in
          let next_port_name := peer_port_name r in
          update port (set_remove_proxy_on_last_message true);;
          (if decide (state r = kProxying) then
             MaybeRemoveProxy_Locked port port_name;;
             ForwardMessage next_node_name
               (NewInternalMessage next_port_name
                  (kObserveClosure last_sequence_num))
           else ret tt);;
          ret false);
      (if (notify_delegate : bool)
       then PortStatusChanged {| name := port_name; port := port |}
       else ret tt);;
      ret OK
  end.

Definition AcceptMessage (message : Message) : M Result :=
  match message with
  | kUser m => OnUserMessage m
  | Internal port_name kPortAccepted => OnPortAccepted port_name
  | Internal port_name (kObserveProxy event) => OnObserveProxy port_name event
  | Internal port_name (kObserveProxyAck last_sequence_num) =>
      OnObserveProxyAck port_name last_sequence_num
  | Internal port_name (kObserveClosure last_sequence_num) =>
      OnObserveClosure port_name last_sequence_num
  | Internal _ (kUnrecognized _) => OOPS ERROR_NOT_IMPLEMENTED
  end.

(** The loop that flushes [local_messages_]; [AcceptMessage] never appends
    to that queue, so its length bounds the rounds. *)
Fixpoint deliver_local_messages (fuel : nat) : M Result :=
  match fuel with
  | O => stuck
  | S fuel =>
      n ← get_node;
      match local_messages_ n with
      | [] => modify_node (set_local [] false);; ret OK
      | next_message :: rest =>
          modify_node (fun n =>
            set_local rest (is_delivering_local_messages_ n) n);;
          rv ← AcceptMessage next_message;
          if decide (rv ≠ OK) then ret rv
          else deliver_local_messages fuel
      end
  end.

Definition SendMessage (port_ref : PortRef) (message : UserMessage)
  : M Result :=
  rv ← for_each_ok
         (fun port_name_i =>
            if decide (port_name_i = name port_ref)
            then ret ERROR_PORT_CANNOT_SEND_SELF else ret OK)
         (ports message);
  if decide (rv ≠ OK) then ret rv
  else
    let port := port port_ref in
    res ← lock_guard port (
      r ← deref port;
      if decide (state r ≠ kReceiving /\ state r ≠ kUninitialized)
      then ret (inl ERROR_PORT_STATE_UNEXPECTED)
      else if decide (state r = kReceiving /\ peer_closed r = true)
      then ret (inl ERROR_PORT_PEER_CLOSED)
      else
        '(rv, message, ports_taken) ←
          WillSendMessage_Locked port (name port_ref) message;
        if decide (rv ≠ OK) then ret (inl rv)
        else
          r ← deref port;
          if decide (state r = kUninitialized) then
            update port (fun r =>
              set_outgoing (outgoing_messages r ++ [message])
                           (outgoing_ports r ++ ports_taken) r);;
            ret (inl OK)
          else if decide (state r ≠ kReceiving) then check_failed
          else
            n ← get_node;
            if decide (peer_node_name r ≠ name_ n) then
              ForwardMessage (peer_node_name r) (kUser message);;
              ret (inl OK)
            else ret (inr message));
    match res with
    | inl rv => ret rv
    | inr message =>
        n ← get_node;
        let deliver := negb (is_delivering_local_messages_ n) in
        modify_node (fun n =>
          set_local (local_messages_ n ++ [kUser message])
                    (if deliver then true
                     else is_delivering_local_messages_ n) n);;
        if deliver then
          n ← get_node;
          deliver_local_messages (S (length (local_messages_ n)))
        else ret OK
    end.

Definition CreatePortPair : M (Result * option (PortRef * PortRef)) :=
  '(rv, port0_ref) ← CreateUninitializedPort;
  match port0_ref with
  | None => ret (rv, None)
  | Some port0_ref =>
      '(rv, port1_ref) ← CreateUninitializedPort;
      match port1_ref with
      | None => ret (rv, None)
      | Some port1_ref =>
          n ← get_node;
          rv ← InitializePort port0_ref (name_ n) (name port1_ref);
          if decide (rv ≠ OK) then ret (rv, None)
          else
            rv ← InitializePort port1_ref (name_ n) (name port0_ref);
            if decide (rv ≠ OK) then ret (rv, None)
            else ret (OK, Some (port0_ref, port1_ref))
      end
  end.

(** ** Runs of read operations, and example nodes *)

(** A reader calling [GetMessageIf] once per selector of a list; the results
    are collected in order. *)
Fixpoint get_messages (port_ref : PortRef)
    (selectors : list (option (UserMessage -> bool)))
  : M (list (Result * option UserMessage)) :=
  match selectors with
  | [] => ret []
  | selector :: selectors' =>
      res ← GetMessageIf port_ref selector;
      rest ← get_messages port_ref selectors';
      ret (res :: rest)
  end.

(** The number of messages surfaced to the reader within a list of results. *)
Definition surfaced (results : list (Result * option UserMessage)) : nat :=
  length (filter (fun res => is_Some res.2) results).

(** The messages that successive [GetNextMessageIf(nullptr, ...)] calls take
    out of a heap, starting with the cursor at [cursor]. *)
Fixpoint in_order (cursor : Z) (h : list UserMessage) : list UserMessage :=
  match h with
  | [] => []
  | top :: rest =>
      if MessageQueue.GetSequenceNum top =? cursor
      then top :: in_order (wrap32 (cursor + 1)) rest
      else []
  end.

Definition example_delegate : Delegate :=
  {| forwarded := []; status_changed := [];
     name_source := fun i => N.of_nat (1000 + i); names_generated := 0 |}.

(** A node named 1 holding the given records under the given names. *)
Definition example_node (records : list Port)
    (names : list (PortName * PortPtr)) : Node :=
  {| name_ := 1%N; delegate_ := example_delegate; objects := records;
     ports_ := list_to_map names; local_messages_ := [];
     is_delivering_local_messages_ := false; oops_log := [] |}.

(** An unlocked port in state [s], with peer [peer_port]@[peer_node], that
    has sent [next_send - 1] messages and holds [heap], its cursor at
    [cursor]. *)
Definition example_port (s : State) (peer_node : NodeName)
    (peer_port : PortName) (next_send cursor : Z) (heap : list UserMessage)
  : Port :=
  {| lock := false; state := s; peer_node_name := peer_node;
     peer_port_name := peer_port; next_sequence_num_to_send := next_send;
     last_sequence_num_to_receive := 0;
     message_queue := {| MessageQueue.heap_ := heap;
                         MessageQueue.next_sequence_num_ := cursor;
                         MessageQueue.signalable_ := true |};
     send_on_proxy_removal := None; remove_proxy_on_last_message := false;
     peer_closed := false; outgoing_messages := []; outgoing_ports := [] |}.

(** A user message with payload [[0]]. *)
Definition example_message (to : PortName) (seq : Z)
    (slots : list (PortName * PortDescriptor)) : UserMessage :=
  {| um_port_name := to; sequence_num := seq; um_slots := slots;
     um_payload := [0] |}.

(** ** Frames *)

(** Everything of a node but its object store and the delegate's name
    counter is the same in [n'] as in [n]. *)
Definition same_but_objects (n n' : Node) : Prop :=
  name_ n' = name_ n /\
  ports_ n' = ports_ n /\
  forwarded (delegate_ n') = forwarded (delegate_ n) /\
  status_changed (delegate_ n') = status_changed (delegate_ n) /\
  name_source (delegate_ n') = name_source (delegate_ n) /\
  local_messages_ n' = local_messages_ n /\
  is_delivering_local_messages_ n' = is_delivering_local_messages_ n /\
  oops_log n' = oops_log n.

(** How [WillSendMessage_Locked] turns a message without transferred ports,
    sent from a port whose record is [r], into the message that leaves. *)
Definition stamped (r : Port) (m : UserMessage) : UserMessage :=
  {| um_port_name := peer_port_name r;
     sequence_num := if decide (sequence_num m = 0)
                     then next_sequence_num_to_send r else sequence_num m;
     um_slots := um_slots m;
     um_payload := um_payload m |}.

(** What an operation that only writes records other than [p] leaves. *)
Definition keeps (p : PortPtr) (n n' : Node) : Prop :=
  same_but_objects n n' /\
  length (objects n') = length (objects n) /\
  objects n' !! p = objects n !! p.

(** The sender's counter after [WillSendMessage_Locked]: advanced when the
    message gets stamped, and decremented on the error path. *)
Definition counter_after (r : Port) (m : UserMessage) (rv : Result) : Z :=
  let stamped_counter :=
    if decide (sequence_num m = 0)
    then wrap64 (next_sequence_num_to_send r + 1)
    else next_sequence_num_to_send r in
  if decide (rv = OK) then stamped_counter else wrap64 (stamped_counter - 1).

(** Everything of a node but its object store and what the delegate was
    handed or asked to generate. *)
Definition same_control (n n' : Node) : Prop :=
  name_ n' = name_ n /\
  ports_ n' = ports_ n /\
  status_changed (delegate_ n') = status_changed (delegate_ n) /\
  name_source (delegate_ n') = name_source (delegate_ n) /\
  local_messages_ n' = local_messages_ n /\
  is_delivering_local_messages_ n' = is_delivering_local_messages_ n /\
  oops_log n' = oops_log n.

(** The queue once successive [GetNextMessageIf(nullptr, ...)] calls have
    taken out every in-order message. *)
Fixpoint drain_heap (cursor : Z) (h : list UserMessage)
  : Z * list UserMessage :=
  match h with
  | [] => (cursor, [])
  | top :: rest =>
      if MessageQueue.GetSequenceNum top =? cursor
      then drain_heap (wrap32 (cursor + 1)) rest
      else (cursor, h)
  end.

Definition drained (q : MessageQueue.t) : MessageQueue.t :=
  let '(cursor, h) :=
    drain_heap (MessageQueue.next_sequence_num_ q) (MessageQueue.heap_ q) in
  {| MessageQueue.heap_ := h;
     MessageQueue.next_sequence_num_ := cursor;
     MessageQueue.signalable_ := MessageQueue.signalable_ q |}.

(** [m'] is what a proxy whose record is [r] forwards for the queued message
    [m]: readdressed to the proxy's peer port, same payload, as many
    transferred ports, and the sequence number [m] carried when that was not
    zero. *)
Definition forwarded_as (r : Port) (m m' : UserMessage) : Prop :=
  um_port_name m' = peer_port_name r /\
  um_payload m' = um_payload m /\
  length (um_slots m') = length (um_slots m) /\
  (sequence_num m <> 0 -> sequence_num m' = sequence_num m).

(** The record [AcceptPort] creates for a port descriptor. *)
Definition accepted_port (d : PortDescriptor) : Port :=
  let r := new_Port (pd_next_sequence_num_to_send d)
                    (pd_next_sequence_num_to_receive d) in
  set_message_queue (MessageQueue.set_signalable false (message_queue r))
    (set_peer (pd_peer_node_name d) (pd_peer_port_name d)
       (set_state kReceiving r)).

(** The events [AcceptPort] and [ClosePort] hand to the delegate for the
    port of a descriptor. *)
Definition port_accepted_event (d : PortDescriptor) : NodeName * Message :=
  (pd_referring_node_name d,
   Internal (pd_referring_port_name d) kPortAccepted).

Definition closure_event (d : PortDescriptor) : NodeName * Message :=
  (pd_peer_node_name d,
   Internal (pd_peer_port_name d)
     (kObserveClosure
        (wrap64 (wrap64 (pd_next_sequence_num_to_send d) - 1)))).

(** [r'] is [r] up to the signalable flag of its queue. *)
Definition signalized (r r' : Port) : Prop :=
  exists b,
    r' = set_message_queue
           (MessageQueue.set_signalable b (message_queue r)) r.

(** The messages [ms] carry no ports and have the consecutive sequence
    numbers [first], [first + 1], ... *)
Fixpoint consecutive (first : Z) (ms : list UserMessage) : Prop :=
  match ms with
  | [] => True
  | m :: ms' =>
      MessageQueue.GetSequenceNum m = first /\ um_slots m = [] /\
      consecutive (first + 1) ms'
  end.

(** ** LostConnectionToNode *)

(** One round of the loop of [Node::LostConnectionToNode], for the entry
    [(port_name, port)] of [ports_]: the references it pushes to
    [ports_to_notify].  The queue's counter is the [uint32_t] of
    [message_queue.cc], so [next_sequence_num() - 1] is computed in 32
    bits. *)
Definition lose_port (node_name : NodeName) (entry : PortName * PortPtr)
  : M (list PortRef) :=
  let port_name := entry.1 in
  let port := entry.2 in
  '(notify, remove_port) ← lock_guard port (
    r ← deref port;
    if decide (peer_node_name r = node_name) then
      notify ←
        (if negb (peer_closed r) then
           update port (set_peer_closed true);;
           update port
             (set_last_sequence_num_to_receive
                (wrap32
                   (MessageQueue.next_sequence_num (message_queue r) - 1)));;
           ret (bool_decide (state r = kReceiving))
         else ret false);
      ret (notify, bool_decide (state r ≠ kReceiving))
    else ret (false, false));
  (if (remove_port : bool) then ErasePort port_name else ret tt);;
  ret (if (notify : bool)
       then [{| name := port_name; port := port |}] else []).

Fixpoint lose_ports (node_name : NodeName)
    (entries : list (PortName * PortPtr)) : M (list PortRef) :=
  match entries with
  | [] => ret []
  | entry :: rest =>
      notify ← lose_port node_name entry;
      ports_to_notify ← lose_ports node_name rest;
      ret (notify ++ ports_to_notify)
  end.

(** [int Node::LostConnectionToNode(const NodeName&)].  The loop walks
    [ports_], an [unordered_map], in an order the language leaves open; here
    it is the order of [map_to_list].  Erasing the current entry does not
    disturb the walk over the others. *)
Definition LostConnectionToNode (node_name : NodeName) : M Result :=
  n ← get_node;
  ports_to_notify ← lose_ports node_name (map_to_list (ports_ n));
  for_each PortStatusChanged ports_to_notify;;
  ret OK.

(** ** Further definitions for stating properties *)

(** A message with its header's port name rewritten. *)
Definition readdressed (to : PortName) (m : UserMessage) : UserMessage :=
  {| um_port_name := to; sequence_num := sequence_num m;
     um_slots := um_slots m; um_payload := um_payload m |}.

(** One half of a pair made by [CreatePortPair] on the node named [node]:
    Receiving, its peer the port [peer] of the same node. *)
Definition pair_port (node : NodeName) (peer : PortName) : Port :=
  set_peer node peer
    (set_state kReceiving (new_Port kInitialSequenceNum kInitialSequenceNum)).

(** An example node with a name of its own. *)
Definition example_node_named (node : NodeName) (records : list Port)
    (names : list (PortName * PortPtr)) : Node :=
  {| name_ := node; delegate_ := example_delegate; objects := records;
     ports_ := list_to_map names; local_messages_ := [];
     is_delivering_local_messages_ := false; oops_log := [] |}.

(** A sender calling [SendMessage] once per message of a list. *)
Fixpoint send_messages (port_ref : PortRef) (messages : list UserMessage)
  : M (list Result) :=
  match messages with
  | [] => ret []
  | message :: messages' =>
      rv ← SendMessage port_ref message;
      rest ← send_messages port_ref messages';
      ret (rv :: rest)
  end.

(** What [LostConnectionToNode] does to the record of a registered port,
    whether it erases the port's name, and whether it reports the port. *)
Definition lost (node_name : NodeName) (r : Port) : Port :=
  if decide (peer_node_name r = node_name) then
    if peer_closed r then r
    else set_last_sequence_num_to_receive
           (wrap32 (MessageQueue.next_sequence_num (message_queue r) - 1))
           (set_peer_closed true r)
  else r.

Definition lost_removes (node_name : NodeName) (r : Port) : bool :=
  bool_decide (peer_node_name r = node_name /\ state r ≠ kReceiving).

Definition lost_notifies (node_name : NodeName) (r : Port) : bool :=
  bool_decide (peer_node_name r = node_name /\ peer_closed r = false /\
               state r = kReceiving).

(** What [k] successive [GetNextMessageIf(nullptr, ...)] calls on a queue
    hand out, a call at a time, and the queue after the last of them. *)
Fixpoint get_next_messages (k : nat) (q : MessageQueue.t)
  : list (option UserMessage) * MessageQueue.t :=
  match k with
  | O => ([], q)
  | S k' =>
      let '(message, q') := MessageQueue.GetNextMessageIf None q in
      let '(rest, q'') := get_next_messages k' q' in
      (message :: rest, q'')
  end.

(** What a port whose record is [r] makes of the messages [ms], none of
    them carrying ports, when it sends them in turn, and where its counter
    stands after the last: each message is [stamped] by the record as the
    messages before it left it. *)
Fixpoint stamped_all (r : Port) (ms : list UserMessage)
  : list UserMessage * Z :=
  match ms with
  | [] => ([], next_sequence_num_to_send r)
  | m :: ms' =>
      let '(out, counter) :=
        stamped_all
          (set_next_sequence_num_to_send (counter_after r m OK) r) ms' in
      (stamped r m :: out, counter)
  end.

(** * Properties *)

Lemma wrap32_range x : 0 <= wrap32 x < 2 ^ 32.
Proof. unfold wrap32. apply Z.mod_pos_bound. lia. Qed.

Lemma wrap64_range x : 0 <= wrap64 x < 2 ^ 64.
Proof. unfold wrap64. apply Z.mod_pos_bound. lia. Qed.

Lemma wrap32_small x : 0 <= x < 2 ^ 32 -> wrap32 x = x.
Proof. apply Z.mod_small. Qed.

Lemma wrap64_small x : 0 <= x < 2 ^ 64 -> wrap64 x = x.
Proof. apply Z.mod_small. Qed.

(** ** The message queue *)

Section QueueFacts.
Import MessageQueue.

Lemma ascending_min x h :
  ascending (x :: h) -> min_sequence_num (x :: h) = Some (GetSequenceNum x).
Proof.
  revert x. induction h as [|y h IH]; intros x [Hx Hh]; [reflexivity|].
  change (min_sequence_num (x :: y :: h))
    with (match min_sequence_num (y :: h) with
          | None => Some (GetSequenceNum x)
          | Some s => Some (Z.min (GetSequenceNum x) s)
          end).
  rewrite (IH y Hh). f_equal.
  pose proof (Hx y ltac:(left)). lia.
Qed.

Lemma push_heap_perm m h : push_heap m h ≡ₚ m :: h.
Proof.
  induction h as [|x h IH]; simpl; [reflexivity|].
  destruct (GetSequenceNum m <? GetSequenceNum x); [reflexivity|].
  rewrite IH. apply Permutation_swap.
Qed.

Lemma push_heap_ascending m h : ascending h -> ascending (push_heap m h).
Proof.
  induction h as [|x h IH]; simpl.
  - intros _. split; [|exact I]. intros y Hy. inversion Hy.
  - intros [Hx Hh].
    destruct (GetSequenceNum m <? GetSequenceNum x) eqn:E.
    + apply Z.ltb_lt in E. split; [|split; assumption].
      intros y Hy. apply elem_of_cons in Hy as [->|Hy]; [lia|].
      specialize (Hx y Hy). lia.
    + apply Z.ltb_ge in E. split; [|auto].
      intros y Hy. rewrite push_heap_perm in Hy.
      apply elem_of_cons in Hy as [->|Hy]; [lia|auto].
Qed.

(** Messages with distinct numbers have one ascending order: the list
    [push_heap m h] then stands for the vector after [std::push_heap],
    whatever place the library gives [m] in it. *)
Lemma ascending_unique h1 :
  forall h2,
    ascending h1 -> ascending h2 -> h1 ≡ₚ h2 ->
    NoDup (GetSequenceNum <$> h1) -> h1 = h2.
Proof.
  induction h1 as [|x h1 IH]; intros h2 A1 A2 P N.
  - apply Permutation_nil in P. congruence.
  - destruct h2 as [|y h2].
    { apply Permutation_sym, Permutation_nil in P. discriminate. }
    destruct A1 as [Hx A1], A2 as [Hy A2].
    cbn [fmap list_fmap] in N. apply NoDup_cons in N as [Nx N].
    assert (E : y = x).
    { assert (Hyin : y ∈ x :: h1) by (rewrite P; left).
      assert (Hxin : x ∈ y :: h2) by (rewrite <- P; left).
      apply elem_of_cons in Hyin as [->|Hyin]; [reflexivity|].
      exfalso. apply Nx. apply list_elem_of_fmap. exists y.
      split; [|exact Hyin].
      specialize (Hx y Hyin).
      apply elem_of_cons in Hxin as [->|Hxin]; [reflexivity|].
      specialize (Hy x Hxin). lia. }
    subst y. f_equal. apply IH; auto.
    eapply Permutation_cons_inv. exact P.
Qed.

Lemma push_heap_unique m h h' :
  ascending h -> NoDup (GetSequenceNum <$> m :: h) ->
  ascending h' -> h' ≡ₚ m :: h -> h' = push_heap m h.
Proof.
  intros A N A' P. symmetry. apply ascending_unique.
  - apply push_heap_ascending, A.
  - exact A'.
  - rewrite push_heap_perm, P. reflexivity.
  - rewrite push_heap_perm. exact N.
Qed.

Lemma GetNextMessageIf_Some selector q top q' :
  GetNextMessageIf selector q = (Some top, q') ->
  heap_ q = top :: heap_ q' /\
  GetSequenceNum top = next_sequence_num_ q /\
  (forall select, selector = Some select -> select top = true) /\
  next_sequence_num_ q' = wrap32 (next_sequence_num_ q + 1) /\
  signalable_ q' = signalable_ q.
Proof.
  unfold GetNextMessageIf. destruct (heap_ q) as [|x rest]; [discriminate|].
  destruct (GetSequenceNum x =? next_sequence_num_ q) eqn:E; simpl;
    [|discriminate].
  apply Z.eqb_eq in E.
  destruct selector as [select|].
  - destruct (select x) eqn:S; simpl; [|discriminate].
    intros [= <- <-]. simpl. repeat split; auto. intros ? [= <-]. exact S.
  - intros [= <- <-]. simpl. repeat split; auto. discriminate.
Qed.

Lemma GetNextMessageIf_None selector q r q' :
  GetNextMessageIf selector q = (r, q') -> r = None -> q' = q.
Proof.
  unfold GetNextMessageIf. destruct (heap_ q) as [|x rest]; [congruence|].
  destruct (negb _); [congruence|].
  destruct (match selector with Some _ => _ | None => _ end); congruence.
Qed.


(** C9. [GetNextMessageIf] hands out a message only when the least sequence
    number of the heap equals the cursor and the selector, if any, accepts
    the top message; the cursor then advances by one (32-bit) and the message
    leaves the heap.  In every other case (empty heap, least number different
    from the cursor, selector rejection) it returns null and leaves the queue
    as it was.  Two successful pops in a row therefore yield consecutive
    sequence numbers.  [AcceptMessage] adds the message to the heap and
    reports [has_next_message] exactly when the queue is signalable and the
    least sequence number equals the cursor. *)
Theorem C9_message_queue (q : t) (selector : option (UserMessage -> bool))
    (m : UserMessage) :
  wf q ->
  (match GetNextMessageIf selector q with
   | (Some top, q') =>
       min_sequence_num (heap_ q) = Some (next_sequence_num_ q) /\
       GetSequenceNum top = next_sequence_num_ q /\
       (forall select, selector = Some select -> select top = true) /\
       heap_ q = top :: heap_ q' /\
       next_sequence_num_ q' = wrap32 (next_sequence_num_ q + 1) /\
       wf q'
   | (None, q') =>
       q' = q /\
       (heap_ q = [] \/
        min_sequence_num (heap_ q) <> Some (next_sequence_num_ q) \/
        exists select top, selector = Some select /\
          head (heap_ q) = Some top /\ select top = false)
   end) /\
  (forall selector' m1 q1 m2 q2,
     GetNextMessageIf selector q = (Some m1, q1) ->
     GetNextMessageIf selector' q1 = (Some m2, q2) ->
     GetSequenceNum m2 = wrap32 (GetSequenceNum m1 + 1) /\
     (GetSequenceNum m1 < 2 ^ 32 - 1 ->
      GetSequenceNum m2 = GetSequenceNum m1 + 1)) /\
  (match AcceptMessage m q with
   | (q', has_next_message) =>
       heap_ q' ≡ₚ m :: heap_ q /\
       next_sequence_num_ q' = next_sequence_num_ q /\
       wf q' /\
       (signalable_ q = false -> has_next_message = false) /\
       (has_next_message = true <->
        signalable_ q = true /\
        min_sequence_num (heap_ q') = Some (next_sequence_num_ q))
   end).
Proof.
  intros [Hasc Hcur]. split; [|split].
  - destruct (GetNextMessageIf selector q) as [[top|] q'] eqn:E.
    + destruct (GetNextMessageIf_Some _ _ _ _ E) as (Hh & Hs & Hsel & Hn & _).
      rewrite Hh in Hasc |- *.
      rewrite (ascending_min _ _ Hasc), Hs.
      repeat split; auto.
      * apply Hasc.
      * rewrite Hn. apply wrap32_range.
      * rewrite Hn. apply wrap32_range.
    + split; [eapply GetNextMessageIf_None; eauto|].
      unfold GetNextMessageIf in E.
      destruct (heap_ q) as [|x rest] eqn:Hh; [left; reflexivity|right].
      destruct (GetSequenceNum x =? next_sequence_num_ q) eqn:Ex; simpl in E.
      * right. destruct selector as [select|]; [|discriminate].
        exists select, x. destruct (select x); [discriminate|auto].
      * left. rewrite (ascending_min _ _ Hasc).
        apply Z.eqb_neq in Ex. congruence.
  - intros selector' m1 q1 m2 q2 E1 E2.
    destruct (GetNextMessageIf_Some _ _ _ _ E1) as (_ & Hs1 & _ & Hn1 & _).
    destruct (GetNextMessageIf_Some _ _ _ _ E2) as (_ & Hs2 & _ & _ & _).
    assert (H : GetSequenceNum m2 = wrap32 (GetSequenceNum m1 + 1))
      by congruence.
    split; [exact H|]. intros Hlt. rewrite H. unfold wrap32.
    pose proof (wrap32_range (sequence_num m1)).
    apply Z.mod_small. unfold GetSequenceNum in *. lia.
  - unfold AcceptMessage.
    pose proof (push_heap_ascending m _ Hasc) as Hasc'.
    pose proof (push_heap_perm m (heap_ q)) as Hperm.
    destruct (signalable_ q) eqn:Hsig; simpl.
    + split; [exact Hperm|]. split; [reflexivity|]. split; [split; assumption|].
      split; [discriminate|].
      destruct (push_heap m (heap_ q)) as [|x h] eqn:Hp.
      * split; [discriminate|]. intros [_ H]. discriminate H.
      * rewrite (ascending_min _ _ Hasc'). rewrite Z.eqb_eq.
        split; [intros ->; auto|]. intros [_ H]. congruence.
    + split; [exact Hperm|]. split; [reflexivity|]. split; [split; assumption|].
      split; [reflexivity|]. split; [discriminate|]. intros [H _]. discriminate H.
Qed.

(** A queue expecting 1 and holding message 1 hands it out and then expects
    2. *)
Lemma C9_message_queue_witness :
  match GetNextMessageIf None
          {| heap_ := [example_message 10 1 []]; next_sequence_num_ := 1;
             signalable_ := true |}
  with
  | (Some top, q') =>
      GetSequenceNum top = 1 /\ next_sequence_num_ q' = wrap32 (1 + 1)
  | (None, _) => False
  end.
Proof.
  assert (Hwf : wf {| heap_ := [example_message 10 1 []];
                      next_sequence_num_ := 1; signalable_ := true |}).
  { split; [|simpl; lia]. simpl. split; [|exact I].
    intros y Hy. inversion Hy. }
  destruct (C9_message_queue _ None (example_message 10 2 []) Hwf) as [H _].
  simpl in H. destruct H as (_ & H1 & _ & _ & H2 & _).
  simpl. split; [exact H1|exact H2].
Defined.

End QueueFacts.
(** ** Running the primitive operations *)

Lemma bind_run {A B} (f : A -> M B) (c : M A) n :
  (c ≫= f) n =
  match c n with
  | Done a n' => f a n'
  | Stuck => Stuck
  | Fatal n' => Fatal n'
  end.
Proof. reflexivity. Qed.

Lemma deref_run p n r : objects n !! p = Some r -> deref p n = Done r n.
Proof. unfold deref. intros ->. reflexivity. Qed.

Lemma update_run p f n r :
  objects n !! p = Some r ->
  update p f n = Done tt (set_objects (<[p := f r]> (objects n)) n).
Proof.
  unfold update. rewrite bind_run. intros H.
  rewrite (deref_run _ _ _ H). reflexivity.
Qed.

Lemma insert_lookup_same (o : list Port) p x r :
  o !! p = Some r -> <[p := x]> o !! p = Some x.
Proof. intros H. apply list_lookup_insert_eq. eapply lookup_lt_Some; eauto. Qed.

Ltac lookup_solve :=
  simpl;
  first [ eassumption
        | eapply insert_lookup_same; lookup_solve
        | rewrite list_lookup_insert_ne by congruence; lookup_solve ].

Ltac proj_simpl :=
  cbn [lock state peer_node_name peer_port_name next_sequence_num_to_send
       last_sequence_num_to_receive message_queue send_on_proxy_removal
       remove_proxy_on_last_message peer_closed outgoing_messages
       outgoing_ports set_lock set_state set_peer set_peer_node_name
       set_next_sequence_num_to_send set_last_sequence_num_to_receive
       set_message_queue set_send_on_proxy_removal
       set_remove_proxy_on_last_message set_peer_closed set_outgoing
       name_ delegate_ objects ports_ local_messages_
       is_delivering_local_messages_ oops_log set_delegate set_objects
       set_ports set_local set_oops_log forwarded status_changed name_source
       names_generated name port negb andb orb fst snd].

Ltac dec_solve := proj_simpl; first [congruence | intuition congruence | lia].

Ltac mstep :=
  first [ rewrite bind_run
        | erewrite deref_run by lookup_solve
        | erewrite update_run by lookup_solve
        | progress (unfold ret, get_node, modify_node, stuck)
        | progress (cbv beta iota)
        | progress proj_simpl
        | rewrite decide_True by dec_solve
        | rewrite decide_False by dec_solve
        | rewrite list_insert_insert_eq ].

Ltac mrun := repeat mstep.

Ltac open_node n :=
  destruct n as [n_name [d_fwd d_status d_source d_count] n_objs n_ports
                 n_local n_delivering n_oops].
Ltac open_port r :=
  destruct r as [r_lock r_state r_pn r_pp r_ns r_last r_q r_deferred r_remove
                 r_closed r_om r_op].

(** ** ClosePort *)

(** C6. [ClosePort] on a port that is not Receiving returns
    PortStateUnexpected and leaves the node as it was; on a Receiving port it
    marks the record Closed, hands exactly one ObserveClosure carrying
    [next_sequence_num_to_send - 1] to the delegate for the port's peer,
    erases the name from the port map and returns OK. *)
Theorem C6_ClosePort (port_ref : PortRef) (n : Node) (r : Port) :
  objects n !! port port_ref = Some r ->
  lock r = false ->
  (state r <> kReceiving ->
   ClosePort port_ref n = Done ERROR_PORT_STATE_UNEXPECTED n) /\
  (state r = kReceiving ->
   exists n',
     ClosePort port_ref n = Done OK n' /\
     objects n' = <[port port_ref := set_state kClosed r]> (objects n) /\
     forwarded (delegate_ n') =
       forwarded (delegate_ n) ++
       [(peer_node_name r,
         Internal (peer_port_name r)
           (kObserveClosure (wrap64 (next_sequence_num_to_send r - 1))))] /\
     ports_ n' = delete (name port_ref) (ports_ n) /\
     status_changed (delegate_ n') = status_changed (delegate_ n) /\
     names_generated (delegate_ n') = names_generated (delegate_ n) /\
     local_messages_ n' = local_messages_ n /\
     oops_log n' = oops_log n /\
     name_ n' = name_ n).
Proof.
  intros Hr Hl. open_node n. open_port r. simpl in Hr, Hl. subst.
  unfold ClosePort, lock_guard, lock_lock, lock_unlock. split; intros Hs.
  - mrun. rewrite list_insert_id by auto. reflexivity.
  - simpl in Hs. subst. eexists. split.
    + unfold ForwardMessage, ErasePort, NewInternalMessage. mrun. reflexivity.
    + simpl. repeat split; reflexivity.
Qed.

(** A Receiving port that has sent four messages is closed. *)
Lemma C6_ClosePort_witness :
  exists n',
    ClosePort {| name := 10%N; port := 0%nat |}
      (example_node [example_port kReceiving 2 20 5 1 []] [(10%N, 0%nat)])
    = Done OK n' /\
    forwarded (delegate_ n') = [(2%N, Internal 20%N (kObserveClosure 4))] /\
    ports_ n' !! 10%N = None.
Proof.
  destruct (C6_ClosePort {| name := 10%N; port := 0%nat |}
              (example_node [example_port kReceiving 2 20 5 1 []]
                 [(10%N, 0%nat)])
              (example_port kReceiving 2 20 5 1 []) eq_refl eq_refl)
    as [_ H].
  destruct (H eq_refl) as (n' & Hrun & _ & Hf & Hp & _).
  exists n'. split; [exact Hrun|]. split; [exact Hf|].
  rewrite Hp. reflexivity.
Defined.

(** ** SendMessage: self-send *)

Lemma self_send_loop (self : PortName) (names : list PortName) (n : Node) :
  for_each_ok (fun port_name_i =>
                 if decide (port_name_i = self)
                 then ret ERROR_PORT_CANNOT_SEND_SELF else ret OK) names n
  = Done (if decide (self ∈ names) then ERROR_PORT_CANNOT_SEND_SELF else OK) n.
Proof.
  induction names as [|x names IH]; cbn [for_each_ok].
  - rewrite decide_False by (apply not_elem_of_nil). reflexivity.
  - rewrite bind_run. destruct (decide (x = self)) as [->|Hne].
    + unfold ret at 1. cbv beta iota. rewrite decide_False by discriminate.
      rewrite decide_True by (apply elem_of_cons; auto). reflexivity.
    + unfold ret at 1. cbv beta iota. rewrite decide_True by reflexivity.
      rewrite IH. destruct (decide (self ∈ names)) as [Hin|Hnin].
      * rewrite decide_True by (apply elem_of_cons; auto). reflexivity.
      * rewrite decide_False; [reflexivity|].
        intros [->|H]%elem_of_cons; contradiction.
Qed.

(** C7. [SendMessage(p, m)] with [p]'s own name among the transferred ports
    of [m] returns CannotSendSelf and leaves the node, hence the record of
    [p] (state, peer, [next_sequence_num_to_send]), as it was. *)
Theorem C7_SendMessage_self (port_ref : PortRef) (message : UserMessage)
    (n : Node) :
  name port_ref ∈ ports message ->
  SendMessage port_ref message n = Done ERROR_PORT_CANNOT_SEND_SELF n.
Proof.
  intros Hin. unfold SendMessage. rewrite bind_run, self_send_loop.
  destruct (decide (name port_ref ∈ ports message)); [|contradiction].
  cbv beta iota. rewrite decide_True by discriminate. reflexivity.
Qed.

Lemma C7_SendMessage_self_witness :
  SendMessage {| name := 10%N; port := 0%nat |}
    (example_message 0 0 [(11%N, empty_descriptor); (10%N, empty_descriptor)])
    (example_node [example_port kReceiving 2 20 1 1 []] [(10%N, 0%nat)])
  = Done ERROR_PORT_CANNOT_SEND_SELF
      (example_node [example_port kReceiving 2 20 1 1 []] [(10%N, 0%nat)]).
Proof.
  apply C7_SendMessage_self. simpl.
  apply elem_of_cons. right. apply elem_of_cons. left. reflexivity.
Defined.

(** ** ObserveProxyAck *)

(** C1 (amended). A Proxying port that receives ObserveProxyAck with a valid
    (nonzero) [last_sequence_num] gets [remove_proxy_on_last_message] set and
    [last_sequence_num_to_receive] set to that value.  The proxy is then
    removed exactly when [last_sequence_num_to_receive] equals the queue's
    next-expected number minus one (in 64-bit arithmetic): the name is erased
    from the port map and the message armed in [send_on_proxy_removal], if
    any, is forwarded once.  Otherwise the record stays in the map, changed
    in those two fields only, and nothing is forwarded. *)
Theorem C1_OnObserveProxyAck (port_name : PortName) (last_sequence_num : Z)
    (n : Node) (p : PortPtr) (r : Port) :
  ports_ n !! port_name = Some p ->
  objects n !! p = Some r ->
  lock r = false ->
  state r = kProxying ->
  last_sequence_num <> kInvalidSequenceNum ->
  exists n',
    OnObserveProxyAck port_name last_sequence_num n = Done OK n' /\
    objects n' =
      <[p := set_last_sequence_num_to_receive last_sequence_num
               (set_remove_proxy_on_last_message true r)]> (objects n) /\
    (if decide (last_sequence_num =
                wrap64 (MessageQueue.next_sequence_num (message_queue r) - 1))
     then
       ports_ n' = delete port_name (ports_ n) /\
       forwarded (delegate_ n') =
         forwarded (delegate_ n) ++
         match send_on_proxy_removal r with
         | Some deferred => [deferred]
         | None => []
         end
     else
       ports_ n' = ports_ n /\
       forwarded (delegate_ n') = forwarded (delegate_ n)) /\
    status_changed (delegate_ n') = status_changed (delegate_ n) /\
    oops_log n' = oops_log n.
Proof.
  intros Hp Hr Hl Hs Hv. open_node n. open_port r. simpl in Hp, Hr, Hl, Hs.
  subst. unfold OnObserveProxyAck, GetPort. mrun. rewrite Hp.
  unfold lock_guard, lock_lock, lock_unlock, MaybeRemoveProxy_Locked,
    CanAcceptMoreMessages.
  mrun. rewrite orb_true_r.
  destruct (decide (last_sequence_num =
                    wrap64 (MessageQueue.next_sequence_num r_q - 1)))
    as [He|Hne].
  - rewrite <- He, Z.eqb_refl. unfold ErasePort.
    destruct r_deferred as [[to_node message]|];
      unfold ForwardMessage; mrun; eexists; (split; [reflexivity|]);
      simpl; rewrite ?app_nil_r; auto.
  - apply Z.eqb_neq in Hne. rewrite Hne. mrun.
    eexists. split; [reflexivity|]. simpl. auto.
Qed.

(** The acknowledged last number is the one the queue has just passed: the
    proxy named 10 is removed. *)
Lemma C1_OnObserveProxyAck_witness :
  exists n',
    OnObserveProxyAck 10 4
      (example_node [example_port kProxying 2 20 1 5 []] [(10%N, 0%nat)])
    = Done OK n' /\
    ports_ n' !! 10%N = None.
Proof.
  destruct (C1_OnObserveProxyAck 10 4
              (example_node [example_port kProxying 2 20 1 5 []]
                 [(10%N, 0%nat)])
              0%nat (example_port kProxying 2 20 1 5 [])
              eq_refl eq_refl eq_refl eq_refl ltac:(discriminate))
    as (n' & Hrun & _ & Hif & _).
  exists n'. split; [exact Hrun|].
  rewrite decide_True in Hif by reflexivity.
  destruct Hif as [-> _]. reflexivity.
Defined.

(** A proxy whose queue expects number 5 next is told that the last number
    is 2: the next-expected number exceeds [last_sequence_num_to_receive],
    yet the record stays in the port map. *)
Lemma C1_counterexample :
  exists n' r',
    OnObserveProxyAck 10 2
      (example_node [example_port kProxying 2 20 1 5 []] [(10%N, 0%nat)])
    = Done OK n' /\
    objects n' !! 0%nat = Some r' /\
    last_sequence_num_to_receive r' <
      MessageQueue.next_sequence_num (message_queue r') /\
    ports_ n' !! 10%N = Some 0%nat.
Proof.
  eexists. eexists. split; [reflexivity|]. split; [reflexivity|].
  split; reflexivity.
Qed.

(** ** ObserveProxy *)

(** C2 (amended). ObserveProxy at an existing local port.  If the port's
    peer is the event's proxy and the port is Receiving, its peer becomes the
    event's proxy-to identity and an ObserveProxyAck carrying
    [next_sequence_num_to_send - 1] is sent to the proxy.  If the peer is not
    the proxy, the event is forwarded unchanged to the port's peer.  If the
    peer is the proxy but the port is not Receiving, nothing is sent: the
    ObserveProxyAck carrying the invalid sequence number, addressed to the
    proxy, is stored in [send_on_proxy_removal]. *)
Theorem C2_OnObserveProxy (port_name : PortName)
    (event : ObserveProxyEventData) (n : Node) (p : PortPtr) (r : Port) :
  ports_ n !! port_name = Some p ->
  objects n !! p = Some r ->
  lock r = false ->
  exists n',
    OnObserveProxy port_name event n = Done OK n' /\
    ports_ n' = ports_ n /\
    (peer_node_name r = proxy_node_name event /\
     peer_port_name r = proxy_port_name event ->
     state r = kReceiving ->
     objects n' =
       <[p := set_peer (proxy_to_node_name event) (proxy_to_port_name event) r]>
         (objects n) /\
     forwarded (delegate_ n') =
       forwarded (delegate_ n) ++
       [(proxy_node_name event,
         Internal (proxy_port_name event)
           (kObserveProxyAck (wrap64 (next_sequence_num_to_send r - 1))))]) /\
    (~ (peer_node_name r = proxy_node_name event /\
        peer_port_name r = proxy_port_name event) ->
     objects n' = objects n /\
     forwarded (delegate_ n') =
       forwarded (delegate_ n) ++
       [(peer_node_name r, Internal (peer_port_name r) (kObserveProxy event))]) /\
    (peer_node_name r = proxy_node_name event /\
     peer_port_name r = proxy_port_name event ->
     state r <> kReceiving ->
     objects n' =
       <[p := set_send_on_proxy_removal
                (Some (proxy_node_name event,
                       Internal (proxy_port_name event)
                         (kObserveProxyAck kInvalidSequenceNum))) r]>
         (objects n) /\
     forwarded (delegate_ n') = forwarded (delegate_ n)).
Proof.
  intros Hp Hr Hl. open_node n. open_port r. destruct event as [pn pp tn tp].
  simpl in Hp, Hr, Hl. subst.
  unfold OnObserveProxy, GetPort. mrun. rewrite Hp.
  unfold lock_guard, lock_lock, lock_unlock, ForwardMessage,
    NewInternalMessage.
  mrun. cbn [proxy_node_name proxy_port_name proxy_to_node_name
             proxy_to_port_name].
  destruct (decide (r_pn = pn /\ r_pp = pp))
    as [[-> ->]|Hne].
  - destruct (decide (r_state = kReceiving)) as [->|Hs].
    + mrun. eexists. split; [reflexivity|]. simpl.
      split; [reflexivity|]. split; [auto|].
      split; [intros H; exfalso; apply H; auto|]. intros _ H. congruence.
    + mrun. eexists. split; [reflexivity|]. simpl.
      split; [reflexivity|]. split; [intros _ H; congruence|].
      split; [intros H; exfalso; apply H; auto|]. auto.
  - mrun. eexists. split; [reflexivity|]. simpl.
    split; [reflexivity|]. split; [intros H; contradiction|].
    split; [|intros H; contradiction].
    intros _. rewrite list_insert_id by auto. auto.
Qed.

(** A Receiving port whose peer is the proxy switches to the proxy's target
    and acknowledges with the number of its last message. *)
Lemma C2_OnObserveProxy_witness :
  exists n',
    OnObserveProxy 10
      {| proxy_node_name := 2; proxy_port_name := 20;
         proxy_to_node_name := 3; proxy_to_port_name := 30 |}
      (example_node [example_port kReceiving 2 20 8 1 []] [(10%N, 0%nat)])
    = Done OK n' /\
    forwarded (delegate_ n') = [(2%N, Internal 20%N (kObserveProxyAck 7))].
Proof.
  destruct (C2_OnObserveProxy 10
              {| proxy_node_name := 2; proxy_port_name := 20;
                 proxy_to_node_name := 3; proxy_to_port_name := 30 |}
              (example_node [example_port kReceiving 2 20 8 1 []]
                 [(10%N, 0%nat)])
              0%nat (example_port kReceiving 2 20 8 1 [])
              eq_refl eq_refl eq_refl)
    as (n' & Hrun & _ & H & _).
  exists n'. split; [exact Hrun|].
  destruct (H (conj eq_refl eq_refl) eq_refl) as [_ ->]. reflexivity.
Defined.

(** A proxy whose peer is the event's proxy sends no reply, and what it
    stores for its own removal is an ObserveProxyAck, not an ObserveProxy. *)
Lemma C2_counterexample :
  exists n' r',
    OnObserveProxy 10
      {| proxy_node_name := 2; proxy_port_name := 20;
         proxy_to_node_name := 3; proxy_to_port_name := 30 |}
      (example_node [example_port kProxying 2 20 8 1 []] [(10%N, 0%nat)])
    = Done OK n' /\
    forwarded (delegate_ n') = [] /\
    objects n' !! 0%nat = Some r' /\
    send_on_proxy_removal r' =
      Some (2%N, Internal 20%N (kObserveProxyAck kInvalidSequenceNum)).
Proof.
  eexists. eexists. split; [reflexivity|]. split; [reflexivity|].
  split; reflexivity.
Qed.

(** ** Inversion of runs *)

Lemma bind_inv {A B} (f : A -> M B) (c : M A) n b n'' :
  (c ≫= f) n = Done b n'' ->
  exists a n', c n = Done a n' /\ f a n' = Done b n''.
Proof.
  rewrite bind_run. destruct (c n) as [a n'| |n']; [|discriminate..]. eauto.
Qed.

Lemma ret_inv {A} (a b : A) n n' : ret a n = Done b n' -> b = a /\ n' = n.
Proof. unfold ret. intros [= -> ->]. auto. Qed.

Lemma deref_inv p n r n' :
  deref p n = Done r n' -> objects n !! p = Some r /\ n' = n.
Proof.
  unfold deref. destruct (objects n !! p); [|discriminate].
  intros [= -> ->]. auto.
Qed.

Lemma update_inv p f n u n' :
  update p f n = Done u n' ->
  exists r, objects n !! p = Some r /\
            n' = set_objects (<[p := f r]> (objects n)) n.
Proof.
  unfold update. intros (r & n1 & [Hr ->]%deref_inv & H)%bind_inv.
  exists r. split; [exact Hr|]. unfold modify_node in H. congruence.
Qed.

Lemma lock_lock_inv q n u n' :
  lock_lock q n = Done u n' ->
  exists rq, objects n !! q = Some rq /\ lock rq = false /\
             n' = set_objects (<[q := set_lock true rq]> (objects n)) n.
Proof.
  unfold lock_lock. intros (rq & n1 & [Hq ->]%deref_inv & H)%bind_inv.
  destruct (lock rq) eqn:Hl; [discriminate|].
  apply update_inv in H as (rq' & Hq' & ->).
  exists rq. rewrite Hq in Hq'. injection Hq' as <-. auto.
Qed.

Lemma same_but_objects_refl n : same_but_objects n n.
Proof. repeat split. Qed.

Lemma same_but_objects_trans n1 n2 n3 :
  same_but_objects n1 n2 -> same_but_objects n2 n3 -> same_but_objects n1 n3.
Proof.
  unfold same_but_objects. intros (?&?&?&?&?&?&?&?) (?&?&?&?&?&?&?&?).
  repeat split; congruence.
Qed.

Lemma same_but_objects_set_objects o n : same_but_objects n (set_objects o n).
Proof. repeat split. Qed.

Lemma keeps_refl p n : keeps p n n.
Proof. split; [apply same_but_objects_refl|auto]. Qed.

Lemma keeps_trans p n1 n2 n3 : keeps p n1 n2 -> keeps p n2 n3 -> keeps p n1 n3.
Proof.
  intros (?&?&?) (?&?&?). split; [eapply same_but_objects_trans; eauto|].
  split; congruence.
Qed.

Lemma update_keeps p q f n u n' :
  q <> p -> update q f n = Done u n' -> keeps p n n'.
Proof.
  intros Hne (r & Hr & ->)%update_inv.
  split; [apply same_but_objects_set_objects|]. simpl.
  rewrite length_insert, list_lookup_insert_ne by exact Hne. auto.
Qed.

Lemma for_each_keeps {A} p (body : A -> M unit) (l : list A) n u n' :
  (forall x n u n', x ∈ l -> body x n = Done u n' -> keeps p n n') ->
  for_each body l n = Done u n' -> keeps p n n'.
Proof.
  revert n. induction l as [|x l IH]; intros n Hbody; cbn [for_each].
  - intros [_ ->]%ret_inv. apply keeps_refl.
  - intros (u1 & n1 & H1 & H2)%bind_inv.
    eapply keeps_trans.
    + eapply Hbody; [left|exact H1].
    + apply IH; [|exact H2]. intros. eapply Hbody; [right|]; eauto.
Qed.

Lemma GenerateRandomPortName_keeps p n x n' :
  GenerateRandomPortName n = Done x n' -> keeps p n n'.
Proof.
  unfold GenerateRandomPortName. intros [= <- <-].
  destruct n as [? [? ? ? ?] ? ? ? ? ?]. repeat split.
Qed.

Lemma WillSendPort_Locked_keeps p q to slot n slot' n' :
  q <> p -> WillSendPort_Locked q to slot n = Done slot' n' -> keeps p n n'.
Proof.
  intros Hne. unfold WillSendPort_Locked.
  intros (x & n1 & H1 & H)%bind_inv.
  apply bind_inv in H as (u & n2 & H2 & H).
  apply bind_inv in H as (r & n3 & [_ ->]%deref_inv & H).
  apply bind_inv in H as (nn & n4 & H4 & H).
  unfold get_node in H4. injection H4 as <- <-.
  apply bind_inv in H as (u' & n5 & H5 & [_ ->]%ret_inv).
  eapply keeps_trans; [eapply GenerateRandomPortName_keeps; eauto|].
  eapply keeps_trans; eapply update_keeps; eauto.
Qed.

Lemma send_ports_keeps p ps slots n slots' n' :
  Forall (fun q => q <> p) ps ->
  send_ports p ps slots n = Done slots' n' ->
  keeps p n n' /\ length slots' = Nat.min (length ps) (length slots).
Proof.
  intros Hps. revert slots n slots'.
  induction Hps as [|q ps Hq Hps IH]; intros slots n slots'.
  - simpl. intros [-> ->]%ret_inv. split; [apply keeps_refl|reflexivity].
  - destruct slots as [|slot slots]; cbn [send_ports].
    + intros [-> ->]%ret_inv. split; [apply keeps_refl|reflexivity].
    + intros (s & n1 & [_ ->]%deref_inv & H)%bind_inv.
      apply bind_inv in H as (slot' & n2 & H2 & H).
      apply bind_inv in H as (rest & n3 & H3 & [-> ->]%ret_inv).
      destruct (IH _ _ _ H3) as [Hk Hlen]. split.
      * eapply keeps_trans; [eapply WillSendPort_Locked_keeps; eauto|exact Hk].
      * simpl. rewrite Hlen. reflexivity.
Qed.

Lemma lock_ports_frame p r names i taken n res n' :
  objects n !! p = Some r ->
  lock r = true ->
  Forall (fun q => q <> p) taken ->
  lock_ports p names i taken n = Done res n' ->
  same_but_objects n n' /\
  length (objects n') = length (objects n) /\
  Forall (fun q => q <> p) res.2 /\
  (res.1 = OK -> length res.2 = (length taken + length names)%nat) /\
  objects n' !! p =
    Some (if decide (res.1 = OK) then r
          else set_next_sequence_num_to_send
                 (wrap64 (next_sequence_num_to_send r - 1)) r).
Proof.
  intros Hp Hl. revert i taken n res n' Hp.
  induction names as [|nm names IH]; intros i taken n res n' Hp Htaken;
    cbn [lock_ports].
  - intros [-> ->]%ret_inv. simpl.
    split; [apply same_but_objects_refl|]. repeat split; auto.
  - intros (q' & n1 & H1 & H)%bind_inv.
    unfold GetPort in H1.
    apply bind_inv in H1 as (nn & n0 & [= <- <-] & [-> ->]%ret_inv).
    apply bind_inv in H as (q & n2 & H2 & H).
    destruct (ports_ n !! nm) as [q0|]; [|discriminate].
    apply ret_inv in H2 as [-> ->].
    apply bind_inv in H as (u & n3 & (rq & Hq & Hlq & ->)%lock_lock_inv & H).
    assert (Hne : q0 <> p) by (intros ->; congruence).
    assert (Htaken' : Forall (fun q => q <> p) (taken ++ [q0]))
      by (apply Forall_app; auto).
    assert (Hk3 : keeps p n
              (set_objects (<[q0:=set_lock true rq]> (objects n)) n)).
    { split; [apply same_but_objects_set_objects|]. simpl.
      rewrite length_insert, list_lookup_insert_ne by exact Hne. auto. }
    apply bind_inv in H as (rq' & n4 & [_ ->]%deref_inv & H).
    apply bind_inv in H as (s & n5 & [Hs ->]%deref_inv & H).
    destruct Hk3 as (Hsame & Hlen & Hlook). rewrite Hlook, Hp in Hs.
    injection Hs as <-.
    match type of H with
    | (if decide (?e ≠ OK) then _ else _) _ = _ =>
        destruct (decide (e ≠ OK)) as [Herr|Hok]
    end.
    + apply bind_inv in H as (u1 & n6 & Hun & H).
      apply bind_inv in H as (u2 & n7 & Hup & [-> ->]%ret_inv).
      assert (Hk6 : keeps p
                (set_objects (<[q0:=set_lock true rq]> (objects n)) n) n6).
      { eapply for_each_keeps; [|exact Hun]. intros x m u0 m' _ Hx.
        unfold lock_unlock in Hx. eapply update_keeps; [exact Hne|exact Hx]. }
      destruct Hk6 as (Hsame6 & Hlen6 & Hlook6).
      apply update_inv in Hup as (s' & Hs' & ->).
      rewrite Hlook6, Hlook, Hp in Hs'. injection Hs' as <-. simpl.
      split; [|split; [|split; [|split]]].
      * eapply same_but_objects_trans; [exact Hsame|].
        eapply same_but_objects_trans; [exact Hsame6|].
        apply same_but_objects_set_objects.
      * rewrite length_insert. congruence.
      * exact Htaken'.
      * intros E. contradiction.
      * rewrite decide_False by exact Herr. eapply insert_lookup_same.
        rewrite Hlook6, Hlook. exact Hp.
    + destruct (IH _ _ _ _ _ ltac:(rewrite Hlook; exact Hp) Htaken' H)
        as (Hsame' & Hlen' & Hf & Hcount & Hlook').
      split; [eapply same_but_objects_trans; [exact Hsame|exact Hsame']|].
      split; [rewrite Hlen'; exact Hlen|]. split; [exact Hf|].
      split; [|exact Hlook'].
      intros E. rewrite (Hcount E), length_app. simpl. lia.
Qed.

Lemma set_next_sequence_num_to_send_id r :
  set_next_sequence_num_to_send (next_sequence_num_to_send r) r = r.
Proof. destruct r; reflexivity. Qed.

Lemma keeps_set_objects p q x n :
  q <> p -> keeps p n (set_objects (<[q := x]> (objects n)) n).
Proof.
  intros Hne. split; [apply same_but_objects_set_objects|]. simpl.
  rewrite length_insert, list_lookup_insert_ne by exact Hne. auto.
Qed.

Lemma WillSendMessage_Locked_frame p port_name m n r rv m' taken n' :
  objects n !! p = Some r ->
  lock r = true ->
  WillSendMessage_Locked p port_name m n = Done (rv, m', taken) n' ->
  same_but_objects n n' /\
  length (objects n') = length (objects n) /\
  objects n' !! p =
    Some (set_next_sequence_num_to_send (counter_after r m rv) r) /\
  sequence_num m' =
    (if decide (sequence_num m = 0)
     then next_sequence_num_to_send r else sequence_num m) /\
  um_payload m' = um_payload m /\
  (rv = OK ->
   um_port_name m' = peer_port_name r /\
   length (um_slots m') = length (um_slots m)) /\
  (um_slots m = [] -> rv = OK /\ m' = stamped r m).
Proof.
  intros Hp Hl. unfold WillSendMessage_Locked.
  intros (s & n0 & [Hs ->]%deref_inv & H)%bind_inv.
  rewrite Hp in Hs. injection Hs as <-.
  apply bind_inv in H as (m1 & n1 & Hstamp & H).
  (* the stamping step *)
  set (r1 := set_next_sequence_num_to_send
               (if decide (sequence_num m = 0)
                then wrap64 (next_sequence_num_to_send r + 1)
                else next_sequence_num_to_send r) r).
  assert (Hst : same_but_objects n n1 /\
                length (objects n1) = length (objects n) /\
                objects n1 !! p = Some r1 /\
                m1 = {| um_port_name := um_port_name m;
                        sequence_num :=
                          if decide (sequence_num m = 0)
                          then next_sequence_num_to_send r
                          else sequence_num m;
                        um_slots := um_slots m;
                        um_payload := um_payload m |}).
  { subst r1. destruct (decide (sequence_num m = 0)) as [Hz|Hnz].
    - apply bind_inv in Hstamp as (u & n2 & (r' & Hr' & ->)%update_inv
                                     & [-> ->]%ret_inv).
      rewrite Hp in Hr'. injection Hr' as <-.
      split; [apply same_but_objects_set_objects|]. simpl.
      rewrite length_insert. split; [reflexivity|].
      split; [eapply insert_lookup_same; eauto|reflexivity].
    - apply ret_inv in Hstamp as [-> ->].
      split; [apply same_but_objects_refl|]. split; [reflexivity|].
      rewrite set_next_sequence_num_to_send_id. split; [exact Hp|].
      destruct m; reflexivity. }
  destruct Hst as (Hsame1 & Hlen1 & Hp1 & Hm1).
  assert (Hl1 : lock r1 = true) by exact Hl.
  apply bind_inv in H as ([[error m2] taken2] & n2 & Hports & H).
  assert (Hpt : same_but_objects n1 n2 /\
                length (objects n2) = length (objects n1) /\
                objects n2 !! p =
                  Some (if decide (error = OK) then r1
                        else set_next_sequence_num_to_send
                               (wrap64 (next_sequence_num_to_send r1 - 1)) r1) /\
                sequence_num m2 = sequence_num m1 /\
                um_payload m2 = um_payload m1 /\
                um_port_name m2 = um_port_name m1 /\
                (error = OK -> length (um_slots m2) = length (um_slots m1)) /\
                (um_slots m1 = [] -> error = OK /\ m2 = m1)).
  { destruct (decide (0 < num_ports m1)%nat) as [Hn|Hn].
    - assert (Hne : um_slots m1 <> []).
      { intros E. unfold num_ports in Hn. rewrite E in Hn. simpl in Hn. lia. }
      apply bind_inv in Hports as ([err ps] & n3 & Hlock & Hports).
      destruct (lock_ports_frame _ _ _ _ _ _ _ _ Hp1 Hl1 (Forall_nil_2 _) Hlock)
        as (Hsame3 & Hlen3 & Hps & Hcount & Hp3).
      simpl in Hps, Hp3, Hcount.
      destruct (decide (err ≠ OK)) as [Herr|Hok].
      + apply ret_inv in Hports as [[= -> -> ->] ->].
        split; [exact Hsame3|]. split; [exact Hlen3|]. split; [exact Hp3|].
        split; [reflexivity|]. split; [reflexivity|]. split; [reflexivity|].
        split; [intros E; contradiction|]. intros E. contradiction.
      + assert (err = OK) as -> by (destruct (decide (err = OK)); tauto).
        apply bind_inv in Hports as (slots & n4 & Hsend & Hports).
        apply bind_inv in Hports
          as (u & n5 & Hunlock & [[= -> -> ->] ->]%ret_inv).
        destruct (send_ports_keeps _ _ _ _ _ _ Hps Hsend) as [Hk4 Hlen4].
        assert (Hk5 : keeps p n4 n5).
        { eapply for_each_keeps; [|exact Hunlock].
          intros q k u0 k' Hq Hx. unfold lock_unlock in Hx.
          eapply update_keeps; [|exact Hx].
          rewrite Forall_forall in Hps. apply Hps. exact Hq. }
        destruct Hk4 as (Hs4 & Hl4 & Hk4). destruct Hk5 as (Hs5 & Hl5 & Hk5).
        split; [eapply same_but_objects_trans;
                  [exact Hsame3|eapply same_but_objects_trans; eauto]|].
        split; [congruence|].
        split; [rewrite Hk5, Hk4; exact Hp3|].
        simpl. split; [reflexivity|]. split; [reflexivity|].
        split; [reflexivity|]. split; [|intros E; contradiction].
        intros _. rewrite Hlen4, (Hcount eq_refl). simpl.
        unfold ports. rewrite length_fmap. lia.
    - apply ret_inv in Hports as [[= -> -> ->] ->].
      split; [apply same_but_objects_refl|]. split; [reflexivity|].
      rewrite decide_True by reflexivity. auto 10. }
  destruct Hpt as (Hsame2 & Hlen2 & Hp2 & Hseq2 & Hpay2 & Hname2 & Hslots2 & Hnil2).
  assert (Hsame : same_but_objects n n2)
    by (eapply same_but_objects_trans; eauto).
  assert (Hslots1 : um_slots m1 = um_slots m) by (rewrite Hm1; reflexivity).
  destruct (decide (error ≠ OK)) as [Herr|Hok].
  - apply ret_inv in H as [[= -> -> ->] ->].
    split; [exact Hsame|]. split; [congruence|].
    split.
    { rewrite Hp2. rewrite decide_False by exact Herr. f_equal.
      unfold counter_after. rewrite decide_False by exact Herr.
      subst r1. destruct r; reflexivity. }
    split; [rewrite Hseq2, Hm1; reflexivity|].
    split; [rewrite Hpay2, Hm1; reflexivity|].
    split; [intros E; contradiction|].
    intros E. rewrite <- Hslots1 in E. destruct (Hnil2 E) as [-> _].
    contradiction.
  - assert (error = OK) as -> by (destruct (decide (error = OK)); tauto).
    apply bind_inv in H as (s & n3 & [Hs ->]%deref_inv & [[= -> -> ->] ->]%ret_inv).
    rewrite Hp2 in Hs. rewrite decide_True in Hs by reflexivity.
    injection Hs as <-.
    split; [exact Hsame|]. split; [congruence|].
    split.
    { rewrite Hp2. rewrite decide_True by reflexivity. f_equal. }
    simpl. split; [rewrite Hseq2, Hm1; reflexivity|].
    split; [rewrite Hpay2, Hm1; reflexivity|].
    split.
    { intros _. split; [reflexivity|]. rewrite (Hslots2 eq_refl). congruence. }
    intros E. split; [reflexivity|]. rewrite <- Hslots1 in E.
    destruct (Hnil2 E) as [_ ->]. rewrite Hm1. unfold stamped. simpl.
    reflexivity.
Qed.

Lemma same_but_objects_control n n' :
  same_but_objects n n' ->
  same_control n n' /\ forwarded (delegate_ n') = forwarded (delegate_ n).
Proof. intros (?&?&?&?&?&?&?&?). repeat split; assumption. Qed.

Lemma same_control_refl n : same_control n n.
Proof. repeat split. Qed.

Lemma same_control_trans n1 n2 n3 :
  same_control n1 n2 -> same_control n2 n3 -> same_control n1 n3.
Proof.
  unfold same_control. intros (?&?&?&?&?&?&?) (?&?&?&?&?&?&?).
  repeat split; congruence.
Qed.

Lemma ForwardMessage_inv to m n u n' :
  ForwardMessage to m n = Done u n' ->
  same_control n n' /\ objects n' = objects n /\
  forwarded (delegate_ n') = forwarded (delegate_ n) ++ [(to, m)].
Proof.
  unfold ForwardMessage, modify_node. intros [= <- <-].
  destruct n as [? [? ? ? ?] ? ? ? ? ?]. repeat split.
Qed.

Lemma GetNextMessageIf_null_Some q m q' :
  MessageQueue.GetNextMessageIf None q = (Some m, q') ->
  in_order (MessageQueue.next_sequence_num_ q) (MessageQueue.heap_ q) =
    m :: in_order (MessageQueue.next_sequence_num_ q') (MessageQueue.heap_ q') /\
  drained q = drained q' /\
  MessageQueue.heap_ q = m :: MessageQueue.heap_ q' /\
  MessageQueue.GetSequenceNum m = MessageQueue.next_sequence_num_ q.
Proof.
  unfold MessageQueue.GetNextMessageIf, drained.
  destruct (MessageQueue.heap_ q) as [|top rest] eqn:Hh; [discriminate|].
  cbn [in_order drain_heap].
  destruct (MessageQueue.GetSequenceNum top =? MessageQueue.next_sequence_num_ q)
    eqn:E; simpl; [|discriminate].
  intros [= <- <-]. simpl. apply Z.eqb_eq in E. auto.
Qed.

Lemma GetNextMessageIf_null_None q q' :
  MessageQueue.GetNextMessageIf None q = (None, q') ->
  q' = q /\
  in_order (MessageQueue.next_sequence_num_ q) (MessageQueue.heap_ q) = [] /\
  drained q = q.
Proof.
  unfold MessageQueue.GetNextMessageIf, drained.
  destruct (MessageQueue.heap_ q) as [|top rest] eqn:Hh.
  - intros [= <-]. simpl. destruct q; simpl in *; subst; auto.
  - cbn [in_order drain_heap].
    destruct (MessageQueue.GetSequenceNum top =? MessageQueue.next_sequence_num_ q)
      eqn:E; simpl; [discriminate|].
    intros [= <-]. destruct q; simpl in *; subst; auto.
Qed.

Lemma set_counter_queue_twice a x c q r :
  set_next_sequence_num_to_send a
    (set_message_queue x
       (set_next_sequence_num_to_send c (set_message_queue q r))) =
  set_next_sequence_num_to_send a (set_message_queue x r).
Proof. destruct r; reflexivity. Qed.

(** The loop of [ForwardMessages_Locked], when it returns OK: the queue is
    drained of its in-order messages, each of which was handed to the
    delegate for the port's peer, in order. *)
Lemma ForwardMessages_loop_OK fuel p port_name n r n' :
  objects n !! p = Some r ->
  lock r = true ->
  ForwardMessages_loop fuel p port_name n = Done OK n' ->
  exists counter sent,
    objects n' !! p =
      Some (set_next_sequence_num_to_send counter
              (set_message_queue (drained (message_queue r)) r)) /\
    same_control n n' /\
    length (objects n') = length (objects n) /\
    Forall2 (forwarded_as r)
      (in_order (MessageQueue.next_sequence_num_ (message_queue r))
                (MessageQueue.heap_ (message_queue r))) sent /\
    forwarded (delegate_ n') =
      forwarded (delegate_ n) ++ map (fun m => (peer_node_name r, kUser m)) sent /\
    (Forall (fun m => sequence_num m <> 0)
       (in_order (MessageQueue.next_sequence_num_ (message_queue r))
                 (MessageQueue.heap_ (message_queue r))) ->
     counter = next_sequence_num_to_send r).
Proof.
  revert n r. induction fuel as [|fuel IH]; intros n r Hp Hl;
    cbn [ForwardMessages_loop]; [discriminate|].
  intros (r0 & n0 & [Hr0 ->]%deref_inv & H)%bind_inv.
  rewrite Hp in Hr0. injection Hr0 as <-.
  destruct (MessageQueue.GetNextMessageIf None (message_queue r))
    as [[m|] q] eqn:Hget.
  - apply bind_inv in H as (u & n1 & (r0 & Hr0 & ->)%update_inv & H).
    rewrite Hp in Hr0. injection Hr0 as <-.
    apply bind_inv in H as ([[rv m'] taken] & n2 & Hwill & H).
    destruct (GetNextMessageIf_null_Some _ _ _ Hget) as (Hin & Hdr & _ & _).
    pose proof (WillSendMessage_Locked_frame p port_name m
                  (set_objects (<[p:=set_message_queue q r]> (objects n)) n)
                  (set_message_queue q r) rv m' taken n2
                  ltac:(simpl; eapply insert_lookup_same; eauto) Hl Hwill)
      as (Hsame2 & Hlen2 & Hp2 & Hseq & Hpay & Hok & _).
    destruct (decide (rv ≠ OK)) as [Herr|Hrv].
    { apply ret_inv in H as [E _]. congruence. }
    assert (rv = OK) as -> by (destruct (decide (rv = OK)); tauto).
    destruct (Hok eq_refl) as [Hname Hslots].
    apply bind_inv in H as (r2 & n3 & [Hr2 ->]%deref_inv & H).
    rewrite Hp2 in Hr2. injection Hr2 as <-.
    apply bind_inv in H as (u2 & n4 & Hfwd & H).
    apply ForwardMessage_inv in Hfwd as (Hc4 & Ho4 & Hf4).
    destruct (IH n4 _ ltac:(rewrite Ho4; exact Hp2) Hl H)
      as (counter & sent & Hp' & Hc' & Hlen' & Hsent & Hf' & Hcount).
    cbn [message_queue set_next_sequence_num_to_send set_message_queue
         peer_node_name peer_port_name next_sequence_num_to_send] in *.
    exists counter, (m' :: sent).
    apply same_but_objects_control in Hsame2 as [Hc2 Hf2].
    split; [rewrite Hp', Hdr; destruct r; reflexivity|].
    split.
    { eapply same_control_trans; [|exact Hc'].
      eapply same_control_trans; [|exact Hc4].
      eapply same_control_trans; [|exact Hc2]. repeat split. }
    split; [rewrite Hlen', Ho4, Hlen2; simpl; apply length_insert|].
    split.
    { rewrite Hin. constructor.
      - repeat split; auto. intros Hnz. rewrite Hseq.
        rewrite decide_False by exact Hnz. reflexivity.
      - clear -Hsent. induction Hsent; constructor; auto. }
    split.
    { rewrite Hf', Hf4, Hf2. simpl. rewrite <- app_assoc. reflexivity. }
    rewrite Hin. intros Hall. inversion Hall as [|? ? Hnz Hrest]; subst.
    rewrite (Hcount Hrest). unfold counter_after.
    rewrite decide_True by reflexivity.
    destruct (decide (sequence_num m = 0)); [contradiction|reflexivity].
  - apply bind_inv in H as (u & n1 & (r0 & Hr0 & ->)%update_inv & H).
    rewrite Hp in Hr0. injection Hr0 as <-.
    apply ret_inv in H as [_ ->].
    destruct (GetNextMessageIf_null_None _ _ Hget) as (-> & Hin & Hdr).
    exists (next_sequence_num_to_send r), [].
    split; [simpl; rewrite Hdr; erewrite insert_lookup_same by eauto;
            destruct r; reflexivity|].
    split; [repeat split|]. split; [simpl; apply length_insert|].
    rewrite Hin. split; [constructor|]. split; [simpl; rewrite app_nil_r; reflexivity|].
    reflexivity.
Qed.

(** The fuel of [ForwardMessages_Locked] is never what stops the loop: once
    it exceeds the length of the heap, more fuel changes nothing. *)
Lemma ForwardMessages_loop_fuel fuel p port_name n r :
  objects n !! p = Some r ->
  lock r = true ->
  (length (MessageQueue.heap_ (message_queue r)) < fuel)%nat ->
  ForwardMessages_loop fuel p port_name n =
  ForwardMessages_loop (S fuel) p port_name n.
Proof.
  revert n r. induction fuel as [|fuel IH]; intros n r Hp Hl Hlen; [lia|].
  remember (S fuel) as fuel' eqn:Hfuel.
  cbn [ForwardMessages_loop]. rewrite Hfuel at 1. cbn [ForwardMessages_loop].
  rewrite !bind_run, (deref_run _ _ _ Hp). cbv beta iota.
  destruct (MessageQueue.GetNextMessageIf None (message_queue r))
    as [[m|] q] eqn:Hget; [|reflexivity].
  rewrite !bind_run, (update_run _ _ _ _ Hp). cbv beta iota.
  rewrite !bind_run.
  destruct (WillSendMessage_Locked p port_name m _)
    as [[[rv m'] taken] n2| |n2] eqn:Hwill; [|reflexivity..].
  cbv beta iota.
  destruct (decide (rv ≠ OK)) as [Herr|Hok]; [reflexivity|].
  assert (rv = OK) as -> by (destruct (decide (rv = OK)); tauto).
  pose proof (WillSendMessage_Locked_frame p port_name m
                (set_objects (<[p:=set_message_queue q r]> (objects n)) n)
                (set_message_queue q r) OK m' taken n2
                ltac:(simpl; eapply insert_lookup_same; eauto) Hl Hwill)
    as (_ & _ & Hp2 & _).
  rewrite !bind_run, (deref_run _ _ _ Hp2). cbv beta iota.
  rewrite !bind_run. unfold ForwardMessage, modify_node.
  cbv beta iota. subst fuel'.
  destruct (GetNextMessageIf_null_Some _ _ _ Hget) as (_ & _ & Hh & _).
  eapply IH.
  - simpl. exact Hp2.
  - exact Hl.
  - simpl. rewrite Hh in Hlen. simpl in Hlen. lia.
Qed.

Lemma WillSendMessage_Locked_no_ports p port_name m n r :
  objects n !! p = Some r ->
  um_slots m = [] ->
  WillSendMessage_Locked p port_name m n =
  Done (OK, stamped r m, [])
       (set_objects
          (<[p := set_next_sequence_num_to_send (counter_after r m OK) r]>
             (objects n)) n).
Proof.
  intros Hp Hs. destruct m as [mp ms msl mpl]. simpl in Hs. subst msl.
  open_node n. open_port r. simpl in Hp.
  unfold WillSendMessage_Locked, counter_after, stamped, num_ports.
  cbn [sequence_num um_slots um_port_name um_payload length].
  mrun. destruct (decide (ms = 0)) as [->|Hnz].
  - mrun. cbn [sequence_num um_slots um_port_name um_payload length].
    rewrite decide_False by lia. mrun. reflexivity.
  - mrun. cbn [sequence_num um_slots um_port_name um_payload length].
    rewrite decide_False by lia. mrun.
    rewrite list_insert_id by exact Hp. reflexivity.
Qed.


Lemma sequence_num_nonzero m :
  MessageQueue.GetSequenceNum m <> 0 -> sequence_num m <> 0.
Proof. unfold MessageQueue.GetSequenceNum. intros H E. rewrite E in H. auto. Qed.

Lemma in_order_nonzero cursor h :
  0 < cursor ->
  cursor + Z.of_nat (length h) <= 2 ^ 32 ->
  Forall (fun m => sequence_num m <> 0) (in_order cursor h).
Proof.
  revert cursor. induction h as [|top rest IH]; intros cursor Hc Hb;
    cbn [in_order]; [constructor|].
  destruct (MessageQueue.GetSequenceNum top =? cursor) eqn:E; [|constructor].
  apply Z.eqb_eq in E. constructor.
  - apply sequence_num_nonzero. lia.
  - destruct rest as [|x rest']; [constructor|].
    simpl length in Hb. rewrite wrap32_small by lia. apply IH; simpl length; lia.
Qed.

(** ** Sending without ports, and with ports that can be taken *)

Lemma stamped_all_ext ms :
  forall r r',
    peer_port_name r' = peer_port_name r ->
    next_sequence_num_to_send r' = next_sequence_num_to_send r ->
    stamped_all r' ms = stamped_all r ms.
Proof.
  induction ms as [|m ms IH]; intros r r' Hpp Hns; cbn [stamped_all].
  - rewrite Hns. reflexivity.
  - assert (Hs : stamped r' m = stamped r m)
      by (unfold stamped; rewrite Hpp, Hns; reflexivity).
    assert (Hc : counter_after r' m OK = counter_after r m OK)
      by (unfold counter_after; rewrite Hns; reflexivity).
    rewrite Hs, Hc.
    rewrite (IH (set_next_sequence_num_to_send (counter_after r m OK) r)
                (set_next_sequence_num_to_send (counter_after r m OK) r'));
      [reflexivity| |reflexivity].
    destruct r, r'; simpl in *; congruence.
Qed.

Lemma stamped_all_nonzero ms :
  forall r,
    Forall (fun m => sequence_num m <> 0) ms ->
    stamped_all r ms =
    (readdressed (peer_port_name r) <$> ms, next_sequence_num_to_send r).
Proof.
  induction ms as [|m ms IH]; intros r Hall; cbn [stamped_all];
    [reflexivity|].
  inversion Hall as [|? ? Hm Hrest]; subst.
  assert (Hc : counter_after r m OK = next_sequence_num_to_send r).
  { unfold counter_after.
    rewrite (decide_False (P := sequence_num m = 0)) by exact Hm.
    rewrite decide_True by reflexivity. reflexivity. }
  rewrite Hc, set_next_sequence_num_to_send_id, (IH r Hrest).
  cbn [fmap list_fmap]. unfold stamped, readdressed.
  rewrite decide_False by exact Hm. reflexivity.
Qed.

(** The loop of [ForwardMessages_Locked] over queued messages that carry no
    ports: it returns OK, the in-order ones are handed to the delegate
    readdressed to the peer, those numbered 0 stamped from the port's
    counter, and the queue is left drained. *)
Lemma ForwardMessages_loop_stamps fuel p port_name n r :
  objects n !! p = Some r ->
  Forall (fun m => um_slots m = []) (MessageQueue.heap_ (message_queue r)) ->
  (length (MessageQueue.heap_ (message_queue r)) < fuel)%nat ->
  let ms := in_order (MessageQueue.next_sequence_num_ (message_queue r))
                     (MessageQueue.heap_ (message_queue r)) in
  ForwardMessages_loop fuel p port_name n =
  Done OK
    (set_delegate
       {| forwarded :=
            forwarded (delegate_ n) ++
            map (fun m => (peer_node_name r, kUser m)) (stamped_all r ms).1;
          status_changed := status_changed (delegate_ n);
          name_source := name_source (delegate_ n);
          names_generated := names_generated (delegate_ n) |}
       (set_objects
          (<[p := set_next_sequence_num_to_send (stamped_all r ms).2
                    (set_message_queue (drained (message_queue r)) r)]>
             (objects n)) n)).
Proof.
  cbv zeta.
  revert n r. induction fuel as [|fuel IH]; intros n r Hp Hall Hlen; [lia|].
  cbn [ForwardMessages_loop]. rewrite bind_run, (deref_run _ _ _ Hp).
  cbv beta iota.
  destruct (MessageQueue.GetNextMessageIf None (message_queue r))
    as [[m|] q] eqn:Hget.
  - destruct (GetNextMessageIf_null_Some _ _ _ Hget) as (Hin & Hdr & Hh & _).
    rewrite Hh in Hall, Hlen. inversion Hall as [|? ? Hm Hrest]; subst.
    rewrite bind_run, (update_run _ _ _ _ Hp). cbv beta iota.
    rewrite bind_run.
    rewrite (WillSendMessage_Locked_no_ports _ _ _ _ (set_message_queue q r))
      by (simpl; eauto using insert_lookup_same).
    cbv beta iota. rewrite decide_False by auto.
    rewrite bind_run. erewrite deref_run by lookup_solve. cbv beta iota.
    rewrite bind_run. unfold ForwardMessage at 1, modify_node. cbv beta iota.
    rewrite (IH _ (set_next_sequence_num_to_send
                     (counter_after (set_message_queue q r) m OK)
                     (set_message_queue q r))).
    + rewrite Hin, Hdr. cbn [stamped_all].
      rewrite (stamped_all_ext _
                 (set_next_sequence_num_to_send (counter_after r m OK) r)
                 (set_next_sequence_num_to_send
                    (counter_after (set_message_queue q r) m OK)
                    (set_message_queue q r)))
        by (destruct r; reflexivity).
      destruct (stamped_all _ _) as [out counter].
      open_node n. proj_simpl.
      rewrite !list_insert_insert_eq. cbn [map]. rewrite <- app_assoc.
      open_port r. reflexivity.
    + proj_simpl. eapply insert_lookup_same. eapply insert_lookup_same. eauto.
    + exact Hrest.
    + simpl in *. lia.
  - rewrite bind_run, (update_run _ _ _ _ Hp). cbv beta iota.
    destruct (GetNextMessageIf_null_None _ _ Hget) as (-> & Hin & Hdr).
    rewrite Hin, Hdr. cbn [stamped_all map fst snd]. rewrite app_nil_r.
    unfold ret. open_node n. open_port r. reflexivity.
Qed.

Lemma bind_ret_l {A B} (a : A) (f : A -> M B) n : (ret a ≫= f) n = f a n.
Proof. reflexivity. Qed.

Lemma GetPort_bind {B} port_name (f : option PortPtr -> M B) n :
  (GetPort port_name ≫= f) n = f (ports_ n !! port_name) n.
Proof. reflexivity. Qed.

Lemma lock_lock_run q n rq :
  objects n !! q = Some rq ->
  lock rq = false ->
  lock_lock q n = Done tt (set_objects (<[q := set_lock true rq]> (objects n)) n).
Proof.
  intros Hq Hl. unfold lock_lock.
  rewrite bind_run, (deref_run _ _ _ Hq). cbv beta iota. rewrite Hl.
  apply update_run. exact Hq.
Qed.

Lemma update_total q f n :
  (q < length (objects n))%nat ->
  exists n',
    update q f n = Done tt n' /\
    length (objects n') = length (objects n) /\
    ports_ n' = ports_ n.
Proof.
  intros Hq. apply lookup_lt_is_Some_2 in Hq as [rq Hrq].
  eexists. split; [apply (update_run _ _ _ _ Hrq)|]. simpl.
  rewrite length_insert. auto.
Qed.

Lemma for_each_update_total {A} (g : A -> PortPtr) f (l : list A) :
  forall n,
    Forall (fun x => (g x < length (objects n))%nat) l ->
    exists n',
      for_each (fun x => update (g x) f) l n = Done tt n' /\
      length (objects n') = length (objects n) /\
      ports_ n' = ports_ n.
Proof.
  induction l as [|x l IH]; intros n Hall; cbn [for_each].
  - exists n. auto.
  - inversion Hall as [|? ? Hx Hl]; subst.
    destruct (update_total (g x) f n Hx) as (n1 & H1 & Hlen1 & Hports1).
    destruct (IH n1) as (n2 & H2 & Hlen2 & Hports2).
    { rewrite Hlen1. exact Hl. }
    exists n2. rewrite bind_run, H1. cbv beta iota.
    split; [exact H2|]. split; congruence.
Qed.

Lemma WillSendPort_Locked_total q to slot n :
  (q < length (objects n))%nat ->
  exists slot' n',
    WillSendPort_Locked q to slot n = Done slot' n' /\
    length (objects n') = length (objects n) /\
    ports_ n' = ports_ n.
Proof.
  intros Hq. apply lookup_lt_is_Some_2 in Hq as [rq Hrq].
  open_node n. simpl in Hrq.
  unfold WillSendPort_Locked, GenerateRandomPortName. mrun.
  eexists. eexists. split; [reflexivity|]. simpl.
  rewrite length_insert. auto.
Qed.

Lemma send_ports_total p qs :
  forall slots n,
    (p < length (objects n))%nat ->
    Forall (fun q => (q < length (objects n))%nat) qs ->
    exists slots' n',
      send_ports p qs slots n = Done slots' n' /\
      length (objects n') = length (objects n) /\
      ports_ n' = ports_ n.
Proof.
  induction qs as [|q qs IH]; intros slots n Hp Hall.
  - exists [], n. auto.
  - destruct slots as [|slot slots]; [exists [], n; auto|].
    inversion Hall as [|? ? Hq Hqs]; subst.
    cbn [send_ports].
    destruct (lookup_lt_is_Some_2 _ _ Hp) as [s Hs].
    rewrite bind_run, (deref_run _ _ _ Hs). cbv beta iota.
    destruct (WillSendPort_Locked_total q (peer_node_name s) slot n Hq)
      as (slot' & n1 & H1 & Hlen1 & Hports1).
    destruct (IH slots n1) as (rest & n2 & H2 & Hlen2 & Hports2).
    { rewrite Hlen1. exact Hp. }
    { rewrite Hlen1. exact Hqs. }
    exists (slot' :: rest), n2.
    rewrite bind_run, H1. cbv beta iota. rewrite bind_run, H2.
    split; [reflexivity|]. split; congruence.
Qed.

(** The first loop of [WillSendMessage_Locked] returns when the names it
    looks up are those of different records, none of them the sender's and
    none locked; when it returns OK it has taken them all. *)
Lemma lock_ports_total p names :
  forall qs i taken n,
    (p < length (objects n))%nat ->
    Forall2 (fun nm q => ports_ n !! nm = Some q) names qs ->
    NoDup qs ->
    Forall (fun q => q <> p /\
                     exists rq, objects n !! q = Some rq /\ lock rq = false)
           qs ->
    exists rv res n',
      lock_ports p names i taken n = Done (rv, res) n' /\
      length (objects n') = length (objects n) /\
      ports_ n' = ports_ n /\
      (rv = OK -> res = taken ++ qs).
Proof.
  induction names as [|nm names IH]; intros qs i taken n Hp HF Hnd Hall.
  - inversion HF; subst. exists OK, taken, n. rewrite app_nil_r. auto.
  - inversion HF as [|? q0 ? qs' Hnm HF']; subst.
    inversion Hall as [|? ? (Hne & rq & Hrq & Hl) Hall']; subst.
    apply NoDup_cons in Hnd as [Hnotin Hnd'].
    destruct (lookup_lt_is_Some_2 _ _ Hp) as [s Hs].
    set (n1 := set_objects (<[q0 := set_lock true rq]> (objects n)) n).
    assert (Hs1 : objects n1 !! p = Some s)
      by (simpl; rewrite list_lookup_insert_ne by exact Hne; exact Hs).
    assert (Hq1 : objects n1 !! q0 = Some (set_lock true rq))
      by (simpl; eapply insert_lookup_same; exact Hrq).
    assert (Hlen1 : length (objects n1) = length (objects n))
      by (simpl; apply length_insert).
    assert (Hhead :
      lock_ports p (nm :: names) i taken n =
      (let error :=
         if decide (state (set_lock true rq) ≠ kReceiving)
         then ERROR_PORT_STATE_UNEXPECTED
         else if decide (nm = peer_port_name s)
              then ERROR_PORT_CANNOT_SEND_PEER else OK in
       if decide (error ≠ OK) then
         for_each (fun _ : nat => lock_unlock q0) (seq 0 (S i));;
         update p (fun s =>
           set_next_sequence_num_to_send
             (wrap64 (next_sequence_num_to_send s - 1)) s);;
         ret (error, taken ++ [q0])
       else lock_ports p names (S i) (taken ++ [q0])) n1).
    { cbn [lock_ports]. rewrite GetPort_bind, Hnm. cbn [nonnull].
      rewrite bind_ret_l, bind_run, (lock_lock_run _ _ _ Hrq Hl).
      cbv beta iota. fold n1.
      rewrite bind_run, (deref_run _ _ _ Hq1). cbv beta iota.
      rewrite bind_run, (deref_run _ _ _ Hs1). cbv beta iota.
      reflexivity. }
    rewrite Hhead. cbv zeta.
    match goal with
    | |- context [decide (?e ≠ OK)] => destruct (decide (e ≠ OK)) as [Herr|Hok]
    end.
    + destruct (for_each_update_total (fun _ : nat => q0) (set_lock false)
                  (seq 0 (S i)) n1) as (n2 & H2 & Hlen2 & Hports2).
      { apply Forall_forall. intros _ _. rewrite Hlen1.
        eapply lookup_lt_Some. exact Hrq. }
      destruct (update_total p
                  (fun s => set_next_sequence_num_to_send
                              (wrap64 (next_sequence_num_to_send s - 1)) s)
                  n2) as (n3 & H3 & Hlen3 & Hports3).
      { rewrite Hlen2, Hlen1. exact Hp. }
      eexists. eexists. exists n3.
      rewrite bind_run. unfold lock_unlock. rewrite H2. cbv beta iota.
      rewrite bind_run, H3. cbv beta iota.
      split; [reflexivity|].
      split; [congruence|]. split; [rewrite Hports3, Hports2; reflexivity|].
      intros E. contradiction.
    + destruct (IH qs' (S i) (taken ++ [q0]) n1)
        as (rv & res & n' & Hrun & Hlen & Hports & Hres).
      * rewrite Hlen1. exact Hp.
      * exact HF'.
      * exact Hnd'.
      * apply Forall_forall. intros q Hin.
        destruct (proj1 (Forall_forall _ _) Hall' q Hin)
          as (Hqp & rq' & Hrq' & Hl').
        split; [exact Hqp|]. exists rq'. split; [|exact Hl']. simpl.
        rewrite list_lookup_insert_ne; [exact Hrq'|].
        intros ->. contradiction.
      * exists rv, res, n'. split; [exact Hrun|].
        split; [congruence|]. split; [exact Hports|].
        intros E. rewrite (Hres E), <- app_assoc. reflexivity.
Qed.

(** [WillSendMessage_Locked] returns when the ports the message carries are
    registered, different records, none of them the sender's and none
    locked. *)
Lemma WillSendMessage_Locked_total p port_name m n r qs :
  objects n !! p = Some r ->
  Forall2 (fun nm q => ports_ n !! nm = Some q) (ports m) qs ->
  NoDup qs ->
  Forall (fun q => q <> p /\
                   exists rq, objects n !! q = Some rq /\ lock rq = false)
         qs ->
  exists rv m' taken n',
    WillSendMessage_Locked p port_name m n = Done (rv, m', taken) n'.
Proof.
  intros Hp HF Hnd Hall. unfold WillSendMessage_Locked.
  rewrite bind_run, (deref_run _ _ _ Hp). cbv beta iota.
  assert (Hstamp : exists m1 n1,
    (if decide (sequence_num m = 0) then
       update p (set_next_sequence_num_to_send
                   (wrap64 (next_sequence_num_to_send r + 1)));;
       ret {| um_port_name := um_port_name m;
               sequence_num := next_sequence_num_to_send r;
               um_slots := um_slots m;
               um_payload := um_payload m |}
     else ret m) n = Done m1 n1 /\
    um_slots m1 = um_slots m /\
    length (objects n1) = length (objects n) /\
    ports_ n1 = ports_ n /\
    forall q, q <> p -> objects n1 !! q = objects n !! q).
  { destruct (decide (sequence_num m = 0)).
    - eexists. eexists. rewrite bind_run, (update_run _ _ _ _ Hp).
      cbv beta iota. split; [reflexivity|]. simpl.
      rewrite length_insert. repeat split.
      intros q Hq. apply list_lookup_insert_ne. congruence.
    - exists m, n. repeat split. }
  destruct Hstamp as (m1 & n1 & Hrun1 & Hslots & Hlen1 & Hports1 & Hother).
  rewrite bind_run, Hrun1. cbv beta iota.
  assert (Hp1 : (p < length (objects n1))%nat)
    by (rewrite Hlen1; eapply lookup_lt_Some; exact Hp).
  rewrite bind_run.
  destruct (decide (0 < num_ports m1)%nat) as [Hsome|Hnone].
  - destruct (lock_ports_total p (ports m1) qs 0 [] n1)
      as (rv & res & n2 & Hrun2 & Hlen2 & Hports2 & Hres).
    + exact Hp1.
    + unfold ports. rewrite Hslots, Hports1. exact HF.
    + exact Hnd.
    + eapply Forall_impl; [exact Hall|].
      intros q (Hqp & rq & Hrq & Hl). split; [exact Hqp|].
      exists rq. rewrite (Hother q Hqp). auto.
    + rewrite bind_run, Hrun2. cbv beta iota.
      destruct (decide (rv ≠ OK)) as [Herr|Hok].
      * unfold ret at 1. cbv beta iota. rewrite decide_True by exact Herr.
        eexists. eexists. eexists. eexists. reflexivity.
      * assert (rv = OK) as -> by (destruct (decide (rv = OK)); tauto).
        rewrite (Hres eq_refl). cbn [app].
        assert (Hvalid : Forall (fun q => (q < length (objects n2))%nat) qs).
        { eapply Forall_impl; [exact Hall|].
          intros q (Hqp & rq & Hrq & _). rewrite Hlen2, Hlen1.
          eapply lookup_lt_Some. exact Hrq. }
        destruct (send_ports_total p qs (um_slots m1) n2)
          as (slots' & n3 & Hrun3 & Hlen3 & Hports3).
        { rewrite Hlen2. exact Hp1. }
        { exact Hvalid. }
        destruct (for_each_update_total (fun q : PortPtr => q)
                    (set_lock false) qs n3)
          as (n4 & Hrun4 & Hlen4 & Hports4).
        { rewrite Hlen3. exact Hvalid. }
        destruct (lookup_lt_is_Some_2 (objects n4) p) as [s4 Hs4].
        { rewrite Hlen4, Hlen3, Hlen2. exact Hp1. }
        rewrite bind_run, Hrun3. cbv beta iota.
        rewrite bind_run.
        change (for_each lock_unlock qs n3)
          with (for_each (fun q : PortPtr => update q (set_lock false)) qs n3).
        rewrite Hrun4. cbv beta iota. unfold ret at 1. cbv beta iota.
        rewrite decide_False by auto.
        rewrite bind_run, (deref_run _ _ _ Hs4). cbv beta iota.
        eexists. eexists. eexists. eexists. reflexivity.
  - unfold ret at 1. cbv beta iota. rewrite decide_False by auto.
    destruct (lookup_lt_is_Some_2 (objects n1) p Hp1) as [s1 Hs1].
    rewrite bind_run, (deref_run _ _ _ Hs1). cbv beta iota.
    eexists. eexists. eexists. eexists. reflexivity.
Qed.

(** ** WillSendMessage and forwarding: sequence numbers *)

(** A port arrives in a message with its cursor at 0, receives a message
    numbered 0, is sent on in a message and is told that it was accepted:
    as a proxy it forwards the message under its own counter's value, 7,
    and its counter moves on to 8. *)
Lemma proxy_restamps_arises :
  let d := {| pd_peer_node_name := 3%N; pd_peer_port_name := 31%N;
              pd_referring_node_name := 2%N; pd_referring_port_name := 21%N;
              pd_next_sequence_num_to_send := 7;
              pd_next_sequence_num_to_receive := 0 |} in
  let n := example_node [example_port kReceiving 2 20 1 1 []]
                        [(10%N, 0%nat)] in
  exists n1 n2 n3 n4 r4,
    AcceptMessage (kUser (example_message 10 1 [(30%N, d)])) n = Done OK n1 /\
    AcceptMessage (kUser (example_message 30 0 [])) n1 = Done OK n2 /\
    SendMessage {| name := 10%N; port := 0%nat |}
      (example_message 0 0 [(30%N, empty_descriptor)]) n2 = Done OK n3 /\
    AcceptMessage (Internal 30%N kPortAccepted) n3 = Done OK n4 /\
    forwarded (delegate_ n4) !! 2%nat =
      Some (2%N, kUser (example_message 1000 7 [])) /\
    objects n4 !! 1%nat = Some r4 /\
    state r4 = kProxying /\
    next_sequence_num_to_send r4 = 8.
Proof.
  cbv zeta. eexists. eexists. eexists. eexists. eexists.
  split; [vm_compute; reflexivity|].
  split; [vm_compute; reflexivity|].
  split; [vm_compute; reflexivity|].
  split; [vm_compute; reflexivity|].
  split; [reflexivity|]. split; [reflexivity|]. split; reflexivity.
Qed.

(** C10 (amended). A message that already carries a nonzero sequence number
    leaves [WillSendMessage_Locked] with that number, and the sending port's
    [next_sequence_num_to_send] is not incremented (it is unchanged when the
    call returns OK); a message whose [sequence_num] is 0 is stamped with the
    port's [next_sequence_num_to_send], which is then incremented by one.
    The call does return when the ports the message carries can be taken,
    and returns OK when it carries none.  A proxy's queue hands out a
    message numbered 0 only when its cursor is at 0, so
    [ForwardMessages_Locked] forwards the messages that are not numbered 0
    with their numbers, leaving the proxy's counter alone when there are no
    others, and forwards one numbered 0 stamped like any message numbered 0.
    It does return OK, with each message [stamped] in turn, when the queued
    messages carry no ports. *)
Theorem C10_sequence_numbers (p : PortPtr) (port_name : PortName) (n : Node)
    (r : Port) :
  objects n !! p = Some r ->
  lock r = true ->
  (forall m rv m' taken n',
     WillSendMessage_Locked p port_name m n = Done (rv, m', taken) n' ->
     exists r',
       objects n' !! p = Some r' /\
       (sequence_num m <> 0 ->
        sequence_num m' = sequence_num m /\
        (rv = OK ->
         next_sequence_num_to_send r' = next_sequence_num_to_send r) /\
        (rv <> OK ->
         next_sequence_num_to_send r' =
           wrap64 (next_sequence_num_to_send r - 1))) /\
       (sequence_num m = 0 ->
        sequence_num m' = next_sequence_num_to_send r /\
        (rv = OK ->
         next_sequence_num_to_send r' =
           wrap64 (next_sequence_num_to_send r + 1)))) /\
  (forall m qs,
     Forall2 (fun port_name_i q => ports_ n !! port_name_i = Some q)
             (ports m) qs ->
     NoDup qs ->
     Forall (fun q => q <> p /\
                      exists rq, objects n !! q = Some rq /\ lock rq = false)
            qs ->
     exists rv m' taken n' r',
       WillSendMessage_Locked p port_name m n = Done (rv, m', taken) n' /\
       objects n' !! p = Some r' /\
       (um_slots m = [] -> rv = OK) /\
       (sequence_num m <> 0 ->
        sequence_num m' = sequence_num m /\
        (rv = OK ->
         next_sequence_num_to_send r' = next_sequence_num_to_send r)) /\
       (sequence_num m = 0 ->
        sequence_num m' = next_sequence_num_to_send r /\
        (rv = OK ->
         next_sequence_num_to_send r' =
           wrap64 (next_sequence_num_to_send r + 1)))) /\
  (forall q m q',
     MessageQueue.GetNextMessageIf None q = (Some m, q') ->
     (MessageQueue.next_sequence_num_ q <> 0 -> sequence_num m <> 0) /\
     (sequence_num m = 0 -> MessageQueue.next_sequence_num_ q = 0)) /\
  (0 < MessageQueue.next_sequence_num_ (message_queue r) ->
   MessageQueue.next_sequence_num_ (message_queue r) +
     Z.of_nat (length (MessageQueue.heap_ (message_queue r))) <= 2 ^ 32 ->
   Forall (fun m => sequence_num m <> 0)
     (in_order (MessageQueue.next_sequence_num_ (message_queue r))
               (MessageQueue.heap_ (message_queue r)))) /\
  (forall n',
     ForwardMessages_Locked p port_name n = Done OK n' ->
     let ms := in_order (MessageQueue.next_sequence_num_ (message_queue r))
                        (MessageQueue.heap_ (message_queue r)) in
     exists r' sent,
       objects n' !! p = Some r' /\
       forwarded (delegate_ n') =
         forwarded (delegate_ n) ++
         map (fun m => (peer_node_name r, kUser m)) sent /\
       Forall2 (forwarded_as r) ms sent /\
       (Forall (fun m => sequence_num m <> 0) ms ->
        map sequence_num sent = map sequence_num ms /\
        next_sequence_num_to_send r' = next_sequence_num_to_send r)) /\
  (Forall (fun m => um_slots m = []) (MessageQueue.heap_ (message_queue r)) ->
   let ms := in_order (MessageQueue.next_sequence_num_ (message_queue r))
                      (MessageQueue.heap_ (message_queue r)) in
   exists n',
     ForwardMessages_Locked p port_name n = Done OK n' /\
     objects n' !! p =
       Some (set_next_sequence_num_to_send (stamped_all r ms).2
               (set_message_queue (drained (message_queue r)) r)) /\
     forwarded (delegate_ n') =
       forwarded (delegate_ n) ++
       map (fun m => (peer_node_name r, kUser m)) (stamped_all r ms).1 /\
     (Forall (fun m => sequence_num m <> 0) ms ->
      (stamped_all r ms).1 = readdressed (peer_port_name r) <$> ms /\
      (stamped_all r ms).2 = next_sequence_num_to_send r)).
Proof.
  intros Hp Hl.
  assert (Hfacts : forall m rv m' taken n',
    WillSendMessage_Locked p port_name m n = Done (rv, m', taken) n' ->
    exists r',
      objects n' !! p = Some r' /\
      (um_slots m = [] -> rv = OK) /\
      (sequence_num m <> 0 ->
       sequence_num m' = sequence_num m /\
       (rv = OK ->
        next_sequence_num_to_send r' = next_sequence_num_to_send r) /\
       (rv <> OK ->
        next_sequence_num_to_send r' =
          wrap64 (next_sequence_num_to_send r - 1))) /\
      (sequence_num m = 0 ->
       sequence_num m' = next_sequence_num_to_send r /\
       (rv = OK ->
        next_sequence_num_to_send r' =
          wrap64 (next_sequence_num_to_send r + 1)))).
  { intros m rv m' taken n' Hrun.
    destruct (WillSendMessage_Locked_frame _ _ _ _ _ _ _ _ _ Hp Hl Hrun)
      as (_ & _ & Hp' & Hseq & _ & _ & Hnone).
    eexists. split; [exact Hp'|]. unfold counter_after. simpl.
    split; [intros Hs; apply Hnone, Hs|]. split.
    - intros Hnz. rewrite decide_False in Hseq by exact Hnz.
      destruct (decide (sequence_num m = 0)); [contradiction|].
      split; [exact Hseq|]. split; intros Hrv.
      + rewrite decide_True by exact Hrv. reflexivity.
      + rewrite decide_False by exact Hrv. reflexivity.
    - intros Hz. rewrite decide_True in Hseq by exact Hz.
      destruct (decide (sequence_num m = 0)); [|contradiction].
      split; [exact Hseq|]. intros Hrv.
      rewrite decide_True by exact Hrv. reflexivity. }
  split; [|split; [|split; [|split; [|split]]]].
  - intros m rv m' taken n' Hrun.
    destruct (Hfacts _ _ _ _ _ Hrun) as (r' & Hp' & _ & Hnz & Hz).
    exists r'. auto.
  - intros m qs HF Hnd Hall.
    destruct (WillSendMessage_Locked_total p port_name m n r qs Hp HF Hnd Hall)
      as (rv & m' & taken & n' & Hrun).
    destruct (Hfacts _ _ _ _ _ Hrun) as (r' & Hp' & Hnone & Hnz & Hz).
    exists rv, m', taken, n', r'. split; [exact Hrun|].
    split; [exact Hp'|]. split; [exact Hnone|]. split; [|exact Hz].
    intros H. destruct (Hnz H) as (H1 & H2 & _). auto.
  - intros q m q' Hget.
    destruct (GetNextMessageIf_null_Some _ _ _ Hget) as (_ & _ & _ & Hs).
    split.
    + intros Hc. apply sequence_num_nonzero. congruence.
    + intros Hz. rewrite <- Hs. unfold MessageQueue.GetSequenceNum.
      rewrite Hz. reflexivity.
  - apply in_order_nonzero.
  - intros n' Hrun. cbv zeta. unfold ForwardMessages_Locked in Hrun.
    apply bind_inv in Hrun as (r0 & n0 & [Hr0 ->]%deref_inv & Hrun).
    rewrite Hp in Hr0. injection Hr0 as <-.
    destruct (ForwardMessages_loop_OK _ _ _ _ _ _ Hp Hl Hrun)
      as (counter & sent & Hp' & _ & _ & Hsent & Hf & Hcount).
    eexists. exists sent. split; [exact Hp'|]. split; [exact Hf|].
    split; [exact Hsent|]. intros Hnz. split; [|simpl; auto].
    clear -Hsent Hnz.
    induction Hsent as [|m m' ms ms' Hm Hms IH]; [reflexivity|].
    inversion Hnz as [|? ? Hm0 Hrest]; subst. simpl. f_equal; [|auto].
    apply Hm. exact Hm0.
  - intros Hall. cbv zeta. unfold ForwardMessages_Locked.
    rewrite bind_run, (deref_run _ _ _ Hp). cbv beta iota.
    rewrite (ForwardMessages_loop_stamps _ _ _ _ r Hp Hall) by lia.
    eexists. split; [reflexivity|].
    split; [simpl; eapply insert_lookup_same; exact Hp|].
    split; [reflexivity|].
    intros Hnz. rewrite (stamped_all_nonzero _ r Hnz). auto.
Qed.

(** A proxy whose cursor is at 0 holds a message numbered 0 in order and has
    7 for its next number to send: the message it re-forwards leaves with
    number 7, and the proxy's [next_sequence_num_to_send] is 8 afterwards. *)
Lemma C10_counterexample :
  let n := example_node
             [set_lock true
                (example_port kProxying 2 20 7 0 [example_message 10 0 []])]
             [(10%N, 0%nat)] in
  exists n' r',
    ForwardMessages_Locked 0%nat 10%N n = Done OK n' /\
    forwarded (delegate_ n') = [(2%N, kUser (example_message 20 7 []))] /\
    objects n' !! 0%nat = Some r' /\
    next_sequence_num_to_send r' = 8.
Proof.
  cbv zeta. eexists. eexists. split; [vm_compute; reflexivity|].
  split; [reflexivity|]. split; reflexivity.
Qed.

(** A proxy with messages 5 and 6 queued in order forwards them, numbered 5
    and 6, and keeps its own counter.  A port whose next number to send is
    7 sends a message numbered 0 that carries port 11: the call returns,
    and the message leaves with number 7. *)
Lemma C10_sequence_numbers_witness :
  (exists n',
     ForwardMessages_Locked 0%nat 10%N
       (example_node
          [set_lock true
             (example_port kProxying 2 20 1 5
                [example_message 10 5 []; example_message 10 6 []])]
          [(10%N, 0%nat)])
     = Done OK n' /\
     forwarded (delegate_ n') =
       [(2%N, kUser (example_message 20 5 []));
        (2%N, kUser (example_message 20 6 []))] /\
     next_sequence_num_to_send <$> objects n' !! 0%nat = Some 1) /\
  (exists rv m' taken n',
     WillSendMessage_Locked 0%nat 10%N
       (example_message 0 0 [(11%N, empty_descriptor)])
       (example_node
          [set_lock true (example_port kReceiving 2 20 7 1 []);
           example_port kReceiving 3 30 1 1 []]
          [(10%N, 0%nat); (11%N, 1%nat)])
     = Done (rv, m', taken) n' /\
     sequence_num m' = 7).
Proof.
  split.
  - destruct (C10_sequence_numbers 0%nat 10%N
                (example_node
                   [set_lock true
                      (example_port kProxying 2 20 1 5
                         [example_message 10 5 []; example_message 10 6 []])]
                   [(10%N, 0%nat)])
                _ eq_refl eq_refl) as (_ & _ & _ & _ & _ & H).
    destruct (H ltac:(repeat constructor)) as (n' & Hrun & Hobj & Hf & _).
    exists n'. split; [exact Hrun|]. rewrite Hf, Hobj. split; reflexivity.
  - destruct (C10_sequence_numbers 0%nat 10%N
                (example_node
                   [set_lock true (example_port kReceiving 2 20 7 1 []);
                    example_port kReceiving 3 30 1 1 []]
                   [(10%N, 0%nat); (11%N, 1%nat)])
                _ eq_refl eq_refl) as (_ & H & _).
    destruct (H (example_message 0 0 [(11%N, empty_descriptor)]) [1%nat])
      as (rv & m' & taken & n' & r' & Hrun & _ & _ & _ & Hz).
    + constructor; [reflexivity|constructor].
    + apply NoDup_singleton.
    + constructor; [|constructor].
      split; [discriminate|]. eexists. split; reflexivity.
    + exists rv, m', taken, n'. split; [exact Hrun|]. apply Hz. reflexivity.
Defined.

(** ** PortAccepted *)

Lemma GetPort_run port_name n :
  GetPort port_name n = Done (ports_ n !! port_name) n.
Proof. reflexivity. Qed.


Lemma OnPortAccepted_unfold port_name n p r :
  ports_ n !! port_name = Some p ->
  objects n !! p = Some r ->
  lock r = false ->
  state r = kBuffering ->
  OnPortAccepted port_name n =
  match ForwardMessages_loop
          (S (length (MessageQueue.heap_ (message_queue r)))) p port_name
          (set_objects
             (<[p := set_state kProxying (set_lock true r)]> (objects n)) n)
  with
  | Done rv n1 =>
      ((if decide (rv ≠ OK) then ret rv
        else
          r ← deref p;
          (if remove_proxy_on_last_message r
           then MaybeRemoveProxy_Locked p port_name
           else InitiateProxyRemoval_Locked p port_name);;
          ret OK)
       ≫= fun a => lock_unlock p;; ret a) n1
  | Stuck => Stuck
  | Fatal n1 => Fatal n1
  end.
Proof.
  intros Hports Hp Hl Hs. unfold OnPortAccepted.
  rewrite bind_run, GetPort_run, Hports.
  unfold lock_guard, lock_lock, ForwardMessages_Locked.
  rewrite bind_run, bind_run, (deref_run _ _ _ Hp). cbv beta iota.
  rewrite Hl, (update_run _ _ _ _ Hp). cbv beta iota.
  rewrite bind_run, bind_run. erewrite deref_run by lookup_solve.
  cbv beta iota. cbn [state set_lock].
  rewrite decide_False by (intros E; apply E; exact Hs).
  rewrite bind_run. erewrite update_run by lookup_solve.
  cbv beta iota. cbn [objects set_objects]. rewrite list_insert_insert_eq.
  rewrite bind_run, bind_run. erewrite deref_run by lookup_solve.
  cbv beta iota. cbn [message_queue set_state set_lock].
  destruct (ForwardMessages_loop _ _ _ _) as [rv n1| |n1]; [|reflexivity..].
  cbv beta iota. rewrite bind_run.
  destruct (decide (rv ≠ OK)); reflexivity.
Qed.




(** ** User messages for unknown ports *)

Lemma add_forwarded_eq n e :
  ForwardMessage e.1 e.2 n =
  Done tt (set_delegate
             {| forwarded := forwarded (delegate_ n) ++ [e];
                status_changed := status_changed (delegate_ n);
                name_source := name_source (delegate_ n);
                names_generated := names_generated (delegate_ n) |} n).
Proof. destruct e. reflexivity. Qed.

Lemma AcceptPort_run port_name d n :
  ports_ n !! port_name = None ->
  exists n',
    AcceptPort port_name d n = Done OK n' /\
    objects n' = objects n ++ [accepted_port d] /\
    ports_ n' = <[port_name := length (objects n)]> (ports_ n) /\
    forwarded (delegate_ n') = forwarded (delegate_ n) ++ [port_accepted_event d] /\
    status_changed (delegate_ n') = status_changed (delegate_ n) /\
    oops_log n' = oops_log n /\ name_ n' = name_ n /\
    local_messages_ n' = local_messages_ n.
Proof.
  intros Hnone. open_node n. simpl in Hnone.
  unfold AcceptPort, make_shared, AddPortWithName, ForwardMessage,
    NewInternalMessage.
  rewrite bind_run. cbv beta iota. proj_simpl.
  assert (Hlook : forall x : Port,
            (n_objs ++ [x]) !! length n_objs = Some x).
  { intros x. apply list_lookup_middle. reflexivity. }
  assert (Hins : forall x y : Port,
            <[length n_objs := y]> (n_objs ++ [x]) = n_objs ++ [y]).
  { intros x y. rewrite insert_app_r_alt by lia.
    rewrite Nat.sub_diag. reflexivity. }
  rewrite bind_run. erewrite update_run by (proj_simpl; apply Hlook).
  cbv beta iota. proj_simpl. rewrite Hins.
  rewrite bind_run. erewrite update_run by (proj_simpl; apply Hlook).
  cbv beta iota. proj_simpl. rewrite Hins.
  rewrite bind_run. erewrite update_run by (proj_simpl; apply Hlook).
  cbv beta iota. proj_simpl. rewrite Hins.
  mrun. rewrite Hnone. mrun.
  eexists. split; [reflexivity|]. simpl. repeat split; reflexivity.
Qed.

Lemma accept_loop slots :
  forall n,
    NoDup slots.*1 ->
    (forall k, k ∈ slots.*1 -> ports_ n !! k = None) ->
    exists n1,
      for_each_ok (fun slot => AcceptPort slot.1 slot.2) slots n = Done OK n1 /\
      objects n1 = objects n ++ map (fun slot => accepted_port slot.2) slots /\
      (forall i slot, slots !! i = Some slot ->
         ports_ n1 !! slot.1 = Some (length (objects n) + i)%nat) /\
      (forall k, k ∉ slots.*1 -> ports_ n1 !! k = ports_ n !! k) /\
      forwarded (delegate_ n1) =
        forwarded (delegate_ n) ++
        map (fun slot => port_accepted_event slot.2) slots /\
      status_changed (delegate_ n1) = status_changed (delegate_ n) /\
      oops_log n1 = oops_log n /\ name_ n1 = name_ n /\
      local_messages_ n1 = local_messages_ n.
Proof.
  induction slots as [|[nm d] slots IH]; intros n Hnd Hfresh.
  - exists n. simpl. rewrite !app_nil_r. repeat split; auto.
    intros i slot H. inversion H.
  - simpl in Hnd. apply NoDup_cons in Hnd as [Hnotin Hnd].
    destruct (AcceptPort_run nm d n ltac:(apply Hfresh; left))
      as (n0 & Hrun & Ho & Hpo & Hf & Hst & Hoops & Hname & Hloc).
    destruct (IH n0 Hnd) as (n1 & Hrun1 & Ho1 & Hpo1 & Hother1 & Hf1 & Hst1
                              & Hoops1 & Hname1 & Hloc1).
    { intros k Hk. rewrite Hpo, lookup_insert_ne.
      - apply Hfresh. right. exact Hk.
      - intros ->. contradiction. }
    exists n1. cbn [for_each_ok]. rewrite bind_run. simpl fst. simpl snd.
    rewrite Hrun. cbv beta iota. rewrite decide_True by reflexivity.
    split; [exact Hrun1|].
    split; [rewrite Ho1, Ho, <- app_assoc; reflexivity|].
    split.
    { intros [|i] slot Hi.
      - injection Hi as <-. simpl. rewrite Hother1 by exact Hnotin.
        rewrite Hpo, lookup_insert_eq. f_equal. lia.
      - simpl in Hi. rewrite (Hpo1 _ _ Hi), Ho, length_app. simpl.
        f_equal. lia. }
    split.
    { intros k Hk. simpl in Hk. apply not_elem_of_cons in Hk as [Hne Hk].
      rewrite (Hother1 _ Hk), Hpo, lookup_insert_ne by auto. reflexivity. }
    split; [rewrite Hf1, Hf, <- app_assoc; reflexivity|].
    repeat split; congruence.
Qed.

Lemma ClosePort_receiving_run port_ref n r :
  objects n !! port port_ref = Some r ->
  lock r = false ->
  state r = kReceiving ->
  ClosePort port_ref n =
  Done OK
    (set_ports (delete (name port_ref) (ports_ n))
       (set_delegate
          {| forwarded :=
               forwarded (delegate_ n) ++
               [(peer_node_name r,
                 Internal (peer_port_name r)
                   (kObserveClosure
                      (wrap64 (next_sequence_num_to_send r - 1))))];
             status_changed := status_changed (delegate_ n);
             name_source := name_source (delegate_ n);
             names_generated := names_generated (delegate_ n) |}
          (set_objects (<[port port_ref := set_state kClosed r]> (objects n))
             n))).
Proof.
  intros Hr Hl Hs. open_node n. open_port r. simpl in Hr, Hl, Hs. subst.
  unfold ClosePort, lock_guard, lock_lock, lock_unlock, ForwardMessage,
    ErasePort, NewInternalMessage.
  mrun. reflexivity.
Qed.

Lemma close_loop slots :
  forall pre post n,
    NoDup slots.*1 ->
    objects n = pre ++ map (fun slot => accepted_port slot.2) slots ++ post ->
    (forall i slot, slots !! i = Some slot ->
       ports_ n !! slot.1 = Some (length pre + i)%nat) ->
    exists n',
      for_each (fun port_name_i =>
                  '(rv, port_ref) ← GetPortRef port_name_i;
                  match port_ref with
                  | Some port_ref => ClosePort port_ref;; ret tt
                  | None => ret tt
                  end) slots.*1 n = Done tt n' /\
      objects n' =
        pre ++ map (fun slot => set_state kClosed (accepted_port slot.2)) slots
            ++ post /\
      (forall k, k ∈ slots.*1 -> ports_ n' !! k = None) /\
      (forall k, k ∉ slots.*1 -> ports_ n' !! k = ports_ n !! k) /\
      forwarded (delegate_ n') =
        forwarded (delegate_ n) ++
        map (fun slot => closure_event slot.2) slots /\
      status_changed (delegate_ n') = status_changed (delegate_ n) /\
      oops_log n' = oops_log n /\ name_ n' = name_ n /\
      local_messages_ n' = local_messages_ n.
Proof.
  induction slots as [|[nm d] slots IH]; intros pre post n Hnd Ho Hpo.
  - exists n. simpl. rewrite app_nil_r. repeat split; auto.
    intros k Hk. inversion Hk.
  - simpl in Hnd. apply NoDup_cons in Hnd as [Hnotin Hnd].
    pose proof (Hpo 0%nat (nm, d) eq_refl) as Hnm. simpl in Hnm.
    rewrite Nat.add_0_r in Hnm.
    assert (Hlook : objects n !! length pre = Some (accepted_port d)).
    { rewrite Ho. simpl. apply list_lookup_middle. reflexivity. }
    pose proof (ClosePort_receiving_run {| name := nm; port := length pre |}
                  n (accepted_port d) Hlook eq_refl eq_refl) as Hclose.
    set (n0 := set_ports _ _) in Hclose.
    destruct (IH (pre ++ [set_state kClosed (accepted_port d)]) post n0 Hnd)
      as (n' & Hrun & Ho' & Hin' & Hout' & Hf' & Hst' & Hoops' & Hname' & Hloc').
    { subst n0. destruct n. simpl in *. rewrite Ho.
      rewrite insert_app_r_alt by lia. rewrite Nat.sub_diag. simpl.
      rewrite <- app_assoc. reflexivity. }
    { intros i slot Hi. subst n0. destruct n. simpl in *.
      rewrite lookup_delete_ne.
      - rewrite (Hpo (S i) slot Hi), length_app. simpl. f_equal. lia.
      - intros ->. apply Hnotin. apply list_elem_of_lookup. exists i.
        rewrite list_lookup_fmap, Hi. reflexivity. }
    exists n'. cbn [fmap list_fmap for_each]. simpl fst.
    rewrite bind_run. unfold GetPortRef at 1.
    rewrite bind_run, bind_run, GetPort_run, Hnm. cbv beta iota.
    unfold ret at 1. cbv beta iota.
    rewrite bind_run, Hclose. cbv beta iota. unfold ret at 1.
    cbv beta iota.
    split; [exact Hrun|].
    split; [rewrite Ho', <- app_assoc; reflexivity|].
    split.
    { intros k [->|Hk]%elem_of_cons; [|auto].
      rewrite Hout' by exact Hnotin. subst n0. destruct n. simpl.
      apply lookup_delete_eq. }
    split.
    { intros k [Hne Hk]%not_elem_of_cons. rewrite (Hout' _ Hk).
      subst n0. destruct n. simpl. apply lookup_delete_ne. auto. }
    split.
    { rewrite Hf'. subst n0. destruct n as [? [? ? ? ?] ? ? ? ? ?]. simpl.
      rewrite <- app_assoc. reflexivity. }
    subst n0. destruct n as [? [? ? ? ?] ? ? ? ? ?]. simpl in *. auto.
Qed.

(** C8. A user message addressed to a port name this node does not know:
    [AcceptPort] still creates a Receiving record for every port descriptor
    of the message, bound to the descriptor's name, and sends PortAccepted to
    each referring port; each of those ports is then closed at once (marked
    Closed, ObserveClosure sent to its peer, name erased), so the port map
    ends as it began.  No record that existed before is touched and the new
    records have empty queues: the carrier message is not enqueued
    anywhere. *)
Theorem C8_OnUserMessage_unknown_port (message : UserMessage) (n : Node) :
  ports_ n !! um_port_name message = None ->
  NoDup (ports message) ->
  (forall k, k ∈ ports message -> ports_ n !! k = None) ->
  exists n1 n',
    for_each_ok (fun slot => AcceptPort slot.1 slot.2) (um_slots message) n
      = Done OK n1 /\
    objects n1 =
      objects n ++ map (fun slot => accepted_port slot.2) (um_slots message) /\
    (forall i slot, um_slots message !! i = Some slot ->
       ports_ n1 !! slot.1 = Some (length (objects n) + i)%nat /\
       state (accepted_port slot.2) = kReceiving) /\
    forwarded (delegate_ n1) =
      forwarded (delegate_ n) ++
      map (fun slot => port_accepted_event slot.2) (um_slots message) /\
    OnUserMessage message n = Done OK n' /\
    objects n' =
      objects n ++
      map (fun slot => set_state kClosed (accepted_port slot.2))
          (um_slots message) /\
    (forall slot, slot ∈ um_slots message ->
       MessageQueue.heap_ (message_queue (accepted_port slot.2)) = []) /\
    ports_ n' = ports_ n /\
    forwarded (delegate_ n') =
      forwarded (delegate_ n1) ++
      map (fun slot => closure_event slot.2) (um_slots message) /\
    status_changed (delegate_ n') = status_changed (delegate_ n).
Proof.
  intros Hunknown Hnd Hfresh. unfold ports in Hnd, Hfresh.
  destruct (accept_loop (um_slots message) n Hnd Hfresh)
    as (n1 & Hrun1 & Ho1 & Hpo1 & Hother1 & Hf1 & Hst1 & Hoops1 & Hname1 & Hloc1).
  destruct (close_loop (um_slots message) (objects n) [] n1 Hnd)
    as (n' & Hrun' & Ho' & Hin' & Hout' & Hf' & Hst' & _).
  { rewrite Ho1, app_nil_r. reflexivity. }
  { exact Hpo1. }
  exists n1, n'. split; [exact Hrun1|]. split; [exact Ho1|].
  split; [intros i slot Hi; split; [eauto|reflexivity]|].
  split; [exact Hf1|].
  split.
  { unfold OnUserMessage. rewrite bind_run, GetPort_run, Hunknown.
    rewrite bind_run, Hrun1. cbv beta iota.
    rewrite decide_False by auto. rewrite bind_run. unfold ret at 1.
    cbv beta iota. rewrite decide_False by auto.
    cbn [negb]. rewrite bind_run. unfold ports. rewrite Hrun'. reflexivity. }
  split; [rewrite Ho', app_nil_r; reflexivity|].
  split; [intros slot _; reflexivity|].
  split.
  { apply map_eq. intros k. destruct (decide (k ∈ (um_slots message).*1)) as [Hk|Hk].
    - rewrite (Hin' _ Hk), (Hfresh _ Hk). reflexivity.
    - rewrite (Hout' _ Hk), (Hother1 _ Hk). reflexivity. }
  split; [exact Hf'|]. congruence.
Qed.

(** A message for the unknown port 99 carrying one port, named 50. *)
Lemma C8_OnUserMessage_unknown_port_witness :
  exists n',
    OnUserMessage
      (example_message 99 1
         [(50%N, {| pd_peer_node_name := 2; pd_peer_port_name := 20;
                    pd_referring_node_name := 3; pd_referring_port_name := 30;
                    pd_next_sequence_num_to_send := 4;
                    pd_next_sequence_num_to_receive := 1 |})])
      (example_node [] [])
    = Done OK n' /\
    ports_ n' = ∅ /\
    forwarded (delegate_ n') =
      [(3%N, Internal 30%N kPortAccepted);
       (2%N, Internal 20%N (kObserveClosure 3))].
Proof.
  destruct (C8_OnUserMessage_unknown_port
              (example_message 99 1
                 [(50%N, {| pd_peer_node_name := 2; pd_peer_port_name := 20;
                            pd_referring_node_name := 3;
                            pd_referring_port_name := 30;
                            pd_next_sequence_num_to_send := 4;
                            pd_next_sequence_num_to_receive := 1 |})])
              (example_node [] []))
    as (n1 & n' & _ & _ & _ & Hf1 & Hrun & _ & _ & Hp & Hf & _).
  - reflexivity.
  - apply NoDup_singleton.
  - intros k Hk. reflexivity.
  - exists n'. split; [exact Hrun|]. split; [exact Hp|].
    rewrite Hf, Hf1. reflexivity.
Defined.

(** ** Reading after closure *)

Lemma signalized_refl r : signalized r r.
Proof.
  exists (MessageQueue.signalable_ (message_queue r)).
  destruct r as [? ? ? ? ? ? [? ? ?] ? ? ? ? ?]. reflexivity.
Qed.

Lemma signalized_trans r1 r2 r3 :
  signalized r1 r2 -> signalized r2 r3 -> signalized r1 r3.
Proof. intros [b ->] [c ->]. exists c. destruct r1. reflexivity. Qed.

Lemma make_signalable_frame new_port_name n u n' :
  make_signalable new_port_name n = Done u n' ->
  same_but_objects n n' /\
  forall q rq, objects n !! q = Some rq ->
    exists rq', objects n' !! q = Some rq' /\ signalized rq rq'.
Proof.
  unfold make_signalable.
  intros (o & n0 & H0 & H)%bind_inv. rewrite GetPort_run in H0.
  injection H0 as <- <-.
  apply bind_inv in H as (np & n1 & H1 & H).
  destruct (ports_ n !! new_port_name) as [np'|]; [|discriminate].
  apply ret_inv in H1 as [-> ->]. unfold lock_guard in H.
  apply bind_inv in H as (u1 & n2 & (r & Hr & Hl & ->)%lock_lock_inv & H).
  apply bind_inv in H as (u2 & n3 & (r2 & Hr2 & ->)%update_inv & H).
  apply bind_inv in H as (u3 & n4 & (r3 & Hr3 & ->)%update_inv & [_ ->]%ret_inv).
  simpl in Hr2. rewrite (insert_lookup_same _ _ _ _ Hr) in Hr2.
  injection Hr2 as <-.
  simpl in Hr3. rewrite (insert_lookup_same _ _ _ (set_lock true r)) in Hr3
    by (eapply insert_lookup_same; exact Hr).
  injection Hr3 as <-.
  split; [repeat split|].
  intros q rq Hq. simpl. rewrite !list_insert_insert_eq.
  destruct (decide (q = np')) as [->|Hne].
  - rewrite Hr in Hq. injection Hq as <-.
    erewrite insert_lookup_same by exact Hr. eexists. split; [reflexivity|].
    exists true. destruct r. simpl in *. subst. reflexivity.
  - rewrite list_lookup_insert_ne by auto. exists rq.
    split; [exact Hq|apply signalized_refl].
Qed.

Lemma signalize_loop_frame names n u n' :
  for_each make_signalable names n = Done u n' ->
  same_but_objects n n' /\
  forall q rq, objects n !! q = Some rq ->
    exists rq', objects n' !! q = Some rq' /\ signalized rq rq'.
Proof.
  revert n. induction names as [|nm names IH]; intros n; cbn [for_each].
  - intros [_ ->]%ret_inv. split; [apply same_but_objects_refl|].
    intros q rq Hq. exists rq. split; [exact Hq|apply signalized_refl].
  - intros (u1 & n1 & H1 & H)%bind_inv.
    destruct (make_signalable_frame _ _ _ _ H1) as [Hs1 Hf1].
    destruct (IH _ H) as [Hs2 Hf2].
    split; [eapply same_but_objects_trans; eauto|].
    intros q rq Hq. destruct (Hf1 _ _ Hq) as (rq1 & Hq1 & Hz1).
    destruct (Hf2 _ _ Hq1) as (rq2 & Hq2 & Hz2).
    exists rq2. split; [exact Hq2|eapply signalized_trans; eauto].
Qed.

Lemma GetMessageIf_unfold port_ref selector n r :
  objects n !! port port_ref = Some r ->
  lock r = false ->
  state r = kReceiving ->
  GetMessageIf port_ref selector n =
  if negb (CanAcceptMoreMessages r)
  then Done (ERROR_PORT_PEER_CLOSED, None) n
  else
    let '(message, q) :=
      MessageQueue.GetNextMessageIf selector (message_queue r) in
    let n1 := set_objects
                (<[port port_ref := set_message_queue q r]> (objects n)) n in
    match message with
    | Some message =>
        (for_each make_signalable (ports message);; ret (OK, Some message)) n1
    | None => Done (OK, None) n1
    end.
Proof.
  intros Hr Hl Hs. open_node n. open_port r. simpl in Hr, Hl, Hs. subst.
  unfold GetMessageIf, lock_guard, lock_lock, lock_unlock. mrun.
  destruct (negb (CanAcceptMoreMessages _)).
  - mrun. rewrite list_insert_id by exact Hr. reflexivity.
  - destruct (MessageQueue.GetNextMessageIf selector r_q) as [[m|] q].
    + mrun. reflexivity.
    + mrun. reflexivity.
Qed.

(** What one [GetMessageIf] does to a Receiving port whose peer has been
    observed closed, [k] being the last expected number. *)
Lemma GetMessageIf_closed_step port_ref selector n r k res n' :
  objects n !! port port_ref = Some r ->
  lock r = false ->
  state r = kReceiving ->
  peer_closed r = true ->
  last_sequence_num_to_receive r = k ->
  GetMessageIf port_ref selector n = Done res n' ->
  exists r',
    objects n' !! port port_ref = Some r' /\
    lock r' = false /\ state r' = kReceiving /\ peer_closed r' = true /\
    last_sequence_num_to_receive r' = k /\
    if decide (k = wrap64 (MessageQueue.next_sequence_num_ (message_queue r) - 1))
    then res = (ERROR_PORT_PEER_CLOSED, None) /\ n' = n /\ r' = r
    else
      res.1 = OK /\
      match res.2 with
      | Some m =>
          MessageQueue.GetSequenceNum m =
            MessageQueue.next_sequence_num_ (message_queue r) /\
          MessageQueue.next_sequence_num_ (message_queue r') =
            wrap32 (MessageQueue.next_sequence_num_ (message_queue r) + 1) /\
          MessageQueue.heap_ (message_queue r) =
            m :: MessageQueue.heap_ (message_queue r')
      | None =>
          MessageQueue.next_sequence_num_ (message_queue r') =
            MessageQueue.next_sequence_num_ (message_queue r) /\
          MessageQueue.heap_ (message_queue r') =
            MessageQueue.heap_ (message_queue r)
      end.
Proof.
  intros Hr Hl Hs Hpc Hk. rewrite (GetMessageIf_unfold _ _ _ _ Hr Hl Hs).
  unfold CanAcceptMoreMessages, MessageQueue.next_sequence_num.
  rewrite Hpc, Hk. cbn [orb].
  destruct (decide (k = wrap64 (MessageQueue.next_sequence_num_ (message_queue r) - 1)))
    as [E|E].
  - rewrite <- E, Z.eqb_refl. cbn [negb]. intros [= <- <-].
    exists r. auto 10.
  - apply Z.eqb_neq in E. rewrite E. cbn [negb].
    destruct (MessageQueue.GetNextMessageIf selector (message_queue r))
      as [[m|] q] eqn:Hget.
    + cbv zeta. intros (u & n1 & Hloop & [-> ->]%ret_inv)%bind_inv.
      destruct (signalize_loop_frame _ _ _ _ Hloop) as [_ Hf].
      destruct (Hf (port port_ref) (set_message_queue q r)
                  ltac:(simpl; eapply insert_lookup_same; exact Hr))
        as (r' & Hr' & [b ->]).
      exists (set_message_queue
                (MessageQueue.set_signalable b
                   (message_queue (set_message_queue q r)))
                (set_message_queue q r)).
      split; [exact Hr'|]. simpl. repeat split; auto.
      all: destruct (GetNextMessageIf_Some _ _ _ _ Hget) as (Hh & Hsq & _ & Hn & _);
        auto.
    + cbv zeta. intros [= <- <-].
      pose proof (GetNextMessageIf_None _ _ _ _ Hget eq_refl) as ->.
      exists (set_message_queue (message_queue r) r).
      split; [simpl; eapply insert_lookup_same; exact Hr|].
      simpl. auto 10.
Qed.

Lemma closed_condition k f :
  0 <= k -> 0 <= f <= k + 1 -> k + 1 < 2 ^ 32 ->
  k = wrap64 (f - 1) <-> f = k + 1.
Proof.
  intros Hk0 Hf Hk. unfold wrap64.
  change (2 ^ 32) with 4294967296 in Hk.
  change (2 ^ 64) with 18446744073709551616.
  destruct (decide (f = 0)) as [->|Hnz].
  - change ((0 - 1) mod 18446744073709551616) with 18446744073709551615. lia.
  - rewrite Z.mod_small by lia. lia.
Qed.

Lemma surfaced_cons res results :
  surfaced (res :: results) =
  ((if res.2 is Some _ then 1 else 0) + surfaced results)%nat.
Proof.
  unfold surfaced. destruct res as [rv [m|]]; reflexivity.
Qed.

(** Along any run of [GetMessageIf] calls on a closed-peer port, a call
    reports PeerClosed exactly when the messages surfaced before it have
    used up the expected numbers. *)
Lemma get_messages_count port_ref k selectors :
  forall n r results n',
    objects n !! port port_ref = Some r ->
    lock r = false ->
    state r = kReceiving ->
    peer_closed r = true ->
    last_sequence_num_to_receive r = k ->
    0 <= k ->
    0 <= MessageQueue.next_sequence_num_ (message_queue r) <= k + 1 ->
    k + 1 < 2 ^ 32 ->
    get_messages port_ref selectors n = Done results n' ->
    forall i res,
      results !! i = Some res ->
      (res.1 = OK \/ res.1 = ERROR_PORT_PEER_CLOSED) /\
      (res.1 = ERROR_PORT_PEER_CLOSED <->
       MessageQueue.next_sequence_num_ (message_queue r) +
         Z.of_nat (surfaced (take i results)) = k + 1).
Proof.
  induction selectors as [|selector selectors IH];
    intros n r results n' Hr Hl Hs Hpc Hk Hk0 Hf Hb; cbn [get_messages].
  - intros [-> _]%ret_inv i res Hi. inversion Hi.
  - intros (res0 & n1 & Hget & H)%bind_inv.
    apply bind_inv in H as (rest & n2 & Hrest & [-> ->]%ret_inv).
    destruct (GetMessageIf_closed_step _ _ _ _ _ _ _ Hr Hl Hs Hpc Hk Hget)
      as (r' & Hr' & Hl' & Hs' & Hpc' & Hk' & Hstep).
    pose proof (closed_condition k _ Hk0 Hf Hb) as Hcond.
    destruct (decide (k = wrap64 (MessageQueue.next_sequence_num_ (message_queue r) - 1)))
      as [E|E].
    + destruct Hstep as (-> & -> & ->). apply Hcond in E.
      intros [|i] res Hi.
      * injection Hi as <-. simpl. unfold surfaced. simpl. split; [auto|].
        split; [intros _; lia|reflexivity].
      * simpl in Hi. rewrite firstn_cons, surfaced_cons. simpl.
        eapply (IH n r rest n2); eauto.
    + destruct Hstep as (Hok & Hm).
      assert (Hne : MessageQueue.next_sequence_num_ (message_queue r) <> k + 1)
        by (intros E'; apply E, Hcond, E').
      intros [|i] res Hi.
      * injection Hi as <-. simpl. unfold surfaced. simpl. split; [auto|].
        rewrite Hok. split; [discriminate|lia].
      * simpl in Hi. rewrite firstn_cons, surfaced_cons.
        destruct res0 as [rv0 [m|]]; simpl in Hm |- *.
        -- destruct Hm as (_ & Hn' & _).
           rewrite wrap32_small in Hn' by lia.
           destruct (IH n1 r' rest n2 Hr' Hl' Hs' Hpc' Hk' Hk0
                       ltac:(rewrite Hn'; lia) Hb Hrest i res Hi) as [H1 H2].
           split; [exact H1|]. rewrite H2, Hn'. lia.
        -- destruct Hm as (Hn' & _).
           destruct (IH n1 r' rest n2 Hr' Hl' Hs' Hpc' Hk' Hk0
                       ltac:(rewrite Hn'; lia) Hb Hrest i res Hi) as [H1 H2].
           split; [exact H1|]. rewrite H2, Hn'. lia.
Qed.

(** When the queue holds the expected messages, the reader gets them all,
    in order, and then PeerClosed. *)
Lemma get_messages_drain port_ref k ms :
  forall n r rest,
    objects n !! port port_ref = Some r ->
    lock r = false ->
    state r = kReceiving ->
    peer_closed r = true ->
    last_sequence_num_to_receive r = k ->
    MessageQueue.heap_ (message_queue r) = ms ++ rest ->
    consecutive (MessageQueue.next_sequence_num_ (message_queue r)) ms ->
    MessageQueue.next_sequence_num_ (message_queue r) +
      Z.of_nat (length ms) = k + 1 ->
    0 <= k ->
    0 <= MessageQueue.next_sequence_num_ (message_queue r) ->
    k + 1 < 2 ^ 32 ->
    exists n',
      get_messages port_ref (replicate (S (length ms)) None) n =
      Done (map (fun m => (OK, Some m)) ms ++ [(ERROR_PORT_PEER_CLOSED, None)])
           n'.
Proof.
  induction ms as [|m ms IH]; intros n r rest Hr Hl Hs Hpc Hk Hh Hcons Hlen Hk0 Hf Hb.
  - simpl in Hlen. exists n. cbn [length replicate get_messages].
    rewrite bind_run, (GetMessageIf_unfold _ _ _ _ Hr Hl Hs).
    unfold CanAcceptMoreMessages, MessageQueue.next_sequence_num.
    rewrite Hpc, Hk. cbn [orb].
    assert (E : k = wrap64 (MessageQueue.next_sequence_num_ (message_queue r) - 1))
      by (apply closed_condition; lia).
    rewrite <- E, Z.eqb_refl. reflexivity.
  - destruct Hcons as (Hseq & Hslots & Hcons). simpl in Hlen, Hh.
    assert (Hne : MessageQueue.next_sequence_num_ (message_queue r) <> k + 1)
      by lia.
    assert (E : k <> wrap64 (MessageQueue.next_sequence_num_ (message_queue r) - 1)).
    { intros E. apply Hne. apply closed_condition; [lia|lia|lia|exact E]. }
    set (q := {| MessageQueue.heap_ := ms ++ rest;
                 MessageQueue.next_sequence_num_ :=
                   wrap32 (MessageQueue.next_sequence_num_ (message_queue r) + 1);
                 MessageQueue.signalable_ :=
                   MessageQueue.signalable_ (message_queue r) |}).
    assert (Hget : MessageQueue.GetNextMessageIf None (message_queue r)
                   = (Some m, q)).
    { unfold MessageQueue.GetNextMessageIf. rewrite Hh, Hseq, Z.eqb_refl.
      reflexivity. }
    destruct (IH (set_objects
                    (<[port port_ref := set_message_queue q r]> (objects n)) n)
                 (set_message_queue q r) rest) as [n' Hrun]; auto.
    { simpl. eapply insert_lookup_same. exact Hr. }
    { simpl. rewrite wrap32_small by lia. exact Hcons. }
    { simpl. rewrite wrap32_small by lia. lia. }
    { simpl. apply wrap32_range. }
    exists n'. cbn [length replicate get_messages map app].
    rewrite bind_run, (GetMessageIf_unfold _ _ _ _ Hr Hl Hs).
    unfold CanAcceptMoreMessages, MessageQueue.next_sequence_num.
    rewrite Hpc, Hk. cbn [orb]. apply Z.eqb_neq in E. rewrite E. cbn [negb].
    rewrite Hget. cbv zeta. unfold ports. rewrite Hslots.
    cbn [fmap list_fmap for_each]. rewrite bind_run. unfold ret at 1.
    cbv beta iota. unfold ret at 1. cbv beta iota.
    rewrite bind_run. cbn [length replicate get_messages] in Hrun.
    rewrite Hrun.
    reflexivity.
Qed.

(** ObserveClosure at a Receiving port: the port records that its peer has
    closed and the last number to expect, and the delegate is notified. *)
Lemma OnObserveClosure_receiving port_name last_sequence_num n p r :
  ports_ n !! port_name = Some p ->
  objects n !! p = Some r ->
  lock r = false ->
  state r = kReceiving ->
  exists n',
    OnObserveClosure port_name last_sequence_num n = Done OK n' /\
    objects n' =
      <[p := set_last_sequence_num_to_receive last_sequence_num
               (set_peer_closed true r)]> (objects n) /\
    ports_ n' = ports_ n /\
    forwarded (delegate_ n') = forwarded (delegate_ n) /\
    status_changed (delegate_ n') =
      status_changed (delegate_ n) ++ [{| name := port_name; port := p |}].
Proof.
  intros Hports Hp Hl Hs. open_node n. open_port r.
  simpl in Hports, Hp, Hl, Hs. subst.
  unfold OnObserveClosure, GetPort. mrun. rewrite Hports.
  unfold lock_guard, lock_lock, lock_unlock, PortStatusChanged.
  mrun. eexists. split; [reflexivity|]. simpl. auto.
Qed.

(** C3 (amended). A Receiving port on which ObserveClosure with
    [last_sequence_num = k] has been observed (the record [OnObserveClosure]
    leaves, see [OnObserveClosure_receiving]), its queue expecting [first]
    next, with [first <= k + 1] (and no 32-bit roll-over of the cursor up to
    [k + 1]).  [GetMessageIf] returns PeerClosed exactly when the expected
    numbers up to [k] have all been handed out, [first = k + 1], and it does
    so without reading the queue, whether or not a message in order is
    queued there; until then it returns OK, handing out the next in-order
    message when it is queued (it does return when that message carries no
    ports).  So in any run of reads exactly
    [k - first + 1] messages have been surfaced before every PeerClosed
    result, and when the queue holds the expected messages the reader gets
    them all and then PeerClosed. *)
Theorem C3_closure_draining (port_ref : PortRef) (n : Node) (r : Port)
    (k : Z) :
  objects n !! port port_ref = Some r ->
  lock r = false ->
  state r = kReceiving ->
  peer_closed r = true ->
  last_sequence_num_to_receive r = k ->
  0 <= k ->
  0 <= MessageQueue.next_sequence_num (message_queue r) <= k + 1 ->
  k + 1 < 2 ^ 32 ->
  let first := MessageQueue.next_sequence_num (message_queue r) in
  (forall selector,
     (first = k + 1 ->
      GetMessageIf port_ref selector n = Done (ERROR_PORT_PEER_CLOSED, None) n) /\
     (first <> k + 1 ->
      (forall res n',
         GetMessageIf port_ref selector n = Done res n' ->
         res.1 = OK /\
         (res.2 = (MessageQueue.GetNextMessageIf selector (message_queue r)).1)) /\
      (match (MessageQueue.GetNextMessageIf selector (message_queue r)).1 with
       | Some message => um_slots message = []
       | None => True
       end ->
       exists n',
         GetMessageIf port_ref selector n =
         Done (OK, (MessageQueue.GetNextMessageIf selector (message_queue r)).1)
              n'))) /\
  (forall selectors results n',
     get_messages port_ref selectors n = Done results n' ->
     forall i res,
       results !! i = Some res ->
       (res.1 = ERROR_PORT_PEER_CLOSED <->
        Z.of_nat (surfaced (take i results)) = k - first + 1)) /\
  (forall ms rest,
     MessageQueue.heap_ (message_queue r) = ms ++ rest ->
     consecutive first ms ->
     Z.of_nat (length ms) = k - first + 1 ->
     exists n',
       get_messages port_ref (replicate (S (length ms)) None) n =
       Done (map (fun m => (OK, Some m)) ms ++ [(ERROR_PORT_PEER_CLOSED, None)])
            n').
Proof.
  intros Hr Hl Hs Hpc Hk Hk0 Hf Hb first.
  unfold MessageQueue.next_sequence_num in *. subst first.
  pose proof (closed_condition k _ Hk0 Hf Hb) as Hcond.
  split; [|split].
  - intros selector. rewrite (GetMessageIf_unfold _ _ _ _ Hr Hl Hs).
    unfold CanAcceptMoreMessages, MessageQueue.next_sequence_num.
    rewrite Hpc, Hk. cbn [orb]. split.
    + intros E. apply Hcond in E. rewrite <- E, Z.eqb_refl. reflexivity.
    + intros Hne.
      assert (E : k <> wrap64 (MessageQueue.next_sequence_num_ (message_queue r) - 1))
        by (intros E; apply Hne, Hcond, E).
      apply Z.eqb_neq in E. rewrite E. cbn [negb].
      destruct (MessageQueue.GetNextMessageIf selector (message_queue r))
        as [[m|] q]; cbv zeta; cbn [fst]; (split; [intros res n'|]).
      * intros (u & n1 & _ & [-> _]%ret_inv)%bind_inv. auto.
      * intros Hslots. unfold ports. rewrite Hslots. eexists. reflexivity.
      * intros [= <- _]. auto.
      * intros _. eexists. reflexivity.
  - intros selectors results n' Hrun i res Hi.
    destruct (get_messages_count _ _ _ _ _ _ _ Hr Hl Hs Hpc Hk Hk0 Hf Hb Hrun i res Hi)
      as [_ H].
    rewrite H. lia.
  - intros ms rest Hh Hcons Hlen.
    eapply get_messages_drain; eauto; lia.
Qed.

(** A Receiving port expecting number 5 accepts message 5 and then an
    ObserveClosure whose last number is 4: [GetMessage] returns PeerClosed
    while the queue would hand out message 5, which is in order. *)
Lemma C3_counterexample :
  let n := example_node [example_port kReceiving 2 20 1 5 []] [(10%N, 0%nat)] in
  exists n1 n2 r2,
    AcceptMessage (kUser (example_message 10 5 [])) n = Done OK n1 /\
    AcceptMessage (Internal 10 (kObserveClosure 4)) n1 = Done OK n2 /\
    objects n2 !! 0%nat = Some r2 /\
    state r2 = kReceiving /\
    peer_closed r2 = true /\
    last_sequence_num_to_receive r2 = 4 /\
    (MessageQueue.GetNextMessageIf None (message_queue r2)).1 =
      Some (example_message 10 5 []) /\
    GetMessage {| name := 10%N; port := 0%nat |} n2 =
      Done (ERROR_PORT_PEER_CLOSED, None) n2.
Proof.
  cbv zeta. eexists. eexists. eexists.
  split; [vm_compute; reflexivity|].
  split; [vm_compute; reflexivity|].
  split; [reflexivity|].
  repeat (split; [reflexivity|]).
  vm_compute. reflexivity.
Qed.

(** Two expected messages are queued: read, read, PeerClosed. *)
Lemma C3_closure_draining_witness :
  exists n',
    get_messages {| name := 10%N; port := 0%nat |} [None; None; None]
      (example_node
         [set_last_sequence_num_to_receive 2
            (set_peer_closed true
               (example_port kReceiving 2 20 1 1
                  [example_message 10 1 []; example_message 10 2 []]))]
         [(10%N, 0%nat)])
    = Done [(OK, Some (example_message 10 1 []));
            (OK, Some (example_message 10 2 []));
            (ERROR_PORT_PEER_CLOSED, None)] n'.
Proof.
  destruct (C3_closure_draining {| name := 10%N; port := 0%nat |}
              (example_node
                 [set_last_sequence_num_to_receive 2
                    (set_peer_closed true
                       (example_port kReceiving 2 20 1 1
                          [example_message 10 1 []; example_message 10 2 []]))]
                 [(10%N, 0%nat)])
              _ 2 eq_refl eq_refl eq_refl eq_refl eq_refl
              ltac:(lia) ltac:(simpl; lia) ltac:(lia))
    as (_ & _ & H).
  apply (H [example_message 10 1 []; example_message 10 2 []] []).
  - reflexivity.
  - simpl. auto.
  - reflexivity.
Defined.

(** ** SendMessage: a port that cannot be taken *)

(** C5 (the code at its failing inputs).  Port 10 sends a message carrying
    ports 11 (Receiving) and 12 (Buffering): [SendMessage] returns
    PortStateUnexpected, yet the record of port 11 is left locked, so that a
    later [ClosePort] on it has no outcome.  And when the message already
    carries sequence number 7 and its port 12 cannot be taken, the sender's
    [next_sequence_num_to_send], 5 before the call, is 4 after it. *)
Theorem C5_SendMessage_failing_inputs :
  (exists n' r11,
     SendMessage {| name := 10%N; port := 0%nat |}
       (example_message 0 0 [(11%N, empty_descriptor); (12%N, empty_descriptor)])
       (example_node
          [example_port kReceiving 2 20 5 1 [];
           example_port kReceiving 3 30 1 1 [];
           example_port kBuffering 3 31 1 1 []]
          [(10%N, 0%nat); (11%N, 1%nat); (12%N, 2%nat)])
     = Done ERROR_PORT_STATE_UNEXPECTED n' /\
     objects n' !! 1%nat = Some r11 /\
     lock r11 = true /\
     ClosePort {| name := 11%N; port := 1%nat |} n' = Stuck) /\
  (exists n' r10,
     SendMessage {| name := 10%N; port := 0%nat |}
       (example_message 0 7 [(12%N, empty_descriptor)])
       (example_node
          [example_port kReceiving 2 20 5 1 [];
           example_port kReceiving 3 30 1 1 [];
           example_port kBuffering 3 31 1 1 []]
          [(10%N, 0%nat); (11%N, 1%nat); (12%N, 2%nat)])
     = Done ERROR_PORT_STATE_UNEXPECTED n' /\
     objects n' !! 0%nat = Some r10 /\
     next_sequence_num_to_send r10 = 4).
Proof.
  split.
  - eexists. eexists. split; [vm_compute; reflexivity|].
    split; [reflexivity|]. split; reflexivity.
  - eexists. eexists. split; [vm_compute; reflexivity|].
    split; reflexivity.
Qed.

(** * Further properties of the node operations *)

(** ** SendMessage *)

Lemma SendMessage_checked port_ref message n :
  name port_ref ∉ ports message ->
  SendMessage port_ref message n =
  (let port := port port_ref in
   res ← lock_guard port (
     r ← deref port;
     if decide (state r ≠ kReceiving /\ state r ≠ kUninitialized)
     then ret (inl ERROR_PORT_STATE_UNEXPECTED)
     else if decide (state r = kReceiving /\ peer_closed r = true)
     then ret (inl ERROR_PORT_PEER_CLOSED)
     else
       '(rv, message, ports_taken) ←
         WillSendMessage_Locked port (name port_ref) message;
       if decide (rv ≠ OK) then ret (inl rv)
       else
         r ← deref port;
         if decide (state r = kUninitialized) then
           update port (fun r =>
             set_outgoing (outgoing_messages r ++ [message])
                          (outgoing_ports r ++ ports_taken) r);;
           ret (inl OK)
         else if decide (state r ≠ kReceiving) then check_failed
         else
           n ← get_node;
           if decide (peer_node_name r ≠ name_ n) then
             ForwardMessage (peer_node_name r) (kUser message);;
             ret (inl OK)
           else ret (inr message));
   match res with
   | inl rv => ret rv
   | inr message =>
       n ← get_node;
       let deliver := negb (is_delivering_local_messages_ n) in
       modify_node (fun n =>
         set_local (local_messages_ n ++ [kUser message])
                   (if deliver then true
                    else is_delivering_local_messages_ n) n);;
       if deliver then
         n ← get_node;
         deliver_local_messages (S (length (local_messages_ n)))
       else ret OK
   end) n.
Proof.
  intros Hnot. unfold SendMessage. rewrite bind_run, self_send_loop.
  rewrite (decide_False (P := name port_ref ∈ ports message)) by exact Hnot.
  cbv beta iota. rewrite decide_False by auto. reflexivity.
Qed.

Lemma SendMessage_wrong_state port_ref message n r :
  name port_ref ∉ ports message ->
  objects n !! port port_ref = Some r ->
  lock r = false ->
  state r <> kReceiving -> state r <> kUninitialized ->
  SendMessage port_ref message n = Done ERROR_PORT_STATE_UNEXPECTED n.
Proof.
  intros Hnot Hr Hl H1 H2. rewrite (SendMessage_checked _ _ _ Hnot).
  open_node n. open_port r. simpl in Hr, Hl, H1, H2. subst.
  unfold lock_guard, lock_lock, lock_unlock. mrun.
  rewrite list_insert_id by exact Hr. reflexivity.
Qed.

(** X1. [SendMessage] from a port that is Buffering, Proxying or Closed
    returns PortStateUnexpected, and from a Receiving port whose peer is
    known to be closed it returns PeerClosed; in both cases nothing is
    stamped, queued or forwarded: the node is left as it was. *)
Theorem X1_SendMessage_rejected (port_ref : PortRef) (message : UserMessage)
    (n : Node) (r : Port) :
  name port_ref ∉ ports message ->
  objects n !! port port_ref = Some r ->
  lock r = false ->
  (state r <> kReceiving -> state r <> kUninitialized ->
   SendMessage port_ref message n = Done ERROR_PORT_STATE_UNEXPECTED n) /\
  (state r = kReceiving -> peer_closed r = true ->
   SendMessage port_ref message n = Done ERROR_PORT_PEER_CLOSED n).
Proof.
  intros Hnot Hr Hl. split.
  - apply (SendMessage_wrong_state _ _ _ _ Hnot Hr Hl).
  - rewrite (SendMessage_checked _ _ _ Hnot).
    open_node n. open_port r. simpl in Hr, Hl. subst.
    unfold lock_guard, lock_lock, lock_unlock.
    intros H1 H2. simpl in H1, H2. subst. mrun.
    rewrite list_insert_id by exact Hr. reflexivity.
Qed.

Lemma X1_SendMessage_rejected_witness :
  SendMessage {| name := 10%N; port := 0%nat |} (example_message 0 0 [])
    (example_node [example_port kProxying 2 20 5 1 []] [(10%N, 0%nat)])
  = Done ERROR_PORT_STATE_UNEXPECTED
      (example_node [example_port kProxying 2 20 5 1 []] [(10%N, 0%nat)]).
Proof.
  apply (X1_SendMessage_rejected {| name := 10%N; port := 0%nat |}
           (example_message 0 0 []) _ (example_port kProxying 2 20 5 1 [])).
  - apply not_elem_of_nil.
  - reflexivity.
  - reflexivity.
  - discriminate.
  - discriminate.
Defined.

Lemma SendMessage_remote_run port_ref message n r :
  objects n !! port port_ref = Some r ->
  lock r = false ->
  state r = kReceiving ->
  peer_closed r = false ->
  peer_node_name r <> name_ n ->
  um_slots message = [] ->
  SendMessage port_ref message n =
  Done OK
    (set_delegate
       {| forwarded :=
            forwarded (delegate_ n) ++
            [(peer_node_name r, kUser (stamped r message))];
          status_changed := status_changed (delegate_ n);
          name_source := name_source (delegate_ n);
          names_generated := names_generated (delegate_ n) |}
       (set_objects
          (<[port port_ref :=
               set_next_sequence_num_to_send (counter_after r message OK) r]>
             (objects n)) n)).
Proof.
  intros Hr Hl Hs Hpc Hremote Hslots.
  rewrite (SendMessage_checked _ _ _
             ltac:(unfold ports; rewrite Hslots; apply not_elem_of_nil)).
  cbv zeta. unfold lock_guard, lock_lock.
  rewrite bind_run, bind_run, bind_run, (deref_run _ _ _ Hr). cbv beta iota.
  rewrite Hl, (update_run _ _ _ _ Hr). cbv beta iota.
  rewrite bind_run, bind_run. erewrite deref_run by lookup_solve.
  cbv beta iota. cbn [state peer_closed set_lock].
  rewrite decide_False by (rewrite Hs; intros [H _]; auto).
  rewrite decide_False by (rewrite Hpc; intros [_ H]; discriminate).
  rewrite bind_run.
  rewrite (WillSendMessage_Locked_no_ports _ _ _ _ (set_lock true r))
    by (simpl; eauto using insert_lookup_same).
  cbv beta iota. rewrite decide_False by auto.
  rewrite bind_run. erewrite deref_run by lookup_solve. cbv beta iota.
  cbn [state peer_node_name set_next_sequence_num_to_send set_lock].
  rewrite decide_False by (rewrite Hs; discriminate).
  rewrite decide_False by (rewrite Hs; auto).
  rewrite bind_run. unfold get_node at 1. cbv beta iota.
  cbn [name_ set_objects]. rewrite decide_True by exact Hremote.
  unfold ForwardMessage, lock_unlock. rewrite bind_run. unfold modify_node at 1.
  cbv beta iota. unfold ret at 1. rewrite bind_run.
  erewrite update_run by lookup_solve. cbv beta iota. unfold ret at 1.
  unfold ret.
  open_node n. open_port r. simpl in *. subst.
  unfold set_objects, set_delegate, set_lock, set_next_sequence_num_to_send,
    counter_after, stamped. simpl.
  rewrite !list_insert_insert_eq. reflexivity.
Qed.

(** X2. [SendMessage] of a message without ports from a Receiving port whose
    peer lives on another node: the message is handed to the delegate for
    the peer's node, addressed to the peer port; it carries the port's
    [next_sequence_num_to_send] if it carried 0 (and the counter advances by
    one), its own number otherwise (and the counter stays).  Nothing else in
    the node changes. *)
Theorem X2_SendMessage_remote (port_ref : PortRef) (message : UserMessage)
    (n : Node) (r : Port) :
  objects n !! port port_ref = Some r ->
  lock r = false ->
  state r = kReceiving ->
  peer_closed r = false ->
  peer_node_name r <> name_ n ->
  um_slots message = [] ->
  exists n',
    SendMessage port_ref message n = Done OK n' /\
    objects n' =
      <[port port_ref :=
          set_next_sequence_num_to_send (counter_after r message OK) r]>
        (objects n) /\
    forwarded (delegate_ n') =
      forwarded (delegate_ n) ++ [(peer_node_name r, kUser (stamped r message))] /\
    same_control n n'.
Proof.
  intros Hr Hl Hs Hpc Hremote Hslots.
  rewrite (SendMessage_remote_run _ _ _ _ Hr Hl Hs Hpc Hremote Hslots).
  eexists. split; [reflexivity|]. destruct n. repeat split.
Qed.

Lemma X2_SendMessage_remote_witness :
  exists n',
    SendMessage {| name := 10%N; port := 0%nat |} (example_message 0 0 [])
      (example_node [example_port kReceiving 2 20 5 1 []] [(10%N, 0%nat)])
    = Done OK n' /\
    forwarded (delegate_ n') = [(2%N, kUser (example_message 20 5 []))].
Proof.
  destruct (X2_SendMessage_remote {| name := 10%N; port := 0%nat |}
              (example_message 0 0 [])
              (example_node [example_port kReceiving 2 20 5 1 []]
                 [(10%N, 0%nat)])
              (example_port kReceiving 2 20 5 1 [])
              eq_refl eq_refl eq_refl eq_refl ltac:(discriminate) eq_refl)
    as (n' & Hrun & _ & Hf & _).
  exists n'. split; [exact Hrun|]. rewrite Hf. reflexivity.
Defined.

(** ** A closed port *)

Lemma GetMessageIf_not_receiving port_ref selector n r :
  objects n !! port port_ref = Some r ->
  lock r = false ->
  state r <> kReceiving ->
  GetMessageIf port_ref selector n = Done (ERROR_PORT_STATE_UNEXPECTED, None) n.
Proof.
  intros Hr Hl Hs. open_node n. open_port r. simpl in Hr, Hl, Hs. subst.
  unfold GetMessageIf, lock_guard, lock_lock, lock_unlock. mrun.
  rewrite list_insert_id by exact Hr. reflexivity.
Qed.

Lemma ClosePort_not_receiving port_ref n r :
  objects n !! port port_ref = Some r ->
  lock r = false ->
  state r <> kReceiving ->
  ClosePort port_ref n = Done ERROR_PORT_STATE_UNEXPECTED n.
Proof.
  intros Hr Hl Hs. open_node n. open_port r. simpl in Hr, Hl, Hs. subst.
  unfold ClosePort, lock_guard, lock_lock, lock_unlock. mrun.
  rewrite list_insert_id by exact Hr. reflexivity.
Qed.

(** X3. Closing is final.  Once [ClosePort] has succeeded, the name is no
    longer bound ([GetPort] reports PortUnknown), and every operation through
    the reference that was closed ([ClosePort] again, [GetMessageIf],
    [SendMessage]) returns PortStateUnexpected and changes nothing: in
    particular no second ObserveClosure is sent. *)
Theorem X3_closed_is_final (port_ref : PortRef) (n : Node) (r : Port) :
  objects n !! port port_ref = Some r ->
  lock r = false ->
  state r = kReceiving ->
  exists n',
    ClosePort port_ref n = Done OK n' /\
    GetPortRef (name port_ref) n' = Done (ERROR_PORT_UNKNOWN, None) n' /\
    ClosePort port_ref n' = Done ERROR_PORT_STATE_UNEXPECTED n' /\
    (forall selector,
       GetMessageIf port_ref selector n' =
       Done (ERROR_PORT_STATE_UNEXPECTED, None) n') /\
    (forall message,
       name port_ref ∉ ports message ->
       SendMessage port_ref message n' = Done ERROR_PORT_STATE_UNEXPECTED n').
Proof.
  intros Hr Hl Hs. rewrite (ClosePort_receiving_run _ _ _ Hr Hl Hs).
  eexists. split; [reflexivity|].
  set (n' := set_ports _ _).
  assert (Hr' : objects n' !! port port_ref = Some (set_state kClosed r)).
  { subst n'. simpl. eapply insert_lookup_same. exact Hr. }
  split.
  { unfold GetPortRef. rewrite bind_run, GetPort_run. subst n'. simpl.
    rewrite lookup_delete_eq. reflexivity. }
  split; [apply (ClosePort_not_receiving _ _ _ Hr' Hl); discriminate|].
  split.
  { intros selector.
    apply (GetMessageIf_not_receiving _ _ _ _ Hr' Hl). discriminate. }
  intros message Hnot.
  apply (SendMessage_wrong_state _ _ _ _ Hnot Hr' Hl); discriminate.
Qed.

(** ** ObserveProxyAck and ObserveClosure: the other branches *)

(** X4. ObserveProxyAck carrying the invalid sequence number makes a proxy
    send its ObserveProxy again, to its current peer, and leaves its record
    and the port map as they were; for a name that is not bound the handler
    returns PortUnknown and changes nothing. *)
Theorem X4_OnObserveProxyAck_other (port_name : PortName) (n : Node) :
  (ports_ n !! port_name = None ->
   forall last_sequence_num,
     OnObserveProxyAck port_name last_sequence_num n
     = Done ERROR_PORT_UNKNOWN n) /\
  (forall p r,
     ports_ n !! port_name = Some p ->
     objects n !! p = Some r ->
     lock r = false ->
     state r = kProxying ->
     exists n',
       OnObserveProxyAck port_name kInvalidSequenceNum n = Done OK n' /\
       objects n' = objects n /\ ports_ n' = ports_ n /\
       forwarded (delegate_ n') =
         forwarded (delegate_ n) ++
         [(peer_node_name r,
           Internal (peer_port_name r)
             (kObserveProxy
                {| proxy_node_name := name_ n;
                   proxy_port_name := port_name;
                   proxy_to_node_name := peer_node_name r;
                   proxy_to_port_name := peer_port_name r |}))] /\
       status_changed (delegate_ n') = status_changed (delegate_ n) /\
       oops_log n' = oops_log n).
Proof.
  split.
  - intros Hnone last_sequence_num. unfold OnObserveProxyAck.
    rewrite bind_run, GetPort_run, Hnone. reflexivity.
  - intros p r Hp Hr Hl Hs. open_node n. open_port r.
    simpl in Hp, Hr, Hl, Hs. subst.
    unfold OnObserveProxyAck, GetPort. mrun. rewrite Hp.
    unfold lock_guard, lock_lock, lock_unlock, InitiateProxyRemoval_Locked,
      ForwardMessage, NewInternalMessage.
    mrun. rewrite list_insert_id by exact Hr.
    eexists. split; [reflexivity|]. simpl. auto.
Qed.

(** X5. ObserveClosure at a port that is not Receiving.  A proxy records the
    closure ([peer_closed], [last_sequence_num_to_receive],
    [remove_proxy_on_last_message]), passes the ObserveClosure on to the peer
    it had, unchanged, and is erased from the port map exactly when the last
    expected number is the one its queue has just passed (its deferred
    message, if any, going out before the ObserveClosure).  A Buffering port
    only records the closure: nothing is sent and nobody is notified.  For a
    name that is not bound the handler returns OK and does nothing. *)
Theorem X5_OnObserveClosure_not_receiving (port_name : PortName)
    (last_sequence_num : Z) (n : Node) :
  (ports_ n !! port_name = None ->
   OnObserveClosure port_name last_sequence_num n = Done OK n) /\
  (forall p r,
     ports_ n !! port_name = Some p ->
     objects n !! p = Some r ->
     lock r = false ->
     let r' := set_remove_proxy_on_last_message true
                 (set_last_sequence_num_to_receive last_sequence_num
                    (set_peer_closed true r)) in
     (state r = kProxying ->
      exists n',
        OnObserveClosure port_name last_sequence_num n = Done OK n' /\
        objects n' = <[p := r']> (objects n) /\
        status_changed (delegate_ n') = status_changed (delegate_ n) /\
        if decide (last_sequence_num =
                   wrap64 (MessageQueue.next_sequence_num (message_queue r) - 1))
        then
          ports_ n' = delete port_name (ports_ n) /\
          forwarded (delegate_ n') =
            forwarded (delegate_ n) ++
            match send_on_proxy_removal r with
            | Some deferred => [deferred]
            | None => []
            end ++
            [(peer_node_name r,
              Internal (peer_port_name r) (kObserveClosure last_sequence_num))]
        else
          ports_ n' = ports_ n /\
          forwarded (delegate_ n') =
            forwarded (delegate_ n) ++
            [(peer_node_name r,
              Internal (peer_port_name r) (kObserveClosure last_sequence_num))]) /\
     (state r <> kProxying -> state r <> kReceiving ->
      exists n',
        OnObserveClosure port_name last_sequence_num n = Done OK n' /\
        objects n' = <[p := r']> (objects n) /\
        ports_ n' = ports_ n /\
        forwarded (delegate_ n') = forwarded (delegate_ n) /\
        status_changed (delegate_ n') = status_changed (delegate_ n))).
Proof.
  split.
  - intros Hnone. unfold OnObserveClosure.
    rewrite bind_run, GetPort_run, Hnone. reflexivity.
  - intros p r Hp Hr Hl r'. subst r'. open_node n. open_port r.
    simpl in Hp, Hr, Hl. subst. split.
    + intros Hs. simpl in Hs. subst.
      unfold OnObserveClosure, GetPort. mrun. rewrite Hp.
      unfold lock_guard, lock_lock, lock_unlock, MaybeRemoveProxy_Locked,
        CanAcceptMoreMessages.
      mrun.
      destruct (decide (last_sequence_num =
                        wrap64 (MessageQueue.next_sequence_num r_q - 1)))
        as [He|Hne].
      * rewrite <- He, Z.eqb_refl. unfold ErasePort.
        destruct r_deferred as [[to_node message]|];
          unfold ForwardMessage, NewInternalMessage; mrun;
          eexists; (split; [reflexivity|]); simpl;
          rewrite <- ?app_assoc; auto.
      * apply Z.eqb_neq in Hne. rewrite Hne.
        unfold ForwardMessage, NewInternalMessage. mrun.
        eexists. split; [reflexivity|]. simpl. auto.
    + intros Hs1 Hs2. simpl in Hs1, Hs2.
      unfold OnObserveClosure, GetPort. mrun. rewrite Hp.
      unfold lock_guard, lock_lock, lock_unlock. mrun.
      eexists. split; [reflexivity|]. simpl. auto.
Qed.

Lemma X5_OnObserveClosure_not_receiving_witness :
  exists n',
    OnObserveClosure 10 4
      (example_node [example_port kProxying 2 20 1 5 []] [(10%N, 0%nat)])
    = Done OK n' /\
    ports_ n' !! 10%N = None /\
    forwarded (delegate_ n') = [(2%N, Internal 20%N (kObserveClosure 4))].
Proof.
  destruct (X5_OnObserveClosure_not_receiving 10 4
              (example_node [example_port kProxying 2 20 1 5 []]
                 [(10%N, 0%nat)])) as [_ H].
  destruct (H 0%nat (example_port kProxying 2 20 1 5 [])
              eq_refl eq_refl eq_refl) as [H1 _].
  destruct (H1 eq_refl) as (n' & Hrun & _ & _ & Hif).
  rewrite decide_True in Hif by reflexivity. destruct Hif as [Hp Hf].
  exists n'. split; [exact Hrun|]. rewrite Hp, Hf. split; reflexivity.
Defined.

Lemma X4_OnObserveProxyAck_other_witness :
  exists n',
    OnObserveProxyAck 10 kInvalidSequenceNum
      (example_node [example_port kProxying 2 20 1 5 []] [(10%N, 0%nat)])
    = Done OK n' /\
    forwarded (delegate_ n') =
      [(2%N, Internal 20%N
               (kObserveProxy {| proxy_node_name := 1; proxy_port_name := 10;
                                 proxy_to_node_name := 2;
                                 proxy_to_port_name := 20 |}))].
Proof.
  destruct (X4_OnObserveProxyAck_other 10
              (example_node [example_port kProxying 2 20 1 5 []]
                 [(10%N, 0%nat)])) as [_ H].
  destruct (H 0%nat (example_port kProxying 2 20 1 5 [])
              eq_refl eq_refl eq_refl eq_refl) as (n' & Hrun & _ & _ & Hf & _).
  exists n'. split; [exact Hrun|]. rewrite Hf. reflexivity.
Defined.

Lemma X3_closed_is_final_witness :
  exists n',
    ClosePort {| name := 10%N; port := 0%nat |}
      (example_node [example_port kReceiving 2 20 5 1 []] [(10%N, 0%nat)])
    = Done OK n' /\
    ClosePort {| name := 10%N; port := 0%nat |} n'
    = Done ERROR_PORT_STATE_UNEXPECTED n'.
Proof.
  destruct (X3_closed_is_final {| name := 10%N; port := 0%nat |}
              (example_node [example_port kReceiving 2 20 5 1 []]
                 [(10%N, 0%nat)])
              (example_port kReceiving 2 20 5 1 [])
              eq_refl eq_refl eq_refl) as (n' & H1 & _ & H2 & _).
  exists n'. split; assumption.
Defined.

(** ** Creating and initializing ports *)

Ltac proj_cbv :=
  cbv beta iota delta
      [lock state peer_node_name peer_port_name next_sequence_num_to_send
       last_sequence_num_to_receive message_queue send_on_proxy_removal
       remove_proxy_on_last_message peer_closed outgoing_messages
       outgoing_ports set_lock set_state set_peer set_peer_node_name
       set_next_sequence_num_to_send set_last_sequence_num_to_receive
       set_message_queue set_send_on_proxy_removal
       set_remove_proxy_on_last_message set_peer_closed set_outgoing
       name_ delegate_ objects ports_ local_messages_
       is_delivering_local_messages_ oops_log set_delegate set_objects
       set_ports set_local set_oops_log forwarded status_changed name_source
       names_generated].

Lemma update_alter q f n r :
  objects n !! q = Some r ->
  update q f n = Done tt (set_objects (alter f q (objects n)) n).
Proof.
  intros Hq. rewrite (update_run _ _ _ _ Hq). do 2 f_equal.
  revert q Hq. induction (objects n) as [|x o IH]; intros [|q] Hq;
    try discriminate; simpl in *.
  - injection Hq as ->. reflexivity.
  - f_equal. apply IH. exact Hq.
Qed.

Lemma for_each_update f (ps : list PortPtr) :
  forall n,
    Forall (fun q => q < length (objects n))%nat ps ->
    for_each (fun q => update q f) ps n =
    Done tt (set_objects (foldl (fun o q => alter f q o) (objects n) ps) n).
Proof.
  induction ps as [|q ps IH]; intros n Hall; cbn [for_each foldl].
  - unfold ret. destruct n; reflexivity.
  - inversion Hall as [|? ? Hq Hps]; subst.
    destruct (lookup_lt_is_Some_2 _ _ Hq) as [r Hr].
    rewrite bind_run, (update_alter _ _ _ _ Hr). cbv beta iota.
    rewrite IH.
    + destruct n; reflexivity.
    + simpl. rewrite length_alter. exact Hps.
Qed.

Lemma foldl_alter_lookup (f : Port -> Port) (ps : list PortPtr) :
  (forall x, f (f x) = f x) ->
  forall (o : list Port) q,
    foldl (fun o q => alter f q o) o ps !! q =
    if decide (q ∈ ps) then f <$> o !! q else o !! q.
Proof.
  intros Hidem. induction ps as [|p ps IH]; intros o q; cbn [foldl].
  - rewrite decide_False by apply not_elem_of_nil. reflexivity.
  - rewrite IH. destruct (decide (p = q)) as [->|Hne].
    + rewrite list_lookup_alter_eq.
      rewrite (decide_True (P := q ∈ q :: ps)) by (left).
      destruct (decide (q ∈ ps)); [|reflexivity].
      destruct (o !! q); simpl; [rewrite Hidem|]; reflexivity.
    + rewrite list_lookup_alter_ne by exact Hne.
      destruct (decide (q ∈ ps)) as [Hin|Hnin].
      * rewrite decide_True by (right; exact Hin). reflexivity.
      * rewrite decide_False; [reflexivity|].
        intros [E|H]%elem_of_cons; [congruence|contradiction].
Qed.

Lemma foldl_alter_length (f : Port -> Port) (ps : list PortPtr)
    (o : list Port) :
  length (foldl (fun o q => alter f q o) o ps) = length o.
Proof.
  revert o. induction ps as [|p ps IH]; intros o; cbn [foldl]; [reflexivity|].
  rewrite IH. apply length_alter.
Qed.

Lemma for_each_forward {A} (to : A -> NodeName) (msg : A -> Message)
    (l : list A) :
  forall n,
    for_each (fun x => ForwardMessage (to x) (msg x)) l n =
    Done tt
      (set_delegate
         {| forwarded :=
              forwarded (delegate_ n) ++ map (fun x => (to x, msg x)) l;
            status_changed := status_changed (delegate_ n);
            name_source := name_source (delegate_ n);
            names_generated := names_generated (delegate_ n) |} n).
Proof.
  induction l as [|x l IH]; intros n; cbn [for_each map].
  - rewrite app_nil_r. destruct n as [? [? ? ? ?] ? ? ? ? ?]. reflexivity.
  - rewrite bind_run. unfold ForwardMessage at 1, modify_node.
    cbv beta iota. rewrite IH.
    destruct n as [? [? ? ? ?] ? ? ? ? ?]. simpl.
    rewrite <- app_assoc. reflexivity.
Qed.

Lemma InitializePort_run (port_ref : PortRef) (peer_node : NodeName)
    (peer_port : PortName) (n : Node) (r : Port) :
  objects n !! port port_ref = Some r ->
  lock r = false ->
  (state r <> kUninitialized ->
   InitializePort port_ref peer_node peer_port n
   = Done ERROR_PORT_STATE_UNEXPECTED n) /\
  (state r = kUninitialized ->
   Forall (fun q => q <> port port_ref /\ (q < length (objects n))%nat)
          (outgoing_ports r) ->
   exists n',
     InitializePort port_ref peer_node peer_port n = Done OK n' /\
     objects n' !! port port_ref =
       Some (set_outgoing [] []
               (set_peer peer_node peer_port (set_state kReceiving r))) /\
     (forall q, q <> port port_ref ->
        objects n' !! q =
        if decide (q ∈ outgoing_ports r)
        then set_peer_node_name peer_node <$> objects n !! q
        else objects n !! q) /\
     forwarded (delegate_ n') =
       forwarded (delegate_ n) ++
       map (fun m => (peer_node, kUser (readdressed peer_port m)))
           (outgoing_messages r) /\
     status_changed (delegate_ n') = status_changed (delegate_ n) ++ [port_ref] /\
     ports_ n' = ports_ n).
Proof.
  intros Hr Hl. split.
  - intros Hs. open_node n. open_port r. simpl in Hr, Hl, Hs. subst.
    unfold InitializePort, lock_guard, lock_lock, lock_unlock. mrun.
    rewrite list_insert_id by exact Hr. reflexivity.
  - intros Hs Hops. open_node n. open_port r. simpl in Hr, Hl, Hs, Hops. subst.
    unfold InitializePort, lock_guard, lock_lock, lock_unlock,
      FlushOutgoingMessages_Locked, PortStatusChanged.
    mrun.
    rewrite for_each_update.
    2:{ simpl. rewrite length_insert. eapply Forall_impl; [exact Hops|].
        intros q [_ Hq]. exact Hq. }
    proj_cbv. rewrite ?list_insert_insert_eq.
    set (mid := {| lock := true; state := kReceiving;
                   peer_node_name := peer_node; peer_port_name := peer_port;
                   next_sequence_num_to_send := r_ns;
                   last_sequence_num_to_receive := r_last;
                   message_queue := r_q; send_on_proxy_removal := r_deferred;
                   remove_proxy_on_last_message := r_remove;
                   peer_closed := r_closed; outgoing_messages := r_om;
                   outgoing_ports := [] |}).
    set (o1 := foldl _ _ _).
    assert (Hmid : o1 !! port port_ref = Some mid).
    { subst o1.
      rewrite foldl_alter_lookup by (intros []; reflexivity).
      rewrite decide_False.
      - eapply insert_lookup_same. exact Hr.
      - intros Hin. rewrite Forall_forall in Hops.
        destruct (Hops _ Hin) as [Hne _]. apply Hne. reflexivity. }
    cbv beta iota. proj_simpl.
    rewrite bind_run. erewrite deref_run by (proj_simpl; exact Hmid).
    cbv beta iota. rewrite bind_run, for_each_forward. cbv beta iota.
    proj_simpl.
    erewrite update_run by (proj_simpl; exact Hmid). cbv beta iota.
    proj_simpl. rewrite bind_run.
    erewrite update_run by (proj_simpl; eapply insert_lookup_same; exact Hmid).
    cbv beta iota. proj_simpl. rewrite list_insert_insert_eq.
    mrun. eexists. split; [reflexivity|]. proj_simpl.
    split.
    { erewrite insert_lookup_same by exact Hmid. reflexivity. }
    split.
    { intros q Hne. rewrite list_lookup_insert_ne by auto.
      subst o1. rewrite foldl_alter_lookup by (intros []; reflexivity).
      rewrite list_lookup_insert_ne by auto. reflexivity. }
    auto.
Qed.

(** X6. [InitializePort] on an Uninitialized port makes it Receiving with
    the given peer, hands the messages parked in [outgoing_messages] to the
    delegate for the peer's node, in the order they were sent and readdressed
    to the peer port, sets the peer node of every port those messages carry
    away ([outgoing_ports]) to that node, and notifies the delegate once.
    On a port in any other state it returns PortStateUnexpected and changes
    nothing. *)
Theorem X6_InitializePort (port_ref : PortRef) (peer_node : NodeName)
    (peer_port : PortName) (n : Node) (r : Port) :
  objects n !! port port_ref = Some r ->
  lock r = false ->
  (state r <> kUninitialized ->
   InitializePort port_ref peer_node peer_port n
   = Done ERROR_PORT_STATE_UNEXPECTED n) /\
  (state r = kUninitialized ->
   Forall (fun q => q <> port port_ref /\ (q < length (objects n))%nat)
          (outgoing_ports r) ->
   exists n',
     InitializePort port_ref peer_node peer_port n = Done OK n' /\
     objects n' !! port port_ref =
       Some (set_outgoing [] []
               (set_peer peer_node peer_port (set_state kReceiving r))) /\
     (forall q, q <> port port_ref ->
        objects n' !! q =
        if decide (q ∈ outgoing_ports r)
        then set_peer_node_name peer_node <$> objects n !! q
        else objects n !! q) /\
     forwarded (delegate_ n') =
       forwarded (delegate_ n) ++
       map (fun m => (peer_node, kUser (readdressed peer_port m)))
           (outgoing_messages r) /\
     status_changed (delegate_ n') = status_changed (delegate_ n) ++ [port_ref] /\
     ports_ n' = ports_ n).
Proof. apply InitializePort_run. Qed.


Lemma X6_InitializePort_witness :
  exists n',
    InitializePort {| name := 10%N; port := 0%nat |} 2 20
      (example_node
         [set_outgoing [example_message 0 1 []; example_message 0 2 []] []
            (example_port kUninitialized 0 0 3 1 [])]
         [(10%N, 0%nat)])
    = Done OK n' /\
    forwarded (delegate_ n') =
      [(2%N, kUser (example_message 20 1 []));
       (2%N, kUser (example_message 20 2 []))].
Proof.
  destruct (X6_InitializePort {| name := 10%N; port := 0%nat |} 2 20
              (example_node
                 [set_outgoing [example_message 0 1 []; example_message 0 2 []]
                    [] (example_port kUninitialized 0 0 3 1 [])]
                 [(10%N, 0%nat)])
              _ eq_refl eq_refl) as [_ H].
  destruct (H eq_refl ltac:(constructor)) as (n' & Hrun & _ & _ & Hf & _).
  exists n'. split; [exact Hrun|]. rewrite Hf. reflexivity.
Defined.

(** X7. [SendMessage] of a message without ports from an Uninitialized port
    parks it: the message is stamped as on any send and appended to
    [outgoing_messages], and nothing is handed to the delegate.  When the
    port is initialized afterwards the parked messages go out to the peer, the
    new one last. *)
Theorem X7_SendMessage_uninitialized (port_ref : PortRef)
    (message : UserMessage) (n : Node) (r : Port) :
  objects n !! port port_ref = Some r ->
  lock r = false ->
  state r = kUninitialized ->
  um_slots message = [] ->
  Forall (fun q => q <> port port_ref /\ (q < length (objects n))%nat)
         (outgoing_ports r) ->
  exists n',
    SendMessage port_ref message n = Done OK n' /\
    objects n' =
      <[port port_ref :=
          set_outgoing (outgoing_messages r ++ [stamped r message])
            (outgoing_ports r)
            (set_next_sequence_num_to_send (counter_after r message OK) r)]>
        (objects n) /\
    forwarded (delegate_ n') = forwarded (delegate_ n) /\
    same_control n n' /\
    forall peer_node peer_port,
    exists n'',
      InitializePort port_ref peer_node peer_port n' = Done OK n'' /\
      forwarded (delegate_ n'') =
        forwarded (delegate_ n) ++
        map (fun m => (peer_node, kUser (readdressed peer_port m)))
            (outgoing_messages r ++ [stamped r message]).
Proof.
  intros Hr Hl Hs Hslots Hops.
  assert (Hrun : SendMessage port_ref message n =
            Done OK
              (set_objects
                 (<[port port_ref :=
                      set_outgoing (outgoing_messages r ++ [stamped r message])
                        (outgoing_ports r)
                        (set_next_sequence_num_to_send
                           (counter_after r message OK) r)]> (objects n)) n)).
  { rewrite (SendMessage_checked _ _ _
               ltac:(unfold ports; rewrite Hslots; apply not_elem_of_nil)).
    cbv zeta. unfold lock_guard, lock_lock.
    rewrite bind_run, bind_run, bind_run, (deref_run _ _ _ Hr). cbv beta iota.
    rewrite Hl, (update_run _ _ _ _ Hr). cbv beta iota.
    rewrite bind_run, bind_run. erewrite deref_run by lookup_solve.
    cbv beta iota. cbn [state peer_closed set_lock].
    rewrite decide_False by (rewrite Hs; intros [_ H]; auto).
    rewrite decide_False by (rewrite Hs; intros [H _]; discriminate).
    rewrite bind_run.
    rewrite (WillSendMessage_Locked_no_ports _ _ _ _ (set_lock true r))
      by (simpl; eauto using insert_lookup_same).
    cbv beta iota. rewrite decide_False by auto.
    rewrite bind_run. erewrite deref_run by lookup_solve. cbv beta iota.
    cbn [state set_next_sequence_num_to_send set_lock].
    rewrite decide_True by exact Hs.
    rewrite bind_run. erewrite update_run by lookup_solve. cbv beta iota.
    unfold ret at 1. unfold lock_unlock. rewrite bind_run.
    erewrite update_run by lookup_solve. cbv beta iota. unfold ret.
    open_node n. open_port r. simpl in *. subst.
    unfold set_objects, set_lock, set_outgoing, set_next_sequence_num_to_send,
      counter_after, stamped. simpl.
    rewrite !list_insert_insert_eq, app_nil_r. reflexivity. }
  rewrite Hrun. eexists. split; [reflexivity|].
  split; [reflexivity|]. split; [destruct n; reflexivity|].
  split; [repeat split|].
  intros peer_node peer_port.
  edestruct (InitializePort_run port_ref peer_node peer_port
               (set_objects
                  (<[port port_ref :=
                       set_outgoing (outgoing_messages r ++ [stamped r message])
                         (outgoing_ports r)
                         (set_next_sequence_num_to_send
                            (counter_after r message OK) r)]> (objects n)) n))
    as [_ H].
  - simpl. eapply insert_lookup_same. exact Hr.
  - exact Hl.
  - destruct (H Hs) as (n'' & Hrun' & _ & _ & Hf & _).
    + simpl. rewrite length_insert. exact Hops.
    + exists n''. split; [exact Hrun'|]. rewrite Hf. destruct n; reflexivity.
Qed.

Lemma X7_SendMessage_uninitialized_witness :
  exists n' n'',
    SendMessage {| name := 10%N; port := 0%nat |} (example_message 0 0 [])
      (example_node [example_port kUninitialized 0 0 1 1 []] [(10%N, 0%nat)])
    = Done OK n' /\
    InitializePort {| name := 10%N; port := 0%nat |} 2 20 n' = Done OK n'' /\
    forwarded (delegate_ n'') = [(2%N, kUser (example_message 20 1 []))].
Proof.
  destruct (X7_SendMessage_uninitialized {| name := 10%N; port := 0%nat |}
              (example_message 0 0 [])
              (example_node [example_port kUninitialized 0 0 1 1 []]
                 [(10%N, 0%nat)])
              _ eq_refl eq_refl eq_refl eq_refl ltac:(constructor))
    as (n' & Hrun & _ & _ & _ & H).
  destruct (H 2%N 20%N) as (n'' & Hrun' & Hf).
  exists n', n''. split; [exact Hrun|]. split; [exact Hrun'|].
  rewrite Hf. reflexivity.
Defined.

(** ** CreatePortPair *)

(** X8. [CreatePortPair] asks the delegate for two names.  When both are new
    to the port map and differ, it appends two records to the store, each
    Receiving with the other one's name on this node as its peer and both
    counters at the initial sequence number, registers them under the two
    names, reports a status change for the first and then the second, and
    forwards nothing. *)
Theorem X8_CreatePortPair (n : Node) :
  let d := delegate_ n in
  let a := name_source d (names_generated d) in
  let b := name_source d (S (names_generated d)) in
  let p0 := length (objects n) in
  let ref0 := {| name := a; port := p0 |} in
  let ref1 := {| name := b; port := S p0 |} in
  ports_ n !! a = None -> a <> b -> ports_ n !! b = None ->
  exists n',
    CreatePortPair n = Done (OK, Some (ref0, ref1)) n' /\
    objects n' =
      objects n ++ [pair_port (name_ n) b; pair_port (name_ n) a] /\
    ports_ n' = <[b := S p0]> (<[a := p0]> (ports_ n)) /\
    status_changed (delegate_ n') = status_changed d ++ [ref0; ref1] /\
    forwarded (delegate_ n') = forwarded d /\
    names_generated (delegate_ n') = S (S (names_generated d)) /\
    oops_log n' = oops_log n.
Proof.
  open_node n. cbv zeta. proj_simpl.
  intros Ha Hab Hb.
  unfold CreatePortPair, CreateUninitializedPort, GenerateRandomPortName,
    make_shared, AddPortWithName.
  mrun. rewrite Ha. mrun.
  rewrite lookup_insert_ne by congruence. rewrite Hb. mrun.
  unfold InitializePort, lock_guard, lock_lock, lock_unlock,
    FlushOutgoingMessages_Locked, PortStatusChanged, new_Port.
  assert (H0 : forall x y : Port,
             (n_objs ++ [x]) ++ [y] = n_objs ++ [x; y])
    by (intros; rewrite <- app_assoc; reflexivity).
  rewrite ?length_app. cbn [length]. rewrite ?Nat.add_1_r, ?H0.
  assert (L0 : forall x y : Port,
             (n_objs ++ [x; y]) !! length n_objs = Some x)
    by (intros; apply list_lookup_middle; reflexivity).
  assert (L1 : forall x y : Port,
             (n_objs ++ [x; y]) !! S (length n_objs) = Some y).
  { intros. rewrite lookup_app_r by lia.
    replace (S (length n_objs) - length n_objs)%nat with 1%nat by lia.
    reflexivity. }
  assert (I0 : forall x y z : Port,
             <[length n_objs := z]> (n_objs ++ [x; y]) = n_objs ++ [z; y]).
  { intros. rewrite insert_app_r_alt by lia.
    replace (length n_objs - length n_objs)%nat with 0%nat by lia.
    reflexivity. }
  assert (I1 : forall x y z : Port,
             <[S (length n_objs) := z]> (n_objs ++ [x; y]) = n_objs ++ [x; z]).
  { intros. rewrite insert_app_r_alt by lia.
    replace (S (length n_objs) - length n_objs)%nat with 1%nat by lia.
    reflexivity. }
  repeat first
    [ rewrite bind_run
    | erewrite deref_run by (proj_simpl; first [apply L0 | apply L1])
    | erewrite update_run by (proj_simpl; first [apply L0 | apply L1])
    | rewrite I0 | rewrite I1
    | progress (unfold ret, get_node, modify_node, stuck)
    | progress (cbv beta iota)
    | progress proj_simpl
    | progress (cbn [for_each])
    | rewrite decide_True by dec_solve
    | rewrite decide_False by dec_solve ].
  eexists. split; [reflexivity|]. proj_simpl.
  repeat split. rewrite <- app_assoc. reflexivity.
Qed.

Lemma X8_CreatePortPair_witness :
  exists n',
    CreatePortPair (example_node [] []) =
      Done (OK, Some ({| name := 1000%N; port := 0%nat |},
                      {| name := 1001%N; port := 1%nat |})) n' /\
    objects n' = [pair_port 1 1001; pair_port 1 1000].
Proof.
  destruct (X8_CreatePortPair (example_node [] []) eq_refl
              ltac:(discriminate) eq_refl) as (n' & Hrun & Ho & _).
  exists n'. split; [exact Hrun | exact Ho].
Defined.

(** ** User messages arriving at a port *)

Lemma CanAcceptMoreMessages_set_lock b r :
  CanAcceptMoreMessages (set_lock b r) = CanAcceptMoreMessages r.
Proof. reflexivity. Qed.

Lemma OnUserMessage_dropped message n p r :
  ports_ n !! um_port_name message = Some p ->
  objects n !! p = Some r ->
  lock r = false ->
  um_slots message = [] ->
  CanAcceptMoreMessages r = false ->
  OnUserMessage message n = Done OK n.
Proof.
  intros Hn Hp Hl Hslots Hcan.
  destruct message as [mp ms msl mpl]. simpl in Hn, Hslots. subst msl.
  open_node n. simpl in Hn, Hp.
  unfold OnUserMessage, GetPort, lock_guard, lock_lock, lock_unlock, ports.
  cbn [um_port_name um_slots for_each_ok fmap list_fmap].
  mrun. rewrite Hn. mrun. rewrite Hl. mrun.
  rewrite CanAcceptMoreMessages_set_lock, Hcan. mrun. cbn [for_each]. mrun.
  rewrite list_insert_id; [reflexivity|].
  rewrite Hp. destruct r; simpl in Hl; subst; reflexivity.
Qed.

Lemma OnUserMessage_endpoint_run message n p r :
  ports_ n !! um_port_name message = Some p ->
  objects n !! p = Some r ->
  lock r = false ->
  state r <> kProxying ->
  um_slots message = [] ->
  CanAcceptMoreMessages r = true ->
  OnUserMessage message n =
  Done OK
    (set_delegate
       {| forwarded := forwarded (delegate_ n);
          status_changed :=
            status_changed (delegate_ n) ++
            (if (MessageQueue.AcceptMessage message (message_queue r)).2 &&
                negb (bool_decide (state r = kBuffering))
             then [{| name := um_port_name message; port := p |}] else []);
          name_source := name_source (delegate_ n);
          names_generated := names_generated (delegate_ n) |}
       (set_objects
          (<[p := set_message_queue
                    (MessageQueue.AcceptMessage message (message_queue r)).1
                    r]> (objects n)) n)).
Proof.
  intros Hn Hp Hl Hs Hslots Hcan.
  destruct message as [mp ms msl mpl]. simpl in Hn, Hslots. subst msl.
  open_node n. simpl in Hn, Hp.
  unfold OnUserMessage, GetPort, lock_guard, lock_lock, lock_unlock, ports,
    PortStatusChanged.
  cbn [um_port_name um_slots for_each_ok fmap list_fmap].
  mrun. rewrite Hn. mrun. rewrite Hl. mrun.
  rewrite CanAcceptMoreMessages_set_lock, Hcan.
  destruct (MessageQueue.AcceptMessage _ (message_queue r))
    as [q has_next] eqn:Hacc.
  assert (Hfin : forall q, set_lock false (set_message_queue q (set_lock true r))
                      = set_message_queue q r)
    by (intros; destruct r; simpl in Hl; subst; reflexivity).
  mrun.
  destruct (decide (state r = kBuffering)) as [Hb|Hb].
  - mrun. rewrite bool_decide_eq_true_2 by exact Hb.
    rewrite andb_false_r, app_nil_r, Hfin. reflexivity.
  - mrun. rewrite bool_decide_eq_false_2 by exact Hb.
    rewrite andb_true_r, ?Hfin. destruct has_next; mrun; rewrite ?Hfin.
    + reflexivity.
    + rewrite app_nil_r. reflexivity.
Qed.

(** X9. A user message without ports arriving for a port that is registered
    and not a proxy: once the port has seen its last expected message the
    new one is dropped and nothing changes; otherwise it is put into the
    port's queue, nothing is forwarded, and the delegate is told of a status
    change exactly when the queue reports a next message and the port is not
    Buffering. *)
Theorem X9_OnUserMessage_endpoint (message : UserMessage) (n : Node)
    (p : PortPtr) (r : Port) :
  ports_ n !! um_port_name message = Some p ->
  objects n !! p = Some r ->
  lock r = false ->
  state r <> kProxying ->
  um_slots message = [] ->
  (CanAcceptMoreMessages r = false -> OnUserMessage message n = Done OK n) /\
  (CanAcceptMoreMessages r = true ->
   let accepted := MessageQueue.AcceptMessage message (message_queue r) in
   exists n',
     OnUserMessage message n = Done OK n' /\
     objects n' = <[p := set_message_queue accepted.1 r]> (objects n) /\
     status_changed (delegate_ n') =
       status_changed (delegate_ n) ++
       (if accepted.2 && negb (bool_decide (state r = kBuffering))
        then [{| name := um_port_name message; port := p |}] else []) /\
     forwarded (delegate_ n') = forwarded (delegate_ n) /\
     ports_ n' = ports_ n /\
     oops_log n' = oops_log n).
Proof.
  intros Hn Hp Hl Hs Hslots. split; intros Hcan.
  - eapply OnUserMessage_dropped; eauto.
  - cbv zeta. erewrite OnUserMessage_endpoint_run by eauto.
    eexists. split; [reflexivity|]. destruct n; repeat split.
Qed.

Lemma X9_OnUserMessage_endpoint_witness :
  exists n',
    OnUserMessage (example_message 10 5 [])
      (example_node [example_port kReceiving 2 20 1 5 []] [(10%N, 0%nat)])
    = Done OK n' /\
    objects n' =
      [example_port kReceiving 2 20 1 5 [example_message 10 5 []]] /\
    status_changed (delegate_ n') = [{| name := 10%N; port := 0%nat |}].
Proof.
  destruct (X9_OnUserMessage_endpoint (example_message 10 5 [])
              (example_node [example_port kReceiving 2 20 1 5 []]
                 [(10%N, 0%nat)])
              0%nat (example_port kReceiving 2 20 1 5 [])
              eq_refl eq_refl eq_refl ltac:(discriminate) eq_refl) as [_ H].
  destruct (H eq_refl) as (n' & Hrun & Ho & Hs & _).
  exists n'. split; [exact Hrun|]. rewrite Ho, Hs. split; reflexivity.
Defined.

(** The loop of [ForwardMessages_Locked] over queued messages that carry no
    ports and have their sequence numbers: the in-order ones are handed to
    the delegate readdressed to the peer, and the queue is left drained. *)
Lemma ForwardMessages_loop_run fuel p port_name n r :
  objects n !! p = Some r ->
  Forall (fun m => um_slots m = [] /\ sequence_num m <> 0)
         (MessageQueue.heap_ (message_queue r)) ->
  (length (MessageQueue.heap_ (message_queue r)) < fuel)%nat ->
  ForwardMessages_loop fuel p port_name n =
  Done OK
    (set_delegate
       {| forwarded :=
            forwarded (delegate_ n) ++
            map (fun m => (peer_node_name r,
                           kUser (readdressed (peer_port_name r) m)))
                (in_order (MessageQueue.next_sequence_num_ (message_queue r))
                          (MessageQueue.heap_ (message_queue r)));
          status_changed := status_changed (delegate_ n);
          name_source := name_source (delegate_ n);
          names_generated := names_generated (delegate_ n) |}
       (set_objects
          (<[p := set_message_queue (drained (message_queue r)) r]>
             (objects n)) n)).
Proof.
  revert n r. induction fuel as [|fuel IH]; intros n r Hp Hall Hlen; [lia|].
  cbn [ForwardMessages_loop]. rewrite bind_run, (deref_run _ _ _ Hp).
  cbv beta iota.
  destruct (MessageQueue.GetNextMessageIf None (message_queue r))
    as [[m|] q] eqn:Hget.
  - destruct (GetNextMessageIf_null_Some _ _ _ Hget) as (Hin & Hdr & Hh & _).
    rewrite Hh in Hall, Hlen. inversion Hall as [|? ? [Hm Hnz] Hrest]; subst.
    rewrite bind_run, (update_run _ _ _ _ Hp). cbv beta iota.
    rewrite bind_run.
    rewrite (WillSendMessage_Locked_no_ports _ _ _ _ (set_message_queue q r))
      by (simpl; eauto using insert_lookup_same).
    cbv beta iota. rewrite decide_False by auto.
    rewrite bind_run. erewrite deref_run by lookup_solve. cbv beta iota.
    rewrite bind_run. unfold ForwardMessage at 1, modify_node. cbv beta iota.
    unfold counter_after, stamped.
    rewrite !(decide_False (P := sequence_num m = 0)) by exact Hnz.
    rewrite decide_True by reflexivity.
    rewrite set_next_sequence_num_to_send_id.
    rewrite (IH _ (set_message_queue q r)).
    + rewrite Hin, Hdr. open_node n. proj_simpl.
      rewrite !list_insert_insert_eq. cbn [map]. rewrite <- app_assoc.
      open_port r. reflexivity.
    + proj_simpl. eapply insert_lookup_same. eapply insert_lookup_same. eauto.
    + exact Hrest.
    + simpl in *. lia.
  - rewrite bind_run, (update_run _ _ _ _ Hp). cbv beta iota.
    destruct (GetNextMessageIf_null_None _ _ Hget) as (-> & Hin & Hdr).
    rewrite Hin, Hdr. cbn [map]. rewrite app_nil_r. unfold ret.
    open_node n. reflexivity.
Qed.

Lemma push_heap_Forall (P : UserMessage -> Prop) m h :
  P m -> Forall P h -> Forall P (MessageQueue.push_heap m h).
Proof. intros Hm Hh. rewrite push_heap_perm. constructor; assumption. Qed.

(** X10. A user message arriving at a proxy (all messages involved carry
    their sequence numbers, each a different one, and no ports; the queue's
    heap in its ascending representation): it joins the queue, and every
    message the queue then has in order goes to the proxy's peer, readdressed
    and in order, so an out-of-order message is only buffered.  The proxy is
    never signalled.  When the proxy was told which message is its last and
    has now forwarded it, its name is erased and the deferred message, if
    any, is sent after the forwarded ones. *)
Theorem X10_OnUserMessage_proxy (message : UserMessage) (n : Node)
    (p : PortPtr) (r : Port) :
  ports_ n !! um_port_name message = Some p ->
  objects n !! p = Some r ->
  lock r = false ->
  state r = kProxying ->
  CanAcceptMoreMessages r = true ->
  Forall (fun m => um_slots m = [] /\ sequence_num m <> 0)
         (message :: MessageQueue.heap_ (message_queue r)) ->
  MessageQueue.ascending (MessageQueue.heap_ (message_queue r)) ->
  NoDup (MessageQueue.GetSequenceNum <$>
           message :: MessageQueue.heap_ (message_queue r)) ->
  let q := (MessageQueue.AcceptMessage message (message_queue r)).1 in
  let r' := set_message_queue (drained q) r in
  let last :=
    remove_proxy_on_last_message r && negb (CanAcceptMoreMessages r') in
  exists n',
    OnUserMessage message n = Done OK n' /\
    objects n' = <[p := r']> (objects n) /\
    forwarded (delegate_ n') =
      forwarded (delegate_ n) ++
      map (fun m => (peer_node_name r,
                     kUser (readdressed (peer_port_name r) m)))
          (in_order (MessageQueue.next_sequence_num_ q)
                    (MessageQueue.heap_ q)) ++
      (if last then option_list (send_on_proxy_removal r) else []) /\
    ports_ n' =
      (if last then delete (um_port_name message) (ports_ n) else ports_ n) /\
    status_changed (delegate_ n') = status_changed (delegate_ n) /\
    oops_log n' = oops_log n.
Proof.
  intros Hn Hp Hl Hs Hcan Hall _ _.
  inversion Hall as [|? ? [Hslots Hnz] Hheap]; subst.
  cbv zeta.
  assert (Hq : (MessageQueue.AcceptMessage message (message_queue r)).1 =
               {| MessageQueue.heap_ :=
                    MessageQueue.push_heap message
                      (MessageQueue.heap_ (message_queue r));
                  MessageQueue.next_sequence_num_ :=
                    MessageQueue.next_sequence_num_ (message_queue r);
                  MessageQueue.signalable_ :=
                    MessageQueue.signalable_ (message_queue r) |}).
  { unfold MessageQueue.AcceptMessage.
    destruct (negb (MessageQueue.signalable_ (message_queue r))); reflexivity. }
  destruct (MessageQueue.AcceptMessage message (message_queue r))
    as [q has_next] eqn:Hacc.
  cbn [fst] in Hq |- *.
  assert (Hfin : forall x y,
             set_lock false
               (set_message_queue x (set_message_queue y (set_lock true r)))
             = set_message_queue x r)
    by (intros; destruct r; simpl in Hl; subst; reflexivity).
  unfold OnUserMessage, GetPort, lock_guard, lock_lock, lock_unlock, ports.
  rewrite Hslots. cbn [for_each_ok fmap list_fmap].
  mrun. rewrite Hn. mrun. rewrite Hl. mrun.
  rewrite CanAcceptMoreMessages_set_lock, Hcan, Hacc.
  mrun. unfold ForwardMessages_Locked. mrun.
  erewrite ForwardMessages_loop_run.
  2:{ proj_simpl. eapply insert_lookup_same. exact Hp. }
  2:{ proj_simpl. rewrite Hq. simpl. apply push_heap_Forall; auto. }
  2:{ proj_simpl. lia. }
  cbv beta iota. rewrite decide_False by auto.
  unfold MaybeRemoveProxy_Locked, ErasePort.
  mrun.
  change (CanAcceptMoreMessages
            (set_message_queue (drained q)
               (set_message_queue q (set_lock true r))))
    with (CanAcceptMoreMessages (set_message_queue (drained q) r)).
  destruct (remove_proxy_on_last_message r) eqn:Hrem; cbn [negb andb].
  - destruct (CanAcceptMoreMessages (set_message_queue (drained q) r)) eqn:Hc;
      cbn [negb].
    + mrun. cbn [for_each]. mrun. rewrite Hfin, app_nil_r.
      open_node n. eexists. split; [reflexivity|]. repeat split.
    + mrun. destruct (send_on_proxy_removal r) as [[to msg]|] eqn:Hd.
      * unfold ForwardMessage. mrun. cbn [for_each]. mrun.
        rewrite Hfin. open_node n. eexists. split; [reflexivity|].
        proj_simpl. rewrite <- app_assoc. repeat split.
      * mrun. cbn [for_each]. mrun. rewrite Hfin. cbn [option_list].
        rewrite app_nil_r.
        open_node n. eexists. split; [reflexivity|]. repeat split.
  - mrun. cbn [for_each]. mrun. rewrite Hfin, app_nil_r.
    open_node n. eexists. split; [reflexivity|]. repeat split.
Qed.

(** A proxy that waits for message 5, holds message 6 and knows that 6 is its
    last: when 5 arrives both go out in order and the proxy is erased. *)
Lemma X10_OnUserMessage_proxy_witness :
  exists n',
    OnUserMessage (example_message 10 5 [])
      (example_node
         [set_remove_proxy_on_last_message true
            (set_last_sequence_num_to_receive 6
               (example_port kProxying 2 20 1 5 [example_message 10 6 []]))]
         [(10%N, 0%nat)])
    = Done OK n' /\
    forwarded (delegate_ n') =
      [(2%N, kUser (example_message 20 5 []));
       (2%N, kUser (example_message 20 6 []))] /\
    ports_ n' !! 10%N = None.
Proof.
  destruct (X10_OnUserMessage_proxy (example_message 10 5 [])
              (example_node
                 [set_remove_proxy_on_last_message true
                    (set_last_sequence_num_to_receive 6
                       (example_port kProxying 2 20 1 5
                          [example_message 10 6 []]))]
                 [(10%N, 0%nat)])
              0%nat _ eq_refl eq_refl eq_refl eq_refl eq_refl
              ltac:(repeat constructor; discriminate)
              ltac:(simpl; split; [intros y Hy; inversion Hy|exact I])
              ltac:(apply (bool_decide_unpack _); vm_compute; exact I))
    as (n' & Hrun & _ & Hf & Hp & _).
  exists n'. split; [exact Hrun|]. rewrite Hf, Hp. split; reflexivity.
Defined.

(** ** Sending to a peer on the same node *)




(** ** Sending a port *)

(** X12. [SendMessage] of a message that carries one port [x], from a port
    with a remote peer.  The carried port must be registered, Receiving and
    neither the sending port nor its peer.  It becomes Buffering under its
    old name, with a freshly generated name on the destination node as its
    peer; the message leaves with that name and a descriptor holding the
    carried port's former peer and both its counters.  [AcceptPort] for that
    descriptor, on any node where the new name is free, creates a Receiving
    record with that peer and those counters, not signalable, and answers
    with PortAccepted for [x] on the sending node. *)
Theorem X12_SendMessage_one_port (port_ref : PortRef) (message : UserMessage)
    (n : Node) (r : Port) (x : PortName) (d0 : PortDescriptor)
    (px : PortPtr) (rx : Port) :
  objects n !! port port_ref = Some r ->
  lock r = false ->
  state r = kReceiving ->
  peer_closed r = false ->
  peer_node_name r <> name_ n ->
  um_slots message = [(x, d0)] ->
  x <> name port_ref ->
  x <> peer_port_name r ->
  ports_ n !! x = Some px ->
  px <> port port_ref ->
  objects n !! px = Some rx ->
  lock rx = false ->
  state rx = kReceiving ->
  let new_name := name_source (delegate_ n) (names_generated (delegate_ n)) in
  let d :=
    {| pd_peer_node_name := peer_node_name rx;
       pd_peer_port_name := peer_port_name rx;
       pd_referring_node_name := name_ n;
       pd_referring_port_name := x;
       pd_next_sequence_num_to_send := next_sequence_num_to_send rx;
       pd_next_sequence_num_to_receive :=
         MessageQueue.next_sequence_num (message_queue rx) |} in
  (exists n',
     SendMessage port_ref message n = Done OK n' /\
     objects n' =
       <[px := set_peer (peer_node_name r) new_name (set_state kBuffering rx)]>
         (<[port port_ref :=
              set_next_sequence_num_to_send (counter_after r message OK) r]>
            (objects n)) /\
     forwarded (delegate_ n') =
       forwarded (delegate_ n) ++
       [(peer_node_name r,
         kUser {| um_port_name := peer_port_name r;
                  sequence_num := sequence_num (stamped r message);
                  um_slots := [(new_name, d)];
                  um_payload := um_payload message |})] /\
     ports_ n' = ports_ n /\
     status_changed (delegate_ n') = status_changed (delegate_ n) /\
     names_generated (delegate_ n') = S (names_generated (delegate_ n))) /\
  (forall n2,
     ports_ n2 !! new_name = None ->
     exists n2' ra,
       AcceptPort new_name d n2 = Done OK n2' /\
       objects n2' = objects n2 ++ [ra] /\
       ports_ n2' = <[new_name := length (objects n2)]> (ports_ n2) /\
       state ra = kReceiving /\
       peer_node_name ra = peer_node_name rx /\
       peer_port_name ra = peer_port_name rx /\
       next_sequence_num_to_send ra = wrap64 (next_sequence_num_to_send rx) /\
       MessageQueue.next_sequence_num (message_queue ra) =
         wrap32 (MessageQueue.next_sequence_num (message_queue rx)) /\
       MessageQueue.heap_ (message_queue ra) = [] /\
       MessageQueue.signalable_ (message_queue ra) = false /\
       forwarded (delegate_ n2') =
         forwarded (delegate_ n2) ++ [(name_ n, Internal x kPortAccepted)]).
Proof.
  intros Hr Hl Hs Hpc Hremote Hslots Hself Hpeer Hn Hne Hx Hlx Hsx.
  cbv zeta. split.
  - rewrite (SendMessage_checked port_ref message n
               ltac:(unfold ports; rewrite Hslots; cbn;
                     intros [E|E]%elem_of_cons;
                     [simpl in E; congruence | inversion E])).
    destruct message as [mp ms msl mpl]. simpl in Hslots. subst msl.
    open_node n. open_port r.
    destruct rx as [x_lock x_state x_pn x_pp x_ns x_last x_q x_deferred
                    x_remove x_closed x_om x_op].
    simpl in Hr, Hn, Hx, Hremote, Hl, Hs, Hpc, Hlx, Hsx, Hpeer. subst.
    cbv zeta.
    unfold lock_guard, lock_lock, lock_unlock, WillSendMessage_Locked,
      num_ports, ports, stamped, counter_after, GetPort, nonnull,
      WillSendPort_Locked, GenerateRandomPortName, ForwardMessage.
    cbn [um_slots um_port_name sequence_num um_payload length fmap list_fmap
         fst snd].
    destruct (decide (ms = 0)) as [->|Hnz].
    + repeat first
        [ mstep
        | rewrite Hn
        | rewrite (decide_False (P := kReceiving ≠ kReceiving)) by auto
        | rewrite (decide_False (P := x = r_pp)) by exact Hpeer
        | progress (unfold GetPort, nonnull, lock_lock, lock_unlock,
                      WillSendPort_Locked, GenerateRandomPortName)
        | progress cbn [um_slots um_port_name sequence_num um_payload length
                        fmap list_fmap fst snd lock_ports send_ports for_each
                        seq app] ].
      eexists. split; [reflexivity|]. proj_simpl.
      split; [|repeat split].
      rewrite (list_insert_insert_ne _ (port port_ref) px) by congruence.
      rewrite list_insert_insert_eq. reflexivity.
    + repeat first
        [ mstep
        | rewrite Hn
        | rewrite (decide_False (P := kReceiving ≠ kReceiving)) by auto
        | rewrite (decide_False (P := x = r_pp)) by exact Hpeer
        | progress (unfold GetPort, nonnull, lock_lock, lock_unlock,
                      WillSendPort_Locked, GenerateRandomPortName)
        | progress cbn [um_slots um_port_name sequence_num um_payload length
                        fmap list_fmap fst snd lock_ports send_ports for_each
                        seq app] ].
      eexists. split; [reflexivity|]. proj_simpl.
      split; [|repeat split].
      rewrite (list_insert_insert_ne _ (port port_ref) px) by congruence.
      rewrite list_insert_insert_eq. reflexivity.
  - intros n2 Hfree.
    destruct (AcceptPort_run _
                {| pd_peer_node_name := peer_node_name rx;
                   pd_peer_port_name := peer_port_name rx;
                   pd_referring_node_name := name_ n;
                   pd_referring_port_name := x;
                   pd_next_sequence_num_to_send := next_sequence_num_to_send rx;
                   pd_next_sequence_num_to_receive :=
                     MessageQueue.next_sequence_num (message_queue rx) |}
                n2 Hfree)
      as (n2' & Hrun & Ho & Hp & Hf & _).
    exists n2'. eexists. split; [exact Hrun|]. split; [exact Ho|].
    split; [exact Hp|]. rewrite Hf. repeat split.
Qed.

(** Port 10 sends port 11 to node 2: port 11, which has sent six messages
    to 30 on node 3 and read eight, travels under the name 1000. *)
Lemma X12_SendMessage_one_port_witness :
  exists n',
    SendMessage {| name := 10%N; port := 0%nat |}
      (example_message 0 0 [(11%N, empty_descriptor)])
      (example_node
         [example_port kReceiving 2 20 5 1 [];
          example_port kReceiving 3 30 7 9 []]
         [(10%N, 0%nat); (11%N, 1%nat)])
    = Done OK n' /\
    objects n' =
      [example_port kReceiving 2 20 6 1 [];
       example_port kBuffering 2 1000 7 9 []] /\
    forwarded (delegate_ n') =
      [(2%N,
        kUser (example_message 20 5
                 [(1000%N,
                   {| pd_peer_node_name := 3; pd_peer_port_name := 30;
                      pd_referring_node_name := 1;
                      pd_referring_port_name := 11;
                      pd_next_sequence_num_to_send := 7;
                      pd_next_sequence_num_to_receive := 9 |})]))].
Proof.
  destruct (X12_SendMessage_one_port {| name := 10%N; port := 0%nat |}
              (example_message 0 0 [(11%N, empty_descriptor)])
              (example_node
                 [example_port kReceiving 2 20 5 1 [];
                  example_port kReceiving 3 30 7 9 []]
                 [(10%N, 0%nat); (11%N, 1%nat)])
              (example_port kReceiving 2 20 5 1 []) 11%N empty_descriptor
              1%nat (example_port kReceiving 3 30 7 9 [])
              eq_refl eq_refl eq_refl eq_refl ltac:(discriminate) eq_refl
              ltac:(discriminate) ltac:(discriminate) eq_refl
              ltac:(discriminate) eq_refl eq_refl eq_refl)
    as [(n' & Hrun & Ho & Hf & _) _].
  exists n'. split; [exact Hrun|]. rewrite Ho, Hf. split; reflexivity.
Defined.

(** ** One round of proxy removal across three nodes *)

(** X13. A proxy [P] on node [nb] forwards to port [C] on node [nc]; port
    [Q] on node [na] still sends to the proxy.  The proxy's ObserveProxy goes
    to [C], whose peer is not the proxy, so [C]'s node passes it on unchanged
    to [Q].  [Q]'s node redirects [Q] to [C] and answers the proxy with
    ObserveProxyAck carrying [next_sequence_num_to_send - 1] of [Q].  At
    the proxy's node that acknowledgement marks the proxy for removal with
    that number as its last one, and erases it at once exactly when the
    proxy's queue cursor is already past it.  When [Q] has never sent, the
    number is the invalid sequence number: the proxy is not marked and sends
    the same ObserveProxy again. *)
Theorem X13_proxy_removal_round (na nb nc : Node) (P Q C : PortName)
    (pa pb pc : PortPtr) (ra rb rc : Port) :
  ports_ nb !! P = Some pb -> objects nb !! pb = Some rb ->
  lock rb = false -> state rb = kProxying ->
  peer_node_name rb = name_ nc -> peer_port_name rb = C ->
  ports_ nc !! C = Some pc -> objects nc !! pc = Some rc ->
  lock rc = false ->
  peer_node_name rc = name_ na -> peer_port_name rc = Q ->
  ~ (name_ na = name_ nb /\ Q = P) ->
  ports_ na !! Q = Some pa -> objects na !! pa = Some ra ->
  lock ra = false -> state ra = kReceiving ->
  peer_node_name ra = name_ nb -> peer_port_name ra = P ->
  let ev := {| proxy_node_name := name_ nb; proxy_port_name := P;
               proxy_to_node_name := name_ nc; proxy_to_port_name := C |} in
  let ack := wrap64 (next_sequence_num_to_send ra - 1) in
  let rb' := set_last_sequence_num_to_receive ack
               (set_remove_proxy_on_last_message true rb) in
  exists nc' na' nb',
    AcceptMessage (Internal C (kObserveProxy ev)) nc = Done OK nc' /\
    objects nc' = objects nc /\ ports_ nc' = ports_ nc /\
    forwarded (delegate_ nc') =
      forwarded (delegate_ nc) ++ [(name_ na, Internal Q (kObserveProxy ev))] /\
    AcceptMessage (Internal Q (kObserveProxy ev)) na = Done OK na' /\
    objects na' = <[pa := set_peer (name_ nc) C ra]> (objects na) /\
    ports_ na' = ports_ na /\
    forwarded (delegate_ na') =
      forwarded (delegate_ na) ++
      [(name_ nb, Internal P (kObserveProxyAck ack))] /\
    AcceptMessage (Internal P (kObserveProxyAck ack)) nb = Done OK nb' /\
    (ack <> kInvalidSequenceNum ->
     objects nb' = <[pb := rb']> (objects nb) /\
     ports_ nb' =
       (if CanAcceptMoreMessages rb' then ports_ nb else delete P (ports_ nb)) /\
     forwarded (delegate_ nb') =
       forwarded (delegate_ nb) ++
       (if CanAcceptMoreMessages rb' then []
        else option_list (send_on_proxy_removal rb))) /\
    (ack = kInvalidSequenceNum ->
     objects nb' = objects nb /\ ports_ nb' = ports_ nb /\
     forwarded (delegate_ nb') =
       forwarded (delegate_ nb) ++
       [(name_ nc, Internal C (kObserveProxy ev))]).
Proof.
  intros HP Hb Hlb Hsb Hbn Hbp HC Hc Hlc Hcn Hcp Hnot HQ Ha Hla Hsa Han Hap.
  cbv zeta.
  assert (Hrc : exists nc',
    AcceptMessage
      (Internal C
         (kObserveProxy
            {| proxy_node_name := name_ nb; proxy_port_name := P;
               proxy_to_node_name := name_ nc; proxy_to_port_name := C |})) nc
    = Done OK nc' /\
    objects nc' = objects nc /\ ports_ nc' = ports_ nc /\
    forwarded (delegate_ nc') =
      forwarded (delegate_ nc) ++
      [(name_ na,
        Internal Q
          (kObserveProxy
             {| proxy_node_name := name_ nb; proxy_port_name := P;
                proxy_to_node_name := name_ nc; proxy_to_port_name := C |}))]).
  { clear Hb HP HQ Ha. open_node nc. open_port rc.
    simpl in HC, Hc, Hlc, Hcn, Hcp. subst.
    unfold AcceptMessage, OnObserveProxy, GetPort. mrun. rewrite HC.
    unfold lock_guard, lock_lock, lock_unlock, ForwardMessage,
      NewInternalMessage.
    mrun. cbn [proxy_node_name proxy_port_name].
    try (rewrite decide_False by exact Hnot). mrun.
    rewrite list_insert_id by exact Hc.
    eexists. split; [reflexivity|]. simpl. auto. }
  assert (Hra : exists na',
    AcceptMessage
      (Internal Q
         (kObserveProxy
            {| proxy_node_name := name_ nb; proxy_port_name := P;
               proxy_to_node_name := name_ nc; proxy_to_port_name := C |})) na
    = Done OK na' /\
    objects na' = <[pa := set_peer (name_ nc) C ra]> (objects na) /\
    ports_ na' = ports_ na /\
    forwarded (delegate_ na') =
      forwarded (delegate_ na) ++
      [(name_ nb,
        Internal P
          (kObserveProxyAck (wrap64 (next_sequence_num_to_send ra - 1))))]).
  { clear Hb HP HC Hc Hrc. open_node na. open_port ra.
    simpl in HQ, Ha, Hla, Hsa, Han, Hap. subst.
    unfold AcceptMessage, OnObserveProxy, GetPort. mrun. rewrite HQ.
    unfold lock_guard, lock_lock, lock_unlock, ForwardMessage,
      NewInternalMessage.
    mrun. cbn [proxy_node_name proxy_port_name proxy_to_node_name
               proxy_to_port_name].
    try (rewrite decide_True by auto). mrun.
    eexists. split; [reflexivity|]. simpl. auto. }
  assert (Hrb : exists nb',
    AcceptMessage
      (Internal P
         (kObserveProxyAck (wrap64 (next_sequence_num_to_send ra - 1)))) nb
    = Done OK nb' /\
    (wrap64 (next_sequence_num_to_send ra - 1) <> kInvalidSequenceNum ->
     objects nb' =
       <[pb := set_last_sequence_num_to_receive
                 (wrap64 (next_sequence_num_to_send ra - 1))
                 (set_remove_proxy_on_last_message true rb)]> (objects nb) /\
     ports_ nb' =
       (if CanAcceptMoreMessages
             (set_last_sequence_num_to_receive
                (wrap64 (next_sequence_num_to_send ra - 1))
                (set_remove_proxy_on_last_message true rb))
        then ports_ nb else delete P (ports_ nb)) /\
     forwarded (delegate_ nb') =
       forwarded (delegate_ nb) ++
       (if CanAcceptMoreMessages
             (set_last_sequence_num_to_receive
                (wrap64 (next_sequence_num_to_send ra - 1))
                (set_remove_proxy_on_last_message true rb))
        then [] else option_list (send_on_proxy_removal rb))) /\
    (wrap64 (next_sequence_num_to_send ra - 1) = kInvalidSequenceNum ->
     objects nb' = objects nb /\ ports_ nb' = ports_ nb /\
     forwarded (delegate_ nb') =
       forwarded (delegate_ nb) ++
       [(name_ nc,
         Internal C
           (kObserveProxy
              {| proxy_node_name := name_ nb; proxy_port_name := P;
                 proxy_to_node_name := name_ nc;
                 proxy_to_port_name := C |}))])).
  { set (ack := wrap64 (next_sequence_num_to_send ra - 1)).
    clearbody ack. clear Hrc Hra HQ Ha HC Hc Hap Han Hcn Hcp Hnot Hla Hsa Hlc.
    open_node nb. open_port rb. simpl in HP, Hb, Hlb, Hsb, Hbn, Hbp.
    subst r_lock r_state r_pn r_pp.
    destruct (decide (ack = kInvalidSequenceNum)) as [Hinv|Hval].
    - unfold AcceptMessage, OnObserveProxyAck, GetPort. mrun. rewrite HP.
      unfold lock_guard, lock_lock, lock_unlock, InitiateProxyRemoval_Locked,
        ForwardMessage, NewInternalMessage.
      mrun. rewrite list_insert_id by exact Hb.
      eexists. split; [reflexivity|].
      split; [congruence|]. intros _. simpl. auto.
    - unfold AcceptMessage, OnObserveProxyAck, GetPort. mrun. rewrite HP.
      unfold lock_guard, lock_lock, lock_unlock, MaybeRemoveProxy_Locked,
        ErasePort, ForwardMessage.
      mrun.
      match goal with
      | |- context [negb (CanAcceptMoreMessages ?x)] =>
          change (CanAcceptMoreMessages x) with
            (CanAcceptMoreMessages
               (set_last_sequence_num_to_receive ack
                  (set_remove_proxy_on_last_message true
                     {| lock := false; state := kProxying;
                        peer_node_name := name_ nc; peer_port_name := C;
                        next_sequence_num_to_send := r_ns;
                        last_sequence_num_to_receive := r_last;
                        message_queue := r_q;
                        send_on_proxy_removal := r_deferred;
                        remove_proxy_on_last_message := r_remove;
                        peer_closed := r_closed;
                        outgoing_messages := r_om;
                        outgoing_ports := r_op |})))
      end.
      destruct (CanAcceptMoreMessages _) eqn:Hcan.
      + mrun. eexists. split; [reflexivity|].
        split; [|congruence]. intros _. simpl. rewrite app_nil_r. auto.
      + mrun. destruct r_deferred as [[to msg]|]; mrun.
        * eexists. split; [reflexivity|].
          split; [|congruence]. intros _. simpl. auto.
        * eexists. split; [reflexivity|].
          split; [|congruence]. intros _. simpl. rewrite app_nil_r. auto. }
  destruct Hrc as (nc' & Hrunc & Hco & Hcpo & Hcf).
  destruct Hra as (na' & Hruna & Hao & Hapo & Haf).
  destruct Hrb as (nb' & Hrunb & Hval & Hinv).
  exists nc', na', nb'. repeat (split; [assumption|]). assumption.
Qed.

(** Port 10 on node 1 has sent four messages through the proxy 20 on node 2,
    which has forwarded all four to port 30 on node 3: after the round port
    10 sends to 30 directly and the proxy is gone. *)
Lemma X13_proxy_removal_round_witness :
  exists nc' na' nb',
    AcceptMessage
      (Internal 30
         (kObserveProxy {| proxy_node_name := 2; proxy_port_name := 20;
                           proxy_to_node_name := 3;
                           proxy_to_port_name := 30 |}))
      (example_node_named 3 [example_port kReceiving 1 10 1 1 []]
         [(30%N, 0%nat)]) = Done OK nc' /\
    AcceptMessage
      (Internal 10
         (kObserveProxy {| proxy_node_name := 2; proxy_port_name := 20;
                           proxy_to_node_name := 3;
                           proxy_to_port_name := 30 |}))
      (example_node_named 1 [example_port kReceiving 2 20 5 1 []]
         [(10%N, 0%nat)]) = Done OK na' /\
    objects na' = [example_port kReceiving 3 30 5 1 []] /\
    AcceptMessage (Internal 20 (kObserveProxyAck 4))
      (example_node_named 2 [example_port kProxying 3 30 1 5 []]
         [(20%N, 0%nat)]) = Done OK nb' /\
    ports_ nb' !! 20%N = None.
Proof.
  destruct (X13_proxy_removal_round
              (example_node_named 1 [example_port kReceiving 2 20 5 1 []]
                 [(10%N, 0%nat)])
              (example_node_named 2 [example_port kProxying 3 30 1 5 []]
                 [(20%N, 0%nat)])
              (example_node_named 3 [example_port kReceiving 1 10 1 1 []]
                 [(30%N, 0%nat)])
              20%N 10%N 30%N 0%nat 0%nat 0%nat
              (example_port kReceiving 2 20 5 1 [])
              (example_port kProxying 3 30 1 5 [])
              (example_port kReceiving 1 10 1 1 [])
              eq_refl eq_refl eq_refl eq_refl eq_refl eq_refl
              eq_refl eq_refl eq_refl eq_refl eq_refl
              ltac:(intros [H _]; discriminate H)
              eq_refl eq_refl eq_refl eq_refl eq_refl eq_refl)
    as (nc' & na' & nb' & Hc & _ & _ & _ & Ha & Hao & _ & _ & Hb & Hval & _).
  destruct (Hval ltac:(discriminate)) as (_ & Hp & _).
  exists nc', na', nb'. split; [exact Hc|]. split; [exact Ha|].
  split; [rewrite Hao; reflexivity|]. split; [exact Hb|].
  rewrite Hp. reflexivity.
Defined.

(** ** The message queue puts arrivals back in order *)

Lemma accept_all_heap (ms : list UserMessage) (q : MessageQueue.t) :
  let q' := foldl (fun q m => (MessageQueue.AcceptMessage m q).1) q ms in
  MessageQueue.heap_ q' ≡ₚ MessageQueue.heap_ q ++ ms /\
  (MessageQueue.ascending (MessageQueue.heap_ q) ->
   MessageQueue.ascending (MessageQueue.heap_ q')) /\
  MessageQueue.next_sequence_num_ q' = MessageQueue.next_sequence_num_ q /\
  MessageQueue.signalable_ q' = MessageQueue.signalable_ q.
Proof.
  revert q. induction ms as [|m ms IH]; intros q; cbn [foldl].
  - rewrite app_nil_r. auto.
  - destruct (IH (MessageQueue.AcceptMessage m q).1) as (Hp & Ha & Hn & Hs).
    assert (Hq : (MessageQueue.AcceptMessage m q).1 =
                 {| MessageQueue.heap_ :=
                      MessageQueue.push_heap m (MessageQueue.heap_ q);
                    MessageQueue.next_sequence_num_ :=
                      MessageQueue.next_sequence_num_ q;
                    MessageQueue.signalable_ := MessageQueue.signalable_ q |}).
    { unfold MessageQueue.AcceptMessage.
      destruct (negb (MessageQueue.signalable_ q)); reflexivity. }
    cbv zeta in Hp, Ha, Hn, Hs |- *.
    rewrite Hq in Hp, Ha, Hn, Hs |- *. simpl in Hp, Ha, Hn, Hs.
    split; [|split; [|split]].
    + rewrite Hp, push_heap_perm. simpl.
      rewrite Permutation_middle. reflexivity.
    + intros Hasc. apply Ha. apply push_heap_ascending. exact Hasc.
    + exact Hn.
    + exact Hs.
Qed.

Lemma ascending_seqZ (h : list UserMessage) :
  forall c,
    MessageQueue.ascending h ->
    (MessageQueue.GetSequenceNum <$> h) ≡ₚ seqZ c (Z.of_nat (length h)) ->
    (MessageQueue.GetSequenceNum <$> h) = seqZ c (Z.of_nat (length h)).
Proof.
  induction h as [|x h IH]; intros c Hasc Hperm; [reflexivity|].
  destruct Hasc as [Hmin Hasc].
  cbn [length fmap list_fmap] in *. rewrite Nat2Z.inj_succ in *.
  rewrite seqZ_cons in * by lia.
  replace (Z.pred (Z.succ (Z.of_nat (length h)))) with (Z.of_nat (length h))
    in * by lia.
  assert (Hx : MessageQueue.GetSequenceNum x = c).
  { assert (Hin : MessageQueue.GetSequenceNum x ∈
                    c :: seqZ (Z.succ c) (Z.of_nat (length h))).
    { rewrite <- Hperm. left. }
    assert (Hc : c ∈ MessageQueue.GetSequenceNum x ::
                     (MessageQueue.GetSequenceNum <$> h)).
    { rewrite Hperm. left. }
    apply elem_of_cons in Hin as [Hin|Hin]; [exact Hin|].
    apply elem_of_seqZ in Hin.
    apply elem_of_cons in Hc as [Hc|Hc]; [auto|].
    apply list_elem_of_fmap in Hc as (y & Hy & Hyh).
    specialize (Hmin y Hyh). lia. }
  rewrite Hx in *. f_equal. apply IH; [exact Hasc|].
  eapply Permutation_cons_inv. exact Hperm.
Qed.

Lemma in_order_all (h : list UserMessage) :
  forall c,
    0 <= c < 2 ^ 32 ->
    c + Z.of_nat (length h) <= 2 ^ 32 ->
    (MessageQueue.GetSequenceNum <$> h) = seqZ c (Z.of_nat (length h)) ->
    in_order c h = h /\
    drain_heap c h = (wrap32 (c + Z.of_nat (length h)), []).
Proof.
  induction h as [|x h IH]; intros c Hc Hb Hseq.
  - cbn [in_order drain_heap length]. rewrite Z.add_0_r.
    rewrite wrap32_small by exact Hc. auto.
  - cbn [length fmap list_fmap] in *. rewrite Nat2Z.inj_succ in *.
    rewrite seqZ_cons in Hseq by lia.
    replace (Z.pred (Z.succ (Z.of_nat (length h)))) with (Z.of_nat (length h))
      in Hseq by lia.
    injection Hseq as Hx Hrest.
    cbn [in_order drain_heap]. rewrite Hx, Z.eqb_refl.
    destruct h as [|y h'].
    + cbn [in_order drain_heap length]. split; [reflexivity|].
      replace (c + Z.succ (Z.of_nat 0)) with (c + 1) by lia. reflexivity.
    + assert (Hlt : c + 1 < 2 ^ 32) by (cbn [length] in Hb; lia).
      rewrite (wrap32_small (c + 1)) by lia.
      destruct (IH (c + 1) ltac:(lia) ltac:(lia)
                  ltac:(rewrite Hrest; f_equal; lia)) as [Hin Hdr].
      rewrite Hin, Hdr. split; [reflexivity|]. f_equal. f_equal. lia.
Qed.

(** Reading a heap that holds exactly the numbers from the cursor on: every
    call hands out the head, and the call after the last one nothing. *)
Lemma get_next_messages_all (h : list UserMessage) :
  forall c sig,
    0 <= c < 2 ^ 32 ->
    c + Z.of_nat (length h) <= 2 ^ 32 ->
    (MessageQueue.GetSequenceNum <$> h) = seqZ c (Z.of_nat (length h)) ->
    get_next_messages (S (length h))
      {| MessageQueue.heap_ := h;
         MessageQueue.next_sequence_num_ := c;
         MessageQueue.signalable_ := sig |} =
    ((Some <$> h) ++ [None],
     {| MessageQueue.heap_ := [];
        MessageQueue.next_sequence_num_ := wrap32 (c + Z.of_nat (length h));
        MessageQueue.signalable_ := sig |}).
Proof.
  induction h as [|x h IH]; intros c sig Hc Hb Hseq.
  - cbn [length get_next_messages MessageQueue.GetNextMessageIf
         MessageQueue.heap_ fmap list_fmap app].
    rewrite Z.add_0_r, wrap32_small by exact Hc. reflexivity.
  - cbn [length fmap list_fmap] in Hseq, Hb. rewrite Nat2Z.inj_succ in Hseq, Hb.
    rewrite seqZ_cons in Hseq by lia.
    replace (Z.pred (Z.succ (Z.of_nat (length h)))) with (Z.of_nat (length h))
      in Hseq by lia.
    injection Hseq as Hx Hrest.
    change (get_next_messages (S (length (x :: h))) ?q)
      with (let '(message, q') := MessageQueue.GetNextMessageIf None q in
            let '(rest, q'') := get_next_messages (S (length h)) q' in
            (message :: rest, q'')).
    unfold MessageQueue.GetNextMessageIf.
    cbn [MessageQueue.heap_ MessageQueue.next_sequence_num_
         MessageQueue.signalable_].
    rewrite Hx, Z.eqb_refl. cbn [negb].
    destruct h as [|y h'].
    + cbn [length get_next_messages MessageQueue.GetNextMessageIf
           MessageQueue.heap_ fmap list_fmap app].
      replace (c + Z.of_nat 1) with (c + 1) by lia. reflexivity.
    + assert (Hlt : c + 1 < 2 ^ 32) by (cbn [length] in Hb; lia).
      rewrite (wrap32_small (c + 1)) by lia.
      rewrite (IH (c + 1) sig ltac:(lia) ltac:(lia)
                 ltac:(rewrite Hrest; f_equal; lia)).
      cbn [fmap list_fmap app length]. do 3 f_equal.
      rewrite !Nat2Z.inj_succ. lia.
Qed.

(** X14. Messages may reach a queue in any order.  When the queue starts
    empty with its cursor at [c] and the messages accepted carry, in
    whatever order, the numbers [c], [c + 1], ..., then as many
    [GetNextMessageIf(nullptr, ...)] calls as there are messages hand out
    all of them, one a call, in the order of their numbers; the call after
    those hands out nothing, and the queue is left empty with the cursor
    past the last number. *)
Theorem X14_queue_reorders (ms : list UserMessage) (c : Z) (sig : bool) :
  0 <= c < 2 ^ 32 ->
  c + Z.of_nat (length ms) <= 2 ^ 32 ->
  (MessageQueue.GetSequenceNum <$> ms) ≡ₚ seqZ c (Z.of_nat (length ms)) ->
  let q := foldl (fun q m => (MessageQueue.AcceptMessage m q).1)
             {| MessageQueue.heap_ := [];
                MessageQueue.next_sequence_num_ := c;
                MessageQueue.signalable_ := sig |} ms in
  exists out,
    get_next_messages (S (length ms)) q =
      ((Some <$> out) ++ [None],
       {| MessageQueue.heap_ := [];
          MessageQueue.next_sequence_num_ := wrap32 (c + Z.of_nat (length ms));
          MessageQueue.signalable_ := sig |}) /\
    out ≡ₚ ms /\
    (MessageQueue.GetSequenceNum <$> out) = seqZ c (Z.of_nat (length ms)) /\
    in_order (MessageQueue.next_sequence_num_ q) (MessageQueue.heap_ q) = out /\
    drained q =
      {| MessageQueue.heap_ := [];
         MessageQueue.next_sequence_num_ := wrap32 (c + Z.of_nat (length ms));
         MessageQueue.signalable_ := sig |}.
Proof.
  intros Hc Hb Hperm. cbv zeta.
  destruct (accept_all_heap ms
              {| MessageQueue.heap_ := [];
                 MessageQueue.next_sequence_num_ := c;
                 MessageQueue.signalable_ := sig |})
    as (Hheap & Hasc & Hnext & Hsig).
  cbv zeta in Hheap, Hasc, Hnext, Hsig. simpl in Hheap, Hasc, Hnext, Hsig.
  set (q := foldl _ _ ms) in *.
  specialize (Hasc I).
  assert (Hlen : length (MessageQueue.heap_ q) = length ms)
    by (rewrite Hheap; reflexivity).
  assert (Hseq : (MessageQueue.GetSequenceNum <$> MessageQueue.heap_ q) =
                 seqZ c (Z.of_nat (length ms))).
  { rewrite <- Hlen. apply ascending_seqZ; [exact Hasc|].
    rewrite Hlen, <- Hperm, Hheap. reflexivity. }
  destruct (in_order_all (MessageQueue.heap_ q) c Hc
              ltac:(rewrite Hlen; exact Hb)
              ltac:(rewrite Hlen; exact Hseq)) as [Hin Hdr].
  exists (MessageQueue.heap_ q).
  split; [|split; [exact Hheap|split; [exact Hseq|split]]].
  - rewrite <- Hlen.
    rewrite <- (get_next_messages_all (MessageQueue.heap_ q) c sig Hc
                  ltac:(rewrite Hlen; exact Hb)
                  ltac:(rewrite Hlen; exact Hseq)).
    f_equal. destruct q as [qh qn qs]. simpl in Hnext, Hsig |- *.
    rewrite Hnext, Hsig. reflexivity.
  - rewrite Hnext. exact Hin.
  - unfold drained. rewrite Hnext, Hdr, Hlen, Hsig. reflexivity.
Qed.

(** Messages 6, 5 and 7 arrive at a queue that waits for 5: three calls hand
    out the three messages by their numbers 5, 6 and 7, and a fourth call
    nothing. *)
Lemma X14_queue_reorders_witness :
  exists out,
    get_next_messages 4
      (foldl (fun q m => (MessageQueue.AcceptMessage m q).1)
         {| MessageQueue.heap_ := [];
            MessageQueue.next_sequence_num_ := 5;
            MessageQueue.signalable_ := true |}
         [example_message 10 6 []; example_message 10 5 [];
          example_message 10 7 []]) =
    ((Some <$> out) ++ [None],
     {| MessageQueue.heap_ := [];
        MessageQueue.next_sequence_num_ := 8;
        MessageQueue.signalable_ := true |}) /\
    out ≡ₚ [example_message 10 6 []; example_message 10 5 [];
            example_message 10 7 []] /\
    (MessageQueue.GetSequenceNum <$> out) = [5; 6; 7].
Proof.
  destruct (X14_queue_reorders
              [example_message 10 6 []; example_message 10 5 [];
               example_message 10 7 []] 5 true
              ltac:(lia) ltac:(simpl; lia)
              ltac:(vm_compute; apply perm_swap))
    as (out & Hrun & Hperm & Hseq & _).
  exists out. split; [exact Hrun|]. split; [exact Hperm|exact Hseq].
Defined.

(** ** Closing, seen from the peer *)

Lemma SendMessage_peer_closed port_ref message n r :
  name port_ref ∉ ports message ->
  objects n !! port port_ref = Some r ->
  lock r = false ->
  state r = kReceiving ->
  peer_closed r = true ->
  SendMessage port_ref message n = Done ERROR_PORT_PEER_CLOSED n.
Proof.
  intros Hnot Hr Hl Hs Hpc. rewrite (SendMessage_checked _ _ _ Hnot).
  open_node n. open_port r. simpl in Hr, Hl, Hs, Hpc. subst.
  cbv zeta. unfold lock_guard, lock_lock, lock_unlock. mrun.
  rewrite list_insert_id by exact Hr. reflexivity.
Qed.

(** X15. Port [A] on node [na] and port [B] on node [nb] are peers, both
    Receiving.  [ClosePort] on [A] forwards one ObserveClosure to [B]'s node;
    when that node accepts it, [B] is marked closed by its peer with the
    number of the last message [A] sent, the delegate is told of a status
    change of [B], and from then on [SendMessage] on [B] is refused with
    PeerClosed and changes nothing. *)
Theorem X15_close_reaches_peer (na nb : Node) (a_ref b_ref : PortRef)
    (ra rb : Port) :
  objects na !! port a_ref = Some ra ->
  lock ra = false ->
  state ra = kReceiving ->
  peer_node_name ra = name_ nb ->
  peer_port_name ra = name b_ref ->
  ports_ nb !! name b_ref = Some (port b_ref) ->
  objects nb !! port b_ref = Some rb ->
  lock rb = false ->
  state rb = kReceiving ->
  let last := wrap64 (next_sequence_num_to_send ra - 1) in
  let closure := Internal (name b_ref) (kObserveClosure last) in
  exists na' nb',
    ClosePort a_ref na = Done OK na' /\
    forwarded (delegate_ na') =
      forwarded (delegate_ na) ++ [(name_ nb, closure)] /\
    AcceptMessage closure nb = Done OK nb' /\
    objects nb' =
      <[port b_ref := set_last_sequence_num_to_receive last
                        (set_peer_closed true rb)]> (objects nb) /\
    status_changed (delegate_ nb') = status_changed (delegate_ nb) ++ [b_ref] /\
    forwarded (delegate_ nb') = forwarded (delegate_ nb) /\
    (forall message,
       name b_ref ∉ ports message ->
       SendMessage b_ref message nb' = Done ERROR_PORT_PEER_CLOSED nb').
Proof.
  intros Ha Hla Hsa Han Hap Hpb Hb Hlb Hsb. cbv zeta.
  rewrite (ClosePort_receiving_run _ _ _ Ha Hla Hsa).
  destruct (OnObserveClosure_receiving (name b_ref)
              (wrap64 (next_sequence_num_to_send ra - 1)) nb _ _
              Hpb Hb Hlb Hsb) as (nb' & Hrun & Ho & Hp & Hf & Hst).
  eexists. exists nb'. split; [reflexivity|].
  split; [simpl; rewrite Han, Hap; reflexivity|].
  split; [exact Hrun|]. split; [exact Ho|].
  split; [rewrite Hst; destruct b_ref; reflexivity|].
  split; [exact Hf|].
  intros message Hnot.
  eapply SendMessage_peer_closed; [exact Hnot| | | |].
  - rewrite Ho. eapply insert_lookup_same. exact Hb.
  - exact Hlb.
  - exact Hsb.
  - reflexivity.
Qed.

Lemma X15_close_reaches_peer_witness :
  exists na' nb',
    ClosePort {| name := 10%N; port := 0%nat |}
      (example_node_named 1 [example_port kReceiving 2 20 5 1 []]
         [(10%N, 0%nat)]) = Done OK na' /\
    AcceptMessage (Internal 20 (kObserveClosure 4))
      (example_node_named 2 [example_port kReceiving 1 10 1 1 []]
         [(20%N, 0%nat)]) = Done OK nb' /\
    SendMessage {| name := 20%N; port := 0%nat |} (example_message 0 0 []) nb'
      = Done ERROR_PORT_PEER_CLOSED nb'.
Proof.
  destruct (X15_close_reaches_peer
              (example_node_named 1 [example_port kReceiving 2 20 5 1 []]
                 [(10%N, 0%nat)])
              (example_node_named 2 [example_port kReceiving 1 10 1 1 []]
                 [(20%N, 0%nat)])
              {| name := 10%N; port := 0%nat |}
              {| name := 20%N; port := 0%nat |}
              (example_port kReceiving 2 20 5 1 [])
              (example_port kReceiving 1 10 1 1 [])
              eq_refl eq_refl eq_refl eq_refl eq_refl eq_refl eq_refl eq_refl
              eq_refl)
    as (na' & nb' & Ha & _ & Hb & _ & _ & _ & Hsend).
  exists na', nb'. split; [exact Ha|]. split; [exact Hb|].
  apply Hsend. apply not_elem_of_nil.
Defined.

(** ** LostConnectionToNode *)

Lemma lost_idemp node_name r : lost node_name (lost node_name r) = lost node_name r.
Proof.
  unfold lost. destruct (decide (peer_node_name r = node_name)) as [E|E].
  - destruct (peer_closed r) eqn:Hc.
    + rewrite decide_True by exact E. rewrite Hc. reflexivity.
    + cbn [peer_node_name set_last_sequence_num_to_receive set_peer_closed
           peer_closed].
      rewrite decide_True by exact E. reflexivity.
  - rewrite decide_False by exact E. reflexivity.
Qed.

Lemma lost_lock node_name r : lock (lost node_name r) = lock r.
Proof.
  unfold lost. destruct (decide _); [|reflexivity].
  destruct (peer_closed r); reflexivity.
Qed.

Lemma lost_removes_lost node_name r :
  lost_removes node_name (lost node_name r) = lost_removes node_name r.
Proof.
  unfold lost_removes, lost. destruct (decide _); [|reflexivity].
  destruct (peer_closed r); reflexivity.
Qed.

Lemma lost_notifies_lost node_name r :
  lost_notifies node_name (lost node_name r) = false.
Proof.
  unfold lost_notifies, lost.
  destruct (decide (peer_node_name r = node_name)) as [E|E].
  - destruct (peer_closed r) eqn:Hc.
    + apply bool_decide_eq_false_2. rewrite Hc. intros (_ & H & _).
      discriminate.
    + apply bool_decide_eq_false_2. simpl. intros (_ & H & _). discriminate.
  - apply bool_decide_eq_false_2. intros (H & _). contradiction.
Qed.

Lemma lose_port_run node_name port_name p n r :
  objects n !! p = Some r ->
  lock r = false ->
  lose_port node_name (port_name, p) n =
  Done (if lost_notifies node_name r
        then [{| name := port_name; port := p |}] else [])
       (set_ports (if lost_removes node_name r
                   then delete port_name (ports_ n) else ports_ n)
          (set_objects (<[p := lost node_name r]> (objects n)) n)).
Proof.
  intros Hr Hl. open_node n. open_port r. simpl in Hr, Hl. subst r_lock.
  unfold lose_port, lost, lost_removes, lost_notifies, lock_guard, lock_lock,
    lock_unlock, ErasePort.
  cbn [fst snd]. mrun.
  destruct (decide (r_pn = node_name)) as [E|E].
  - destruct r_closed; cbn [negb].
    + mrun. destruct (decide (r_state = kReceiving)) as [Hs|Hs].
      * rewrite (bool_decide_eq_false_2 (r_state ≠ kReceiving)) by auto.
        rewrite bool_decide_eq_false_2 by (intros (_ & H & _); discriminate).
        rewrite bool_decide_eq_false_2 by (intros [_ H]; auto).
        mrun. reflexivity.
      * rewrite (bool_decide_eq_true_2 (r_state ≠ kReceiving)) by auto.
        rewrite bool_decide_eq_false_2 by (intros (_ & H & _); discriminate).
        rewrite bool_decide_eq_true_2 by auto.
        mrun. reflexivity.
    + mrun. destruct (decide (r_state = kReceiving)) as [Hs|Hs].
      * rewrite (bool_decide_eq_false_2 (r_state ≠ kReceiving)) by auto.
        rewrite (bool_decide_eq_true_2 (r_state = kReceiving)) by auto.
        rewrite bool_decide_eq_true_2 by auto.
        rewrite bool_decide_eq_false_2 by (intros [_ H]; auto).
        mrun. reflexivity.
      * rewrite (bool_decide_eq_true_2 (r_state ≠ kReceiving)) by auto.
        rewrite (bool_decide_eq_false_2 (r_state = kReceiving)) by auto.
        rewrite bool_decide_eq_false_2 by (intros (_ & _ & H); auto).
        rewrite bool_decide_eq_true_2 by auto.
        mrun. reflexivity.
  - mrun.
    rewrite bool_decide_eq_false_2 by (intros (H & _); auto).
    rewrite bool_decide_eq_false_2 by (intros (H & _); auto).
    mrun. reflexivity.
Qed.

Lemma lose_ports_run node_name (l : list (PortName * PortPtr)) :
  forall n,
    Forall (fun e => exists r, objects n !! e.2 = Some r /\ lock r = false) l ->
    exists notified n',
      lose_ports node_name l n = Done notified n' /\
      (forall q,
         objects n' !! q =
         if decide (q ∈ l.*2) then lost node_name <$> objects n !! q
         else objects n !! q) /\
      (forall nm,
         (forall e, e ∈ l -> e.1 = nm ->
            from_option (lost_removes node_name) false (objects n !! e.2)
            = false) ->
         ports_ n' !! nm = ports_ n !! nm) /\
      (forall e,
         e ∈ l ->
         from_option (lost_removes node_name) false (objects n !! e.2) = true ->
         ports_ n' !! e.1 = None) /\
      (forall ref,
         ref ∈ notified ->
         (name ref, port ref) ∈ l /\
         from_option (lost_notifies node_name) false (objects n !! port ref)
         = true) /\
      (forall e,
         e ∈ l ->
         from_option (lost_notifies node_name) false (objects n !! e.2) = true ->
         exists nm, {| name := nm; port := e.2 |} ∈ notified) /\
      delegate_ n' = delegate_ n.
Proof.
  induction l as [|[nm p] l IH]; intros n Hall.
  - exists [], n. split; [reflexivity|].
    split; [intros q; rewrite decide_False by apply not_elem_of_nil; reflexivity|].
    split; [reflexivity|].
    split; [intros e He; inversion He|].
    split; [intros ref Href; inversion Href|].
    split; [intros e He; inversion He|reflexivity].
  - inversion Hall as [|? ? (r & Hr & Hl) Hrest]; subst. cbn [snd] in Hr.
    set (n1 := set_ports (if lost_removes node_name r
                          then delete nm (ports_ n) else ports_ n)
                 (set_objects (<[p := lost node_name r]> (objects n)) n)).
    assert (Ho1 : forall q,
              objects n1 !! q =
              if decide (q = p) then Some (lost node_name r)
              else objects n !! q).
    { intros q. subst n1. simpl. destruct (decide (q = p)) as [->|Hne].
      - eapply insert_lookup_same. exact Hr.
      - apply list_lookup_insert_ne. congruence. }
    assert (Hrem1 : forall q,
              from_option (lost_removes node_name) false (objects n1 !! q) =
              from_option (lost_removes node_name) false (objects n !! q)).
    { intros q. rewrite Ho1. destruct (decide (q = p)) as [->|]; [|reflexivity].
      rewrite Hr. simpl. apply lost_removes_lost. }
    assert (Hnot1 : forall q,
              from_option (lost_notifies node_name) false (objects n1 !! q)
              = true ->
              q <> p /\
              from_option (lost_notifies node_name) false (objects n !! q)
              = true).
    { intros q. rewrite Ho1. destruct (decide (q = p)) as [->|Hne].
      - simpl. rewrite lost_notifies_lost. discriminate.
      - auto. }
    destruct (IH n1) as (L' & n' & Hrun & Ha & Hb1 & Hb2 & Hc & Hd & Hdel).
    { eapply Forall_impl; [exact Hrest|]. intros e (r' & Hr' & Hl').
      rewrite Ho1. destruct (decide (e.2 = p)) as [E|E].
      - eexists. split; [reflexivity|]. rewrite lost_lock. exact Hl.
      - eauto. }
    cbn [lose_ports]. rewrite bind_run, (lose_port_run _ _ _ _ _ Hr Hl).
    fold n1. cbv beta iota. rewrite bind_run, Hrun. cbv beta iota.
    eexists. exists n'. split; [reflexivity|].
    split; [|split; [|split; [|split; [|split]]]].
    + intros q. rewrite Ha, Ho1. cbn [fmap list_fmap snd].
      destruct (decide (q = p)) as [->|Hne].
      * rewrite (decide_True (P := p ∈ p :: l.*2)) by left.
        rewrite Hr. destruct (decide (p ∈ l.*2)); simpl;
          [rewrite lost_idemp|]; reflexivity.
      * destruct (decide (q ∈ l.*2)) as [Hin|Hnin].
        -- rewrite decide_True by (right; exact Hin). reflexivity.
        -- rewrite decide_False; [reflexivity|].
           intros [E|H]%elem_of_cons; [congruence|contradiction].
    + intros name Hfree. rewrite Hb1.
      * subst n1. simpl. destruct (lost_removes node_name r) eqn:Hrm;
          [|reflexivity].
        apply lookup_delete_ne. intros ->.
        specialize (Hfree (name, p) ltac:(left) eq_refl).
        cbn [snd] in Hfree. rewrite Hr in Hfree. simpl in Hfree. congruence.
      * intros e He Hname. rewrite Hrem1. apply Hfree; [right; exact He|].
        exact Hname.
    + intros e [->|He]%elem_of_cons Hrm.
      * cbn [fst snd] in *. rewrite Hr in Hrm. simpl in Hrm.
        destruct (decide (Exists (fun e => e.1 = nm /\
                    from_option (lost_removes node_name) false
                      (objects n1 !! e.2) = true) l)) as [Hex|Hnex].
        -- apply Exists_exists in Hex as (e' & He' & <- & Hrm').
           apply Hb2; assumption.
        -- rewrite Hb1.
           ++ subst n1. simpl. rewrite Hrm. apply lookup_delete_eq.
           ++ intros e He Hname.
              destruct (from_option (lost_removes node_name) false
                          (objects n1 !! e.2)) eqn:Hx; [|reflexivity].
              exfalso. apply Hnex. apply Exists_exists. eauto.
      * apply Hb2; [exact He|]. rewrite Hrem1. exact Hrm.
    + intros ref [Href|Href]%elem_of_app.
      * destruct (lost_notifies node_name r) eqn:Hn; [|inversion Href].
        apply list_elem_of_singleton in Href as ->. cbn [name port].
        split; [left|]. rewrite Hr. exact Hn.
      * destruct (Hc ref Href) as [Hin Hn].
        split; [right; exact Hin|]. apply Hnot1. exact Hn.
    + intros e [->|He]%elem_of_cons Hn.
      * cbn [snd] in *. rewrite Hr in Hn. simpl in Hn. rewrite Hn.
        exists nm. apply elem_of_app. left. left.
      * destruct (decide (e.2 = p)) as [E|E].
        -- rewrite E in Hn |- *. rewrite Hr in Hn. simpl in Hn. rewrite Hn.
           exists nm. apply elem_of_app. left. left.
        -- destruct (Hd e He) as [nm' Hin].
           { rewrite Ho1, decide_False by exact E. exact Hn. }
           exists nm'. apply elem_of_app. right. exact Hin.
    + rewrite Hdel. reflexivity.
Qed.

Lemma for_each_PortStatusChanged (l : list PortRef) :
  forall n,
    for_each PortStatusChanged l n =
    Done tt
      (set_delegate
         {| forwarded := forwarded (delegate_ n);
            status_changed := status_changed (delegate_ n) ++ l;
            name_source := name_source (delegate_ n);
            names_generated := names_generated (delegate_ n) |} n).
Proof.
  induction l as [|x l IH]; intros n; cbn [for_each].
  - rewrite app_nil_r. open_node n. reflexivity.
  - rewrite bind_run. unfold PortStatusChanged at 1, modify_node.
    cbv beta iota. rewrite IH. open_node n. simpl.
    rewrite <- app_assoc. reflexivity.
Qed.

Lemma LostConnectionToNode_run node_name n :
  (forall nm p,
     ports_ n !! nm = Some p ->
     exists r, objects n !! p = Some r /\ lock r = false) ->
  exists n' notified,
    LostConnectionToNode node_name n = Done OK n' /\
    (forall nm p r,
       ports_ n !! nm = Some p ->
       objects n !! p = Some r ->
       objects n' !! p = Some (lost node_name r) /\
       ports_ n' !! nm = if lost_removes node_name r then None else Some p) /\
    (forall nm, ports_ n !! nm = None -> ports_ n' !! nm = None) /\
    (forall q,
       (forall nm, ports_ n !! nm <> Some q) ->
       objects n' !! q = objects n !! q) /\
    status_changed (delegate_ n') = status_changed (delegate_ n) ++ notified /\
    (forall ref,
       ref ∈ notified ->
       ports_ n !! name ref = Some (port ref) /\
       exists r,
         objects n !! port ref = Some r /\ lost_notifies node_name r = true) /\
    (forall nm p r,
       ports_ n !! nm = Some p ->
       objects n !! p = Some r ->
       lost_notifies node_name r = true ->
       exists nm',
         ports_ n !! nm' = Some p /\
         {| name := nm'; port := p |} ∈ notified) /\
    forwarded (delegate_ n') = forwarded (delegate_ n).
Proof.
  intros Hok.
  destruct (lose_ports_run node_name (map_to_list (ports_ n)) n)
    as (L & n1 & Hrun & Ha & Hb1 & Hb2 & Hc & Hd & Hdel).
  { apply Forall_forall. intros [nm p] Hin.
    apply elem_of_map_to_list in Hin. exact (Hok nm p Hin). }
  unfold LostConnectionToNode. rewrite bind_run. unfold get_node at 1.
  cbv beta iota. rewrite bind_run, Hrun. cbv beta iota.
  rewrite bind_run, for_each_PortStatusChanged. cbv beta iota. unfold ret.
  eexists. exists L. split; [reflexivity|].
  assert (Hrange : forall q,
            q ∈ (map_to_list (ports_ n)).*2 <->
            exists nm, ports_ n !! nm = Some q).
  { intros q. rewrite list_elem_of_fmap. split.
    - intros ([nm p] & -> & Hin). exists nm.
      apply elem_of_map_to_list. exact Hin.
    - intros [nm Hnm]. exists (nm, q). split; [reflexivity|].
      apply elem_of_map_to_list. exact Hnm. }
  cbn [objects ports_ set_delegate delegate_ status_changed forwarded].
  split; [|split; [|split; [|split; [|split; [|split]]]]].
  - intros nm p r Hnm Hp. split.
    + rewrite Ha, decide_True by (apply Hrange; eauto).
      rewrite Hp. reflexivity.
    + destruct (lost_removes node_name r) eqn:Hrm.
      * apply (Hb2 (nm, p)).
        -- apply elem_of_map_to_list. exact Hnm.
        -- cbn [snd]. rewrite Hp. exact Hrm.
      * rewrite Hb1; [exact Hnm|].
        intros [nm' p'] Hin Hname. cbn [fst snd] in *. subst nm'.
        apply elem_of_map_to_list in Hin.
        assert (p' = p) as -> by congruence.
        rewrite Hp. exact Hrm.
  - intros nm Hnone. rewrite Hb1; [exact Hnone|].
    intros [nm' p'] Hin Hname. cbn [fst] in Hname. subst nm'.
    apply elem_of_map_to_list in Hin. congruence.
  - intros q Hfree. rewrite Ha, decide_False; [reflexivity|].
    intros [nm Hnm]%Hrange. exact (Hfree nm Hnm).
  - rewrite Hdel. reflexivity.
  - intros ref Href. destruct (Hc ref Href) as [Hin Hn].
    apply elem_of_map_to_list in Hin. split; [exact Hin|].
    destruct (objects n !! port ref) as [r|]; [|discriminate].
    exists r. auto.
  - intros nm p r Hnm Hp Hn.
    destruct (Hd (nm, p)) as [nm' Hin].
    + apply elem_of_map_to_list. exact Hnm.
    + cbn [snd]. rewrite Hp. exact Hn.
    + exists nm'. split; [|exact Hin].
      destruct (Hc _ Hin) as [Hin' _]. cbn [name port] in Hin'.
      apply elem_of_map_to_list in Hin'. exact Hin'.
  - rewrite Hdel. reflexivity.
Qed.

(** X16. [LostConnectionToNode], on a node whose registered ports all have
    records with a free lock, returns OK and treats every registered port
    whose peer is on the lost node as follows: unless the port already knows
    its peer closed, it is marked so, with the number just before its queue
    cursor as the last one it will receive; its name is erased exactly when
    it is not Receiving.  Ports with a peer elsewhere, records that are not
    registered and the messages forwarded are untouched.  The delegate is
    told of a status change only for registered Receiving ports that lost a
    peer they did not know to be closed, and for each such port. *)
Theorem X16_LostConnectionToNode (node_name : NodeName) (n : Node) :
  (forall nm p,
     ports_ n !! nm = Some p ->
     exists r, objects n !! p = Some r /\ lock r = false) ->
  exists n' notified,
    LostConnectionToNode node_name n = Done OK n' /\
    (forall nm p r,
       ports_ n !! nm = Some p ->
       objects n !! p = Some r ->
       objects n' !! p = Some (lost node_name r) /\
       ports_ n' !! nm = if lost_removes node_name r then None else Some p) /\
    (forall nm, ports_ n !! nm = None -> ports_ n' !! nm = None) /\
    (forall q,
       (forall nm, ports_ n !! nm <> Some q) ->
       objects n' !! q = objects n !! q) /\
    status_changed (delegate_ n') = status_changed (delegate_ n) ++ notified /\
    (forall ref,
       ref ∈ notified ->
       ports_ n !! name ref = Some (port ref) /\
       exists r,
         objects n !! port ref = Some r /\ lost_notifies node_name r = true) /\
    (forall nm p r,
       ports_ n !! nm = Some p ->
       objects n !! p = Some r ->
       lost_notifies node_name r = true ->
       exists nm',
         ports_ n !! nm' = Some p /\
         {| name := nm'; port := p |} ∈ notified) /\
    forwarded (delegate_ n') = forwarded (delegate_ n).
Proof. apply LostConnectionToNode_run. Qed.

(** Node 1 loses node 2: port 10, Receiving from node 2 with its cursor at
    5, is marked closed with 4 as its last number and reported; the proxy 11
    towards node 2 is erased. *)
Lemma X16_LostConnectionToNode_witness :
  exists n',
    LostConnectionToNode 2
      (example_node
         [example_port kReceiving 2 20 1 5 [];
          example_port kProxying 2 21 1 1 []]
         [(10%N, 0%nat); (11%N, 1%nat)]) = Done OK n' /\
    objects n' !! 0%nat =
      Some (set_last_sequence_num_to_receive 4
              (set_peer_closed true (example_port kReceiving 2 20 1 5 []))) /\
    ports_ n' !! 10%N = Some 0%nat /\
    ports_ n' !! 11%N = None.
Proof.
  destruct (X16_LostConnectionToNode 2
              (example_node
                 [example_port kReceiving 2 20 1 5 [];
                  example_port kProxying 2 21 1 1 []]
                 [(10%N, 0%nat); (11%N, 1%nat)]))
    as (n' & notified & Hrun & Hports & _).
  { intros nm p H. simpl in H.
    apply lookup_insert_Some in H as [[<- <-]|[_ H]].
    - eexists. split; reflexivity.
    - apply lookup_insert_Some in H as [[<- <-]|[_ H]].
      + eexists. split; reflexivity.
      + rewrite lookup_empty in H. discriminate H. }
  destruct (Hports 10%N 0%nat _ eq_refl eq_refl) as [Ho Hp].
  destruct (Hports 11%N 1%nat _ eq_refl eq_refl) as [_ Hp'].
  exists n'. split; [exact Hrun|]. split; [exact Ho|].
  split; [exact Hp | exact Hp'].
Defined.

(** X17. After [LostConnectionToNode], a Receiving port whose peer was on the
    lost node (and not yet known to be closed) is at its end at once: with
    its queue cursor not 0, every [GetMessageIf] returns PeerClosed, also
    when messages are still queued, and [SendMessage] returns PeerClosed;
    neither changes the node. *)
Theorem X17_lost_peer_is_closed (node_name : NodeName) (n : Node)
    (port_ref : PortRef) (r : Port) :
  (forall nm p,
     ports_ n !! nm = Some p ->
     exists r, objects n !! p = Some r /\ lock r = false) ->
  ports_ n !! name port_ref = Some (port port_ref) ->
  objects n !! port port_ref = Some r ->
  state r = kReceiving ->
  peer_node_name r = node_name ->
  peer_closed r = false ->
  0 < MessageQueue.next_sequence_num (message_queue r) < 2 ^ 32 ->
  exists n',
    LostConnectionToNode node_name n = Done OK n' /\
    (forall selector,
       GetMessageIf port_ref selector n' =
       Done (ERROR_PORT_PEER_CLOSED, None) n') /\
    (forall message,
       name port_ref ∉ ports message ->
       SendMessage port_ref message n' = Done ERROR_PORT_PEER_CLOSED n').
Proof.
  intros Hok Hname Hr Hs Hpeer Hpc Hnext.
  destruct (LostConnectionToNode_run node_name n Hok)
    as (n' & notified & Hrun & Hports & _).
  destruct (Hports _ _ _ Hname Hr) as [Hr' _].
  destruct (Hok _ _ Hname) as (r0 & Hr0 & Hl). rewrite Hr in Hr0.
  injection Hr0 as <-.
  assert (Hlost : lost node_name r =
                  set_last_sequence_num_to_receive
                    (wrap32
                       (MessageQueue.next_sequence_num (message_queue r) - 1))
                    (set_peer_closed true r)).
  { unfold lost. rewrite decide_True by exact Hpeer. rewrite Hpc.
    reflexivity. }
  rewrite Hlost in Hr'.
  exists n'. split; [exact Hrun|]. split.
  - intros selector.
    rewrite (GetMessageIf_unfold _ _ _ _ Hr' Hl Hs).
    unfold CanAcceptMoreMessages. simpl.
    rewrite wrap32_small by lia.
    rewrite wrap64_small
      by (change (2 ^ 64) with 18446744073709551616;
          change (2 ^ 32) with 4294967296 in Hnext; lia).
    rewrite Z.eqb_refl. reflexivity.
  - intros message Hnot.
    exact (SendMessage_peer_closed _ _ _ _ Hnot Hr' Hl Hs eq_refl).
Qed.

(** Port 10 holds the message it waits for when node 2 is lost: the message
    can no longer be read. *)
Lemma X17_lost_peer_is_closed_witness :
  exists n',
    LostConnectionToNode 2
      (example_node [example_port kReceiving 2 20 1 5 [example_message 10 5 []]]
         [(10%N, 0%nat)]) = Done OK n' /\
    GetMessageIf {| name := 10%N; port := 0%nat |} None n' =
      Done (ERROR_PORT_PEER_CLOSED, None) n'.
Proof.
  destruct (X17_lost_peer_is_closed 2
              (example_node
                 [example_port kReceiving 2 20 1 5 [example_message 10 5 []]]
                 [(10%N, 0%nat)])
              {| name := 10%N; port := 0%nat |}
              (example_port kReceiving 2 20 1 5 [example_message 10 5 []]))
    as (n' & Hrun & Hget & _).
  - intros nm p H. simpl in H.
    apply lookup_insert_Some in H as [[<- <-]|[_ H]].
    + eexists. split; reflexivity.
    + rewrite lookup_empty in H. discriminate H.
  - reflexivity.
  - reflexivity.
  - reflexivity.
  - reflexivity.
  - reflexivity.
  - simpl. lia.
  - exists n'. split; [exact Hrun | apply Hget].
Defined.

(** ** A message that arrives while its port is in transit *)

Lemma AcceptMessage_queue m q :
  (MessageQueue.AcceptMessage m q).1 =
  {| MessageQueue.heap_ := MessageQueue.push_heap m (MessageQueue.heap_ q);
     MessageQueue.next_sequence_num_ := MessageQueue.next_sequence_num_ q;
     MessageQueue.signalable_ := MessageQueue.signalable_ q |}.
Proof.
  unfold MessageQueue.AcceptMessage.
  destruct (negb (MessageQueue.signalable_ q)); reflexivity.
Qed.

(** X18. Port [X] of node [nb] has been sent to node [nc], where it was
    accepted as port [Y]; [X] is still Buffering.  A message for [X] that
    arrives now, carrying the number [X] waits for, is kept: nothing is
    forwarded and no status change is reported.  When PortAccepted arrives,
    [X] becomes a proxy and forwards the message, readdressed to [Y],
    followed by its ObserveProxy.  Node [nc] accepts the forwarded message
    for [Y], and [GetMessage] on [Y] returns it. *)
Theorem X18_message_during_transfer (nb nc : Node) (X Y : PortName)
    (px py : PortPtr) (rx ry : Port) (m : UserMessage) :
  ports_ nb !! X = Some px -> objects nb !! px = Some rx ->
  lock rx = false -> state rx = kBuffering ->
  peer_node_name rx = name_ nc -> peer_port_name rx = Y ->
  peer_closed rx = false -> remove_proxy_on_last_message rx = false ->
  MessageQueue.heap_ (message_queue rx) = [] ->
  ports_ nc !! Y = Some py -> objects nc !! py = Some ry ->
  lock ry = false -> state ry = kReceiving ->
  peer_closed ry = false -> remove_proxy_on_last_message ry = false ->
  MessageQueue.heap_ (message_queue ry) = [] ->
  MessageQueue.next_sequence_num_ (message_queue ry) =
    MessageQueue.next_sequence_num_ (message_queue rx) ->
  um_port_name m = X -> um_slots m = [] -> sequence_num m <> 0 ->
  MessageQueue.GetSequenceNum m =
    MessageQueue.next_sequence_num_ (message_queue rx) ->
  let m' := readdressed Y m in
  exists nb1 nb2 nc1 nc2,
    AcceptMessage (kUser m) nb = Done OK nb1 /\
    forwarded (delegate_ nb1) = forwarded (delegate_ nb) /\
    status_changed (delegate_ nb1) = status_changed (delegate_ nb) /\
    AcceptMessage (Internal X kPortAccepted) nb1 = Done OK nb2 /\
    forwarded (delegate_ nb2) =
      forwarded (delegate_ nb) ++
      [(name_ nc, kUser m');
       (name_ nc,
        Internal Y
          (kObserveProxy
             {| proxy_node_name := name_ nb; proxy_port_name := X;
                proxy_to_node_name := name_ nc;
                proxy_to_port_name := Y |}))] /\
    (exists rx',
       objects nb2 !! px = Some rx' /\ state rx' = kProxying /\
       MessageQueue.heap_ (message_queue rx') = []) /\
    AcceptMessage (kUser m') nc = Done OK nc1 /\
    GetMessage {| name := Y; port := py |} nc1 = Done (OK, Some m') nc2.
Proof.
  intros HX Hx Hlx Hsx Hxn Hxp Hxc Hxr Hxh HY Hy Hly Hsy Hyc Hyr Hyh Hcur
         Hmp Hms Hnz Hseq.
  cbv zeta.
  assert (Hcanx : CanAcceptMoreMessages rx = true)
    by (unfold CanAcceptMoreMessages; rewrite Hxc, Hxr; reflexivity).
  assert (Hcany : CanAcceptMoreMessages ry = true)
    by (unfold CanAcceptMoreMessages; rewrite Hyc, Hyr; reflexivity).
  cbn [AcceptMessage].
  rewrite (OnUserMessage_endpoint_run m nb px rx)
    by (rewrite ?Hmp, ?Hsx; auto; discriminate).
  rewrite bool_decide_eq_true_2 by exact Hsx.
  rewrite andb_false_r, app_nil_r, AcceptMessage_queue, Hxh. cbn [MessageQueue.push_heap].
  set (q1 := {| MessageQueue.heap_ := [m];
                MessageQueue.next_sequence_num_ :=
                  MessageQueue.next_sequence_num_ (message_queue rx);
                MessageQueue.signalable_ :=
                  MessageQueue.signalable_ (message_queue rx) |}).
  set (nb1 := set_delegate _ _).
  exists nb1.
  assert (Hx1 : objects nb1 !! px = Some (set_message_queue q1 rx)).
  { subst nb1. simpl. eapply insert_lookup_same. exact Hx. }
  rewrite (OnPortAccepted_unfold X nb1 px (set_message_queue q1 rx))
    by (subst nb1; simpl; auto).
  cbn [message_queue set_message_queue MessageQueue.heap_ length].
  erewrite ForwardMessages_loop_run.
  2:{ simpl. eapply insert_lookup_same. exact Hx1. }
  2:{ simpl. repeat constructor; assumption. }
  2:{ simpl. lia. }
  cbn [message_queue set_message_queue set_state set_lock peer_node_name
       peer_port_name MessageQueue.heap_ MessageQueue.next_sequence_num_].
  unfold drained. cbn [MessageQueue.heap_ MessageQueue.next_sequence_num_
                       MessageQueue.signalable_ q1 in_order drain_heap].
  subst q1. cbn [MessageQueue.heap_ MessageQueue.next_sequence_num_
                 MessageQueue.signalable_ in_order drain_heap].
  rewrite Hseq, Z.eqb_refl.
  cbn [in_order drain_heap map].
  rewrite decide_False by auto.
  unfold InitiateProxyRemoval_Locked, MaybeRemoveProxy_Locked, lock_unlock,
    ForwardMessage, NewInternalMessage.
  rewrite bind_run, bind_run. erewrite deref_run by lookup_solve.
  cbv beta iota. cbn [remove_proxy_on_last_message set_message_queue
                      set_state set_lock].
  rewrite Hxr. mrun.
  rewrite (OnUserMessage_endpoint_run (readdressed Y m) nc py ry)
    by (rewrite ?Hsy; auto; discriminate).
  rewrite AcceptMessage_queue, Hyh. cbn [MessageQueue.push_heap].
  eexists. eexists. eexists.
  split; [reflexivity|].
  split; [subst nb1; destruct nb; reflexivity|].
  split; [subst nb1; destruct nb; reflexivity|].
  split; [reflexivity|].
  split.
  { subst nb1. open_node nb. simpl. rewrite <- app_assoc, Hxn, Hxp.
    reflexivity. }
  split.
  { eexists. split; [simpl; eapply insert_lookup_same; exact Hx1|].
    split; reflexivity. }
  split; [reflexivity|].
  unfold GetMessage. erewrite GetMessageIf_unfold.
  2:{ simpl. eapply insert_lookup_same. exact Hy. }
  2:{ exact Hly. }
  2:{ exact Hsy. }
  replace (CanAcceptMoreMessages (set_message_queue _ ry))
    with (CanAcceptMoreMessages ry) by reflexivity.
  rewrite Hcany. cbn [negb].
  unfold MessageQueue.GetNextMessageIf.
  cbn [message_queue set_message_queue MessageQueue.heap_
       MessageQueue.next_sequence_num_].
  replace (MessageQueue.GetSequenceNum (readdressed Y m))
    with (MessageQueue.GetSequenceNum m) by reflexivity.
  rewrite Hcur, Hseq, Z.eqb_refl. cbn [negb].
  unfold ports at 1. cbn [readdressed um_slots]. rewrite Hms.
  cbn [fmap list_fmap for_each]. mrun. reflexivity.
Qed.

(** Port 20 of node 2 is on its way to node 3 as port 30 when message 5
    arrives for it: the message comes out of port 30. *)
Lemma X18_message_during_transfer_witness :
  exists nb1 nb2 nc1 nc2,
    AcceptMessage (kUser (example_message 20 5 []))
      (example_node_named 2 [example_port kBuffering 3 30 1 5 []]
         [(20%N, 0%nat)]) = Done OK nb1 /\
    AcceptMessage (Internal 20 kPortAccepted) nb1 = Done OK nb2 /\
    AcceptMessage (kUser (example_message 30 5 []))
      (example_node_named 3 [example_port kReceiving 1 10 1 5 []]
         [(30%N, 0%nat)]) = Done OK nc1 /\
    GetMessage {| name := 30%N; port := 0%nat |} nc1 =
      Done (OK, Some (example_message 30 5 [])) nc2.
Proof.
  destruct (X18_message_during_transfer
              (example_node_named 2 [example_port kBuffering 3 30 1 5 []]
                 [(20%N, 0%nat)])
              (example_node_named 3 [example_port kReceiving 1 10 1 5 []]
                 [(30%N, 0%nat)])
              20%N 30%N 0%nat 0%nat
              (example_port kBuffering 3 30 1 5 [])
              (example_port kReceiving 1 10 1 5 [])
              (example_message 20 5 [])
              eq_refl eq_refl eq_refl eq_refl eq_refl eq_refl eq_refl eq_refl
              eq_refl eq_refl eq_refl eq_refl eq_refl eq_refl eq_refl eq_refl
              eq_refl eq_refl eq_refl ltac:(discriminate) eq_refl)
    as (nb1 & nb2 & nc1 & nc2 & H1 & _ & _ & H2 & _ & _ & H3 & H4).
  exists nb1, nb2, nc1, nc2. auto.
Defined.

(** ** Successive sends *)

(** X19. Messages without ports and without a number, sent one after the
    other from a Receiving port with a remote peer, all succeed and reach
    the delegate in the order sent, numbered consecutively from the port's
    [next_sequence_num_to_send] in 64-bit arithmetic; the counter ends up
    advanced by their count and nothing else in the node changes. *)
Theorem X19_sends_are_numbered (port_ref : PortRef) (ms : list UserMessage) :
  forall (n : Node) (r : Port),
    objects n !! port port_ref = Some r ->
    lock r = false ->
    state r = kReceiving ->
    peer_closed r = false ->
    peer_node_name r <> name_ n ->
    Forall (fun m => um_slots m = [] /\ sequence_num m = 0) ms ->
    0 <= next_sequence_num_to_send r < 2 ^ 64 ->
    exists n',
      send_messages port_ref ms n = Done (replicate (length ms) OK) n' /\
      forwarded (delegate_ n') =
        forwarded (delegate_ n) ++
        imap (fun i m =>
                (peer_node_name r,
                 kUser {| um_port_name := peer_port_name r;
                          sequence_num :=
                            wrap64 (next_sequence_num_to_send r + Z.of_nat i);
                          um_slots := [];
                          um_payload := um_payload m |})) ms /\
      objects n' =
        <[port port_ref :=
            set_next_sequence_num_to_send
              (wrap64 (next_sequence_num_to_send r + Z.of_nat (length ms))) r]>
          (objects n) /\
      same_control n n'.
Proof.
  induction ms as [|m ms IH]; intros n r Hr Hl Hs Hpc Hremote Hall Hns.
  - exists n. cbn [send_messages length replicate imap].
    split; [reflexivity|]. split; [rewrite app_nil_r; reflexivity|].
    split; [|apply same_control_refl].
    rewrite Z.add_0_r, wrap64_small by exact Hns.
    rewrite set_next_sequence_num_to_send_id.
    symmetry. apply list_insert_id. exact Hr.
  - inversion Hall as [|? ? [Hslots Hzero] Hrest]; subst.
    cbn [send_messages]. rewrite bind_run.
    rewrite (SendMessage_remote_run _ _ _ _ Hr Hl Hs Hpc Hremote Hslots).
    cbv beta iota.
    set (r1 := set_next_sequence_num_to_send (counter_after r m OK) r).
    set (n1 := set_delegate _ _).
    assert (Hc : next_sequence_num_to_send r1 =
                 wrap64 (next_sequence_num_to_send r + 1)).
    { subst r1. unfold counter_after.
      cbn [next_sequence_num_to_send set_next_sequence_num_to_send].
      rewrite (decide_True (P := sequence_num m = 0)) by exact Hzero.
      destruct (decide (OK = OK)); [reflexivity|contradiction]. }
    destruct (IH n1 r1) as (n' & Hrun & Hf & Ho & Hsame).
    { subst n1. simpl. eapply insert_lookup_same. exact Hr. }
    { exact Hl. }
    { exact Hs. }
    { exact Hpc. }
    { subst n1 r1. destruct n. exact Hremote. }
    { exact Hrest. }
    { rewrite Hc. apply wrap64_range. }
    rewrite bind_run, Hrun. cbv beta iota.
    exists n'. split; [reflexivity|].
    assert (Hmod : forall k,
              wrap64 (wrap64 (next_sequence_num_to_send r + 1) + k) =
              wrap64 (next_sequence_num_to_send r + (1 + k))).
    { intros k. unfold wrap64. rewrite Zplus_mod_idemp_l. f_equal. lia. }
    assert (Hf1 : forwarded (delegate_ n1) =
                  forwarded (delegate_ n) ++
                  [(peer_node_name r, kUser (stamped r m))])
      by (subst n1; destruct n; reflexivity).
    assert (Ho1 : objects n1 = <[port port_ref := r1]> (objects n))
      by (subst n1; destruct n; reflexivity).
    split; [|split].
    + rewrite Hf, Hf1, <- app_assoc. f_equal.
      cbn [imap app]. f_equal.
      * unfold stamped. rewrite decide_True by exact Hzero.
        rewrite Hslots, Z.add_0_r, wrap64_small by exact Hns. reflexivity.
      * apply imap_ext. intros i x _. unfold compose. cbv beta.
        change (peer_node_name r1) with (peer_node_name r).
        change (peer_port_name r1) with (peer_port_name r).
        rewrite Hc, Hmod. do 4 f_equal. lia.
    + rewrite Ho, Ho1, list_insert_insert_eq, Hc, Hmod. f_equal.
      replace (Z.of_nat (length (m :: ms)))
        with (1 + Z.of_nat (length ms)) by (cbn [length]; lia).
      subst r1. destruct r. reflexivity.
    + eapply same_control_trans; [|exact Hsame].
      subst n1. destruct n. repeat split.
Qed.

Lemma X19_sends_are_numbered_witness :
  exists n',
    send_messages {| name := 10%N; port := 0%nat |}
      [example_message 0 0 []; example_message 0 0 []]
      (example_node [example_port kReceiving 2 20 5 1 []] [(10%N, 0%nat)])
    = Done [OK; OK] n' /\
    forwarded (delegate_ n') =
      [(2%N, kUser (example_message 20 5 []));
       (2%N, kUser (example_message 20 6 []))].
Proof.
  destruct (X19_sends_are_numbered {| name := 10%N; port := 0%nat |}
              [example_message 0 0 []; example_message 0 0 []]
              (example_node [example_port kReceiving 2 20 5 1 []]
                 [(10%N, 0%nat)])
              (example_port kReceiving 2 20 5 1 [])
              eq_refl eq_refl eq_refl eq_refl ltac:(discriminate)
              ltac:(repeat constructor) ltac:(simpl; lia))
    as (n' & Hrun & Hf & _).
  exists n'. split; [exact Hrun|]. rewrite Hf. reflexivity.
Defined.

(** ** A refused transfer *)

Lemma wrap64_succ_pred x :
  0 <= x < 2 ^ 64 -> wrap64 (wrap64 (x + 1) - 1) = x.
Proof.
  intros Hx. unfold wrap64. rewrite Zminus_mod_idemp_l.
  replace (x + 1 - 1) with x by lia. apply Z.mod_small. exact Hx.
Qed.

(** X20. [SendMessage] of a message that has no number yet and carries a
    single port which cannot be sent, because it is not Receiving or because
    it bears the name of the sender's own peer port: the call returns
    PortStateUnexpected, respectively PortCannotSendPeer, and the node is
    exactly as before: both locks are free again, the sender's counter has
    its old value, no name was generated and nothing was forwarded. *)
Theorem X20_SendMessage_port_refused (port_ref : PortRef)
    (message : UserMessage) (n : Node) (r : Port) (x : PortName)
    (d0 : PortDescriptor) (px : PortPtr) (rx : Port) :
  objects n !! port port_ref = Some r ->
  lock r = false ->
  state r = kReceiving ->
  peer_closed r = false ->
  0 <= next_sequence_num_to_send r < 2 ^ 64 ->
  um_slots message = [(x, d0)] ->
  sequence_num message = 0 ->
  x <> name port_ref ->
  ports_ n !! x = Some px ->
  px <> port port_ref ->
  objects n !! px = Some rx ->
  lock rx = false ->
  (state rx <> kReceiving ->
   SendMessage port_ref message n = Done ERROR_PORT_STATE_UNEXPECTED n) /\
  (state rx = kReceiving ->
   x = peer_port_name r ->
   SendMessage port_ref message n = Done ERROR_PORT_CANNOT_SEND_PEER n).
Proof.
  intros Hr Hl Hs Hpc Hns Hslots Hzero Hself Hn Hne Hx Hlx.
  rewrite (SendMessage_checked port_ref message n
             ltac:(unfold ports; rewrite Hslots; cbn;
                   intros [E|E]%elem_of_cons;
                   [simpl in E; congruence | inversion E])).
  destruct message as [mp ms msl mpl]. simpl in Hslots, Hzero. subst msl ms.
  open_node n. open_port r.
  destruct rx as [x_lock x_state x_pn x_pp x_ns x_last x_q x_deferred
                  x_remove x_closed x_om x_op].
  simpl in Hr, Hn, Hx, Hl, Hs, Hpc, Hlx, Hns. subst.
  cbv zeta.
  unfold lock_guard, lock_lock, lock_unlock, WillSendMessage_Locked,
    num_ports, ports.
  cbn [um_slots um_port_name sequence_num um_payload length fmap list_fmap
       fst snd].
  assert (Hfin : forall a,
            <[port port_ref :=
                {| lock := false; state := kReceiving; peer_node_name := r_pn;
                   peer_port_name := r_pp; next_sequence_num_to_send := r_ns;
                   last_sequence_num_to_receive := r_last;
                   message_queue := r_q; send_on_proxy_removal := r_deferred;
                   remove_proxy_on_last_message := r_remove;
                   peer_closed := false; outgoing_messages := r_om;
                   outgoing_ports := r_op |}]>
              (<[px :=
                   {| lock := false; state := x_state; peer_node_name := x_pn;
                      peer_port_name := x_pp;
                      next_sequence_num_to_send := x_ns;
                      last_sequence_num_to_receive := x_last;
                      message_queue := x_q;
                      send_on_proxy_removal := x_deferred;
                      remove_proxy_on_last_message := x_remove;
                      peer_closed := x_closed; outgoing_messages := x_om;
                      outgoing_ports := x_op |}]>
                 (<[port port_ref := a]> n_objs)) = n_objs).
  { intros a.
    rewrite (list_insert_insert_ne _ px (port port_ref)) by exact Hne.
    rewrite list_insert_insert_eq.
    rewrite list_insert_id; [apply list_insert_id; exact Hx|].
    rewrite list_lookup_insert_ne by congruence. exact Hr. }
  split.
  - intros Hsx. simpl in Hsx.
    repeat first
      [ mstep
      | rewrite Hn
      | rewrite (decide_True (P := x_state ≠ kReceiving)) by exact Hsx
      | progress (unfold GetPort, nonnull, lock_lock, lock_unlock)
      | progress cbn [um_slots um_port_name sequence_num um_payload length
                      fmap list_fmap fst snd lock_ports send_ports for_each
                      seq app] ].
    rewrite (wrap64_succ_pred _ Hns).
    f_equal. unfold set_objects. simpl. f_equal. apply Hfin.
  - intros Hsx Hpeer. simpl in Hsx, Hpeer. subst.
    repeat first
      [ mstep
      | rewrite Hn
      | rewrite (decide_False (P := kReceiving ≠ kReceiving)) by auto
      | rewrite (decide_True (P := r_pp = r_pp)) by reflexivity
      | progress (unfold GetPort, nonnull, lock_lock, lock_unlock)
      | progress cbn [um_slots um_port_name sequence_num um_payload length
                      fmap list_fmap fst snd lock_ports send_ports for_each
                      seq app] ].
    rewrite (wrap64_succ_pred _ Hns).
    f_equal. unfold set_objects. simpl. f_equal. apply Hfin.
Qed.

Lemma X20_SendMessage_port_refused_witness :
  SendMessage {| name := 10%N; port := 0%nat |}
    (example_message 0 0 [(12%N, empty_descriptor)])
    (example_node
       [example_port kReceiving 2 20 5 1 [];
        example_port kBuffering 3 31 1 1 []]
       [(10%N, 0%nat); (12%N, 1%nat)])
  = Done ERROR_PORT_STATE_UNEXPECTED
      (example_node
         [example_port kReceiving 2 20 5 1 [];
          example_port kBuffering 3 31 1 1 []]
         [(10%N, 0%nat); (12%N, 1%nat)]).
Proof.
  apply (X20_SendMessage_port_refused {| name := 10%N; port := 0%nat |}
           (example_message 0 0 [(12%N, empty_descriptor)])
           (example_node
              [example_port kReceiving 2 20 5 1 [];
               example_port kBuffering 3 31 1 1 []]
              [(10%N, 0%nat); (12%N, 1%nat)])
           (example_port kReceiving 2 20 5 1 []) 12%N empty_descriptor 1%nat
           (example_port kBuffering 3 31 1 1 [])
           eq_refl eq_refl eq_refl eq_refl ltac:(simpl; lia) eq_refl eq_refl
           ltac:(discriminate) eq_refl ltac:(discriminate) eq_refl eq_refl).
  discriminate.
Defined.

(** ** A port that arrives in a message *)

(** X21. A message carrying one port [x] arrives, in order, at a Receiving
    port with an empty queue.  The carried port is bound under [x] to a new
    record that is not signalable, PortAccepted goes back to where the port
    came from, and the delegate is told of a status change of the receiving
    port only.  A message for [x] that arrives now is queued without any
    status change.  Once [GetMessage] has handed out the carrying message,
    the record of [x] is signalable. *)
Theorem X21_carried_port (m : UserMessage) (n : Node) (p : PortPtr)
    (r : Port) (x : PortName) (d : PortDescriptor) :
  ports_ n !! um_port_name m = Some p ->
  objects n !! p = Some r ->
  lock r = false ->
  state r = kReceiving ->
  peer_closed r = false ->
  remove_proxy_on_last_message r = false ->
  MessageQueue.heap_ (message_queue r) = [] ->
  MessageQueue.signalable_ (message_queue r) = true ->
  MessageQueue.GetSequenceNum m =
    MessageQueue.next_sequence_num_ (message_queue r) ->
  um_slots m = [(x, d)] ->
  ports_ n !! x = None ->
  let px := length (objects n) in
  let carrier := {| name := um_port_name m; port := p |} in
  exists n1 n2,
    OnUserMessage m n = Done OK n1 /\
    objects n1 !! px = Some (accepted_port d) /\
    ports_ n1 = <[x := px]> (ports_ n) /\
    forwarded (delegate_ n1) = forwarded (delegate_ n) ++ [port_accepted_event d] /\
    status_changed (delegate_ n1) = status_changed (delegate_ n) ++ [carrier] /\
    (forall m2,
       um_port_name m2 = x -> um_slots m2 = [] ->
       exists n1',
         OnUserMessage m2 n1 = Done OK n1' /\
         delegate_ n1' = delegate_ n1) /\
    GetMessage carrier n1 = Done (OK, Some m) n2 /\
    objects n2 !! px =
      Some (set_message_queue
              (MessageQueue.set_signalable true
                 (message_queue (accepted_port d)))
              (accepted_port d)) /\
    delegate_ n2 = delegate_ n1.
Proof.
  intros Hn Hp Hl Hs Hpc Hrm Hheap Hsig Hseq Hslots Hfree. cbv zeta.
  assert (Hxp : x <> um_port_name m) by congruence.
  assert (Hlt : (p < length (objects n))%nat) by (eapply lookup_lt_Some; eauto).
  destruct m as [mp ms msl mpl]. simpl in Hn, Hslots, Hxp. subst msl.
  open_node n. open_port r.
  simpl in Hn, Hp, Hl, Hs, Hpc, Hrm, Hheap, Hsig, Hfree, Hlt. subst.
  destruct r_q as [q_heap q_next q_sig]. simpl in Hheap, Hsig, Hseq. subst.
  assert (Hlook : forall y : Port, (n_objs ++ [y]) !! length n_objs = Some y)
    by (intros; apply list_lookup_middle; reflexivity).
  assert (Hins : forall y z : Port,
            <[length n_objs := z]> (n_objs ++ [y]) = n_objs ++ [z]).
  { intros. rewrite insert_app_r_alt by lia.
    rewrite Nat.sub_diag. reflexivity. }
  assert (Hlookp : forall y : Port, (n_objs ++ [y]) !! p = n_objs !! p)
    by (intros; apply lookup_app_l; exact Hlt).
  assert (Hinsp : forall (y z : Port),
            <[p := z]> (n_objs ++ [y]) = <[p := z]> n_objs ++ [y])
    by (intros; apply insert_app_l; exact Hlt).
  assert (Hlook' : forall (y z : Port),
            (<[p := z]> n_objs ++ [y]) !! length n_objs = Some y).
  { intros. rewrite lookup_app_r by (rewrite length_insert; lia).
    rewrite length_insert, Nat.sub_diag. reflexivity. }
  assert (Hlookp' : forall (y z : Port),
            (<[p := z]> n_objs ++ [y]) !! p = Some z).
  { intros. rewrite lookup_app_l by (rewrite length_insert; lia).
    eapply insert_lookup_same. exact Hp. }
  assert (Hinsp' : forall (y z w : Port),
            <[p := z]> (<[p := w]> n_objs ++ [y]) = <[p := z]> n_objs ++ [y]).
  { intros. rewrite insert_app_l by (rewrite length_insert; lia).
    rewrite list_insert_insert_eq. reflexivity. }
  set (m := {| um_port_name := mp; sequence_num := ms; um_slots := [(x, d)];
               um_payload := mpl |}) in *.
  set (q1 := {| MessageQueue.heap_ := [m];
                MessageQueue.next_sequence_num_ := MessageQueue.GetSequenceNum m;
                MessageQueue.signalable_ := true |}).
  set (r0 := {| lock := false; state := kReceiving; peer_node_name := r_pn;
                peer_port_name := r_pp; next_sequence_num_to_send := r_ns;
                last_sequence_num_to_receive := r_last;
                message_queue :=
                  {| MessageQueue.heap_ := [];
                     MessageQueue.next_sequence_num_ :=
                       MessageQueue.GetSequenceNum m;
                     MessageQueue.signalable_ := true |};
                send_on_proxy_removal := r_deferred;
                remove_proxy_on_last_message := false; peer_closed := false;
                outgoing_messages := r_om; outgoing_ports := r_op |}) in *.
  set (n1 := {| name_ := n_name;
                delegate_ :=
                  {| forwarded := d_fwd ++ [port_accepted_event d];
                     status_changed :=
                       d_status ++ [{| name := mp; port := p |}];
                     name_source := d_source; names_generated := d_count |};
                objects :=
                  <[p := set_message_queue q1 r0]> n_objs ++ [accepted_port d];
                ports_ := <[x := length n_objs]> n_ports;
                local_messages_ := n_local;
                is_delivering_local_messages_ := n_delivering;
                oops_log := n_oops |}).
  assert (Hrun : OnUserMessage m
            {| name_ := n_name;
               delegate_ := {| forwarded := d_fwd; status_changed := d_status;
                               name_source := d_source;
                               names_generated := d_count |};
               objects := n_objs; ports_ := n_ports;
               local_messages_ := n_local;
               is_delivering_local_messages_ := n_delivering;
               oops_log := n_oops |} = Done OK n1).
  { subst n1 q1 r0 m.
    unfold OnUserMessage, GetPort, AcceptPort, make_shared, AddPortWithName,
      ForwardMessage, NewInternalMessage, PortStatusChanged, lock_guard,
      lock_lock, lock_unlock.
    cbn [um_port_name um_slots for_each_ok fst snd].
    repeat first
      [ rewrite bind_run
      | erewrite deref_run
          by (proj_simpl;
              first [apply Hlook | rewrite Hlookp; exact Hp | apply Hlookp'
                    | apply Hlook'])
      | erewrite update_run
          by (proj_simpl;
              first [apply Hlook | rewrite Hlookp; exact Hp | apply Hlookp'
                    | apply Hlook'])
      | rewrite Hins | rewrite Hinsp' | rewrite Hinsp | rewrite Hn
      | rewrite Hfree
      | rewrite Z.eqb_refl
      | progress (unfold ret, get_node, modify_node, stuck,
                  CanAcceptMoreMessages, MessageQueue.AcceptMessage)
      | progress (cbv beta iota)
      | progress proj_simpl
      | progress cbn [MessageQueue.heap_ MessageQueue.next_sequence_num_
                      MessageQueue.signalable_ MessageQueue.push_heap]
      | rewrite decide_True by dec_solve
      | rewrite decide_False by dec_solve
      | rewrite list_insert_insert_eq ].
    reflexivity. }
  assert (Hn1x : ports_ n1 !! x = Some (length n_objs))
    by (apply lookup_insert_eq).
  assert (Hn1p : ports_ n1 !! mp = Some p)
    by (subst n1; simpl; rewrite lookup_insert_ne by exact Hxp; exact Hn).
  assert (Ho1x : objects n1 !! length n_objs = Some (accepted_port d))
    by (apply Hlook').
  assert (Ho1p : objects n1 !! p = Some (set_message_queue q1 r0))
    by (apply Hlookp').
  exists n1.
  assert (Hget : GetMessage {| name := mp; port := p |} n1 =
    Done (OK, Some m)
      (set_objects
         (<[length n_objs :=
              set_message_queue
                (MessageQueue.set_signalable true
                   (message_queue (accepted_port d))) (accepted_port d)]>
            (<[p := set_message_queue
                      {| MessageQueue.heap_ := [];
                         MessageQueue.next_sequence_num_ :=
                           wrap32 (MessageQueue.GetSequenceNum m + 1);
                         MessageQueue.signalable_ := true |} r0]>
               (objects n1))) n1)).
  { unfold GetMessage.
    rewrite (GetMessageIf_unfold {| name := mp; port := p |} None n1 _
               Ho1p eq_refl eq_refl).
    change (CanAcceptMoreMessages (set_message_queue q1 r0)) with true.
    cbn [negb]. unfold MessageQueue.GetNextMessageIf.
    cbn [message_queue set_message_queue q1 MessageQueue.heap_
         MessageQueue.next_sequence_num_ MessageQueue.signalable_].
    rewrite Z.eqb_refl. cbn [negb]. unfold ports. cbn [m um_slots fmap
      list_fmap fst for_each].
    unfold make_signalable, GetPort, nonnull, lock_guard, lock_lock,
      lock_unlock.
    assert (Hl2 : forall z, (<[p := z]> (objects n1)) !! length n_objs =
                            Some (accepted_port d)).
    { intros. rewrite list_lookup_insert_ne by lia. exact Ho1x. }
    repeat first
      [ rewrite bind_run
      | erewrite deref_run
          by (proj_simpl;
              first [apply Hl2 | eapply insert_lookup_same; apply Hl2])
      | erewrite update_run
          by (proj_simpl;
              first [apply Hl2 | eapply insert_lookup_same; apply Hl2])
      | rewrite Hn1x
      | progress (change (lock (accepted_port d)) with false)
      | progress (unfold ret, get_node, modify_node, stuck)
      | progress (cbv beta iota)
      | progress proj_simpl
      | rewrite list_insert_insert_eq ].
    reflexivity. }
  eexists.
  split; [exact Hrun|]. split; [exact Ho1x|]. split; [reflexivity|].
  split; [reflexivity|]. split; [reflexivity|].
  split.
  { intros m2 Hm2 Hm2s.
    rewrite (OnUserMessage_endpoint_run m2 n1 (length n_objs) (accepted_port d))
      by (rewrite ?Hm2; auto; discriminate).
    eexists. split; [reflexivity|].
    unfold MessageQueue.AcceptMessage. simpl. rewrite app_nil_r.
    reflexivity. }
  split; [exact Hget|].
  split; [|reflexivity].
  simpl. eapply insert_lookup_same.
  rewrite list_lookup_insert_ne by lia. exact Ho1x.
Qed.

Lemma X21_carried_port_witness :
  exists n1 n2,
    OnUserMessage (example_message 10 1 [(40%N, empty_descriptor)])
      (example_node [example_port kReceiving 2 20 1 1 []] [(10%N, 0%nat)])
    = Done OK n1 /\
    objects n1 !! 1%nat = Some (accepted_port empty_descriptor) /\
    GetMessage {| name := 10%N; port := 0%nat |} n1 =
      Done (OK, Some (example_message 10 1 [(40%N, empty_descriptor)])) n2 /\
    objects n2 !! 1%nat =
      Some (set_message_queue
              (MessageQueue.set_signalable true
                 (message_queue (accepted_port empty_descriptor)))
              (accepted_port empty_descriptor)).
Proof.
  destruct (X21_carried_port
              (example_message 10 1 [(40%N, empty_descriptor)])
              (example_node [example_port kReceiving 2 20 1 1 []]
                 [(10%N, 0%nat)])
              0%nat (example_port kReceiving 2 20 1 1 []) 40%N
              empty_descriptor
              eq_refl eq_refl eq_refl eq_refl eq_refl eq_refl eq_refl eq_refl
              eq_refl eq_refl eq_refl)
    as (n1 & n2 & H1 & H2 & _ & _ & _ & _ & H3 & H4 & _).
  exists n1, n2. auto.
Defined.

(** ** The port map *)

(** X22. Binding a name that is free, looking it up and erasing it:
    after [AddPortWithName] the name resolves to the pointer bound and every
    other name resolves as before; after [ErasePort] the name is unknown
    again and the map is the one before the binding.  Neither touches the
    records. *)
Theorem X22_port_map_round_trip (port_name : PortName) (p : PortPtr)
    (n : Node) :
  ports_ n !! port_name = None ->
  exists n' n'',
    AddPortWithName port_name p n = Done OK n' /\
    GetPortRef port_name n' =
      Done (OK, Some {| name := port_name; port := p |}) n' /\
    (forall other,
       other <> port_name ->
       GetPort other n' = Done (ports_ n !! other) n') /\
    ErasePort port_name n' = Done tt n'' /\
    GetPortRef port_name n'' = Done (ERROR_PORT_UNKNOWN, None) n'' /\
    ports_ n'' = ports_ n /\
    objects n'' = objects n.
Proof.
  intros Hfree. open_node n. simpl in Hfree.
  unfold AddPortWithName, ErasePort, GetPortRef, GetPort.
  mrun. rewrite Hfree. mrun.
  eexists. eexists. split; [reflexivity|].
  mrun. rewrite lookup_insert_eq. split; [reflexivity|].
  split.
  { intros other Hne. mrun. rewrite lookup_insert_ne by congruence.
    reflexivity. }
  split; [reflexivity|]. mrun. rewrite lookup_delete_eq.
  split; [reflexivity|]. split; [|reflexivity].
  rewrite delete_insert_eq. apply delete_id. exact Hfree.
Qed.

Lemma X22_port_map_round_trip_witness :
  exists n' n'',
    AddPortWithName 11 0%nat
      (example_node [example_port kReceiving 2 20 1 1 []] [(10%N, 0%nat)])
    = Done OK n' /\
    GetPortRef 11 n' = Done (OK, Some {| name := 11%N; port := 0%nat |}) n' /\
    ErasePort 11 n' = Done tt n'' /\
    GetPortRef 11 n'' = Done (ERROR_PORT_UNKNOWN, None) n''.
Proof.
  destruct (X22_port_map_round_trip 11 0%nat
              (example_node [example_port kReceiving 2 20 1 1 []]
                 [(10%N, 0%nat)]) eq_refl)
    as (n' & n'' & H1 & H2 & _ & H3 & H4 & _).
  exists n', n''. auto.
Defined.

(** ** A proxy behind a proxy *)

(** X23. Proxy [A] on node [na] forwards to proxy [P] on node [np].  The
    ObserveProxy of [P] that reaches [A] cannot be honoured by a proxy: [A]
    sends nothing and keeps an ObserveProxyAck with the invalid sequence
    number for [P].  When [A] is then acknowledged with the number its queue
    has just passed, [A] is erased and that kept acknowledgement goes out to
    [P]'s node; accepting it, [P] stays registered and sends its ObserveProxy
    to its peer once more. *)
Theorem X23_proxy_behind_proxy (na np : Node) (A P : PortName)
    (pa pp : PortPtr) (ra rp : Port) (last : Z) :
  ports_ na !! A = Some pa -> objects na !! pa = Some ra ->
  lock ra = false -> state ra = kProxying ->
  peer_node_name ra = name_ np -> peer_port_name ra = P ->
  last = wrap64 (MessageQueue.next_sequence_num (message_queue ra) - 1) ->
  last <> kInvalidSequenceNum ->
  ports_ np !! P = Some pp -> objects np !! pp = Some rp ->
  lock rp = false -> state rp = kProxying ->
  let ev := {| proxy_node_name := name_ np; proxy_port_name := P;
               proxy_to_node_name := peer_node_name rp;
               proxy_to_port_name := peer_port_name rp |} in
  let kept := Internal P (kObserveProxyAck kInvalidSequenceNum) in
  exists na1 na2 np',
    AcceptMessage (Internal A (kObserveProxy ev)) na = Done OK na1 /\
    forwarded (delegate_ na1) = forwarded (delegate_ na) /\
    objects na1 =
      <[pa := set_send_on_proxy_removal (Some (name_ np, kept)) ra]>
        (objects na) /\
    AcceptMessage (Internal A (kObserveProxyAck last)) na1 = Done OK na2 /\
    ports_ na2 = delete A (ports_ na) /\
    forwarded (delegate_ na2) = forwarded (delegate_ na) ++ [(name_ np, kept)] /\
    AcceptMessage kept np = Done OK np' /\
    ports_ np' = ports_ np /\ objects np' = objects np /\
    forwarded (delegate_ np') =
      forwarded (delegate_ np) ++
      [(peer_node_name rp, Internal (peer_port_name rp) (kObserveProxy ev))].
Proof.
  intros HA Ha Hla Hsa Han Hap Hlast Hval HP Hp Hlp Hsp. cbv zeta.
  assert (Hnp : exists np',
    AcceptMessage (Internal P (kObserveProxyAck kInvalidSequenceNum)) np
    = Done OK np' /\
    ports_ np' = ports_ np /\ objects np' = objects np /\
    forwarded (delegate_ np') =
      forwarded (delegate_ np) ++
      [(peer_node_name rp,
        Internal (peer_port_name rp)
          (kObserveProxy
             {| proxy_node_name := name_ np; proxy_port_name := P;
                proxy_to_node_name := peer_node_name rp;
                proxy_to_port_name := peer_port_name rp |}))]).
  { clear HA Ha Han Hap Hlast Hval. open_node np. open_port rp.
    simpl in HP, Hp, Hlp, Hsp. subst.
    unfold AcceptMessage, OnObserveProxyAck, GetPort. mrun. rewrite HP.
    unfold lock_guard, lock_lock, lock_unlock, InitiateProxyRemoval_Locked,
      ForwardMessage, NewInternalMessage.
    mrun. rewrite list_insert_id by exact Hp.
    eexists. split; [reflexivity|]. simpl. auto. }
  assert (Hna : exists na1 na2,
    AcceptMessage
      (Internal A
         (kObserveProxy
            {| proxy_node_name := name_ np; proxy_port_name := P;
               proxy_to_node_name := peer_node_name rp;
               proxy_to_port_name := peer_port_name rp |})) na = Done OK na1 /\
    forwarded (delegate_ na1) = forwarded (delegate_ na) /\
    objects na1 =
      <[pa := set_send_on_proxy_removal
                (Some (name_ np,
                       Internal P (kObserveProxyAck kInvalidSequenceNum)))
                ra]> (objects na) /\
    AcceptMessage (Internal A (kObserveProxyAck last)) na1 = Done OK na2 /\
    ports_ na2 = delete A (ports_ na) /\
    forwarded (delegate_ na2) =
      forwarded (delegate_ na) ++
      [(name_ np, Internal P (kObserveProxyAck kInvalidSequenceNum))]).
  { clear Hnp HP Hp Hlp Hsp. open_node na. open_port ra.
    simpl in HA, Ha, Hla, Hsa, Han, Hap, Hlast.
    subst r_lock r_state r_pn r_pp.
    unfold AcceptMessage at 1. unfold OnObserveProxy, GetPort. mrun.
    rewrite HA.
    unfold lock_guard, lock_lock, lock_unlock, ForwardMessage,
      NewInternalMessage.
    mrun. cbn [proxy_node_name proxy_port_name proxy_to_node_name
               proxy_to_port_name].
    try (rewrite decide_True by auto). mrun.
    eexists. eexists. split; [reflexivity|]. split; [reflexivity|].
    split; [reflexivity|].
    unfold AcceptMessage, OnObserveProxyAck, GetPort. mrun. rewrite HA.
    unfold lock_guard, lock_lock, lock_unlock, MaybeRemoveProxy_Locked,
      ErasePort, ForwardMessage, CanAcceptMoreMessages.
    mrun. rewrite orb_true_r, <- Hlast, Z.eqb_refl. mrun.
    split; [reflexivity|]. split; reflexivity. }
  destruct Hnp as (np' & Hrunp & Hpp & Hpo & Hpf).
  destruct Hna as (na1 & na2 & H1 & H2 & H3 & H4 & H5 & H6).
  exists na1, na2, np'. repeat (split; [assumption|]). assumption.
Qed.

Lemma X23_proxy_behind_proxy_witness :
  exists na1 na2 np',
    AcceptMessage
      (Internal 10
         (kObserveProxy {| proxy_node_name := 2; proxy_port_name := 20;
                           proxy_to_node_name := 3;
                           proxy_to_port_name := 30 |}))
      (example_node_named 1 [example_port kProxying 2 20 1 5 []]
         [(10%N, 0%nat)]) = Done OK na1 /\
    AcceptMessage (Internal 10 (kObserveProxyAck 4)) na1 = Done OK na2 /\
    ports_ na2 !! 10%N = None /\
    forwarded (delegate_ na2) =
      [(2%N, Internal 20 (kObserveProxyAck kInvalidSequenceNum))] /\
    AcceptMessage (Internal 20 (kObserveProxyAck kInvalidSequenceNum))
      (example_node_named 2 [example_port kProxying 3 30 1 1 []]
         [(20%N, 0%nat)]) = Done OK np'.
Proof.
  destruct (X23_proxy_behind_proxy
              (example_node_named 1 [example_port kProxying 2 20 1 5 []]
                 [(10%N, 0%nat)])
              (example_node_named 2 [example_port kProxying 3 30 1 1 []]
                 [(20%N, 0%nat)])
              10%N 20%N 0%nat 0%nat
              (example_port kProxying 2 20 1 5 [])
              (example_port kProxying 3 30 1 1 []) 4
              eq_refl eq_refl eq_refl eq_refl eq_refl eq_refl eq_refl
              ltac:(discriminate) eq_refl eq_refl eq_refl eq_refl)
    as (na1 & na2 & np' & H1 & _ & _ & H2 & H3 & H4 & H5 & _).
  exists na1, na2, np'. split; [exact H1|]. split; [exact H2|].
  split; [rewrite H3; reflexivity|]. split; [rewrite H4; reflexivity|].
  exact H5.
Defined.

(** ** Closing through a proxy *)

(** X24. Port [A] on node [na] sends through the proxy [P] on node [np] to
    port [T] on node [nt], and the proxy has forwarded everything [A] sent.
    [ClosePort] on [A] sends ObserveClosure to the proxy.  Accepting it, the
    proxy's node erases the proxy, sends the proxy's deferred message if it
    has one, and passes the same ObserveClosure on to [T]; accepting that,
    [T]'s node marks [T] as closed by its peer with the number of [A]'s last
    message and reports a status change of [T]. *)
Theorem X24_close_through_proxy (na np nt : Node) (a_ref t_ref : PortRef)
    (P : PortName) (pp : PortPtr) (ra rp rt : Port) :
  objects na !! port a_ref = Some ra ->
  lock ra = false -> state ra = kReceiving ->
  peer_node_name ra = name_ np -> peer_port_name ra = P ->
  ports_ np !! P = Some pp -> objects np !! pp = Some rp ->
  lock rp = false -> state rp = kProxying ->
  peer_node_name rp = name_ nt -> peer_port_name rp = name t_ref ->
  wrap64 (next_sequence_num_to_send ra - 1) =
    wrap64 (MessageQueue.next_sequence_num (message_queue rp) - 1) ->
  ports_ nt !! name t_ref = Some (port t_ref) ->
  objects nt !! port t_ref = Some rt ->
  lock rt = false -> state rt = kReceiving ->
  let last := wrap64 (next_sequence_num_to_send ra - 1) in
  exists na' np' nt',
    ClosePort a_ref na = Done OK na' /\
    forwarded (delegate_ na') =
      forwarded (delegate_ na) ++
      [(name_ np, Internal P (kObserveClosure last))] /\
    AcceptMessage (Internal P (kObserveClosure last)) np = Done OK np' /\
    ports_ np' = delete P (ports_ np) /\
    forwarded (delegate_ np') =
      forwarded (delegate_ np) ++
      option_list (send_on_proxy_removal rp) ++
      [(name_ nt, Internal (name t_ref) (kObserveClosure last))] /\
    AcceptMessage (Internal (name t_ref) (kObserveClosure last)) nt
    = Done OK nt' /\
    objects nt' =
      <[port t_ref := set_last_sequence_num_to_receive last
                        (set_peer_closed true rt)]> (objects nt) /\
    status_changed (delegate_ nt') = status_changed (delegate_ nt) ++ [t_ref].
Proof.
  intros Ha Hla Hsa Han Hap HP Hp Hlp Hsp Hpn Hpp Hlast HT Ht Hlt Hst.
  cbv zeta.
  rewrite (ClosePort_receiving_run _ _ _ Ha Hla Hsa).
  destruct (OnObserveClosure_receiving (name t_ref)
              (wrap64 (next_sequence_num_to_send ra - 1)) nt _ _
              HT Ht Hlt Hst) as (nt' & Hrunt & Hto & _ & _ & Hts).
  assert (Hnp : exists np',
    AcceptMessage
      (Internal P (kObserveClosure (wrap64 (next_sequence_num_to_send ra - 1))))
      np = Done OK np' /\
    ports_ np' = delete P (ports_ np) /\
    forwarded (delegate_ np') =
      forwarded (delegate_ np) ++
      option_list (send_on_proxy_removal rp) ++
      [(name_ nt,
        Internal (name t_ref)
          (kObserveClosure (wrap64 (next_sequence_num_to_send ra - 1))))]).
  { rewrite Hlast. clear Ha Hla Hsa Han Hap Hlast HT Ht Hlt Hst Hrunt Hto Hts.
    open_node np. open_port rp. simpl in HP, Hp, Hlp, Hsp, Hpn, Hpp.
    subst r_lock r_state r_pn r_pp.
    unfold AcceptMessage, OnObserveClosure, GetPort. mrun. rewrite HP.
    unfold lock_guard, lock_lock, lock_unlock, MaybeRemoveProxy_Locked,
      ErasePort, CanAcceptMoreMessages.
    mrun. rewrite Z.eqb_refl.
    destruct r_deferred as [[to_node message]|];
      unfold ForwardMessage, NewInternalMessage; mrun;
      eexists; (split; [reflexivity|]); simpl;
      rewrite <- ?app_assoc; auto. }
  destruct Hnp as (np' & Hrunp & Hpp' & Hpf).
  eexists. exists np', nt'.
  split; [reflexivity|].
  split; [simpl; rewrite Han, Hap; reflexivity|].
  split; [exact Hrunp|]. split; [exact Hpp'|]. split; [exact Hpf|].
  split; [exact Hrunt|]. split; [exact Hto|].
  rewrite Hts. destruct t_ref. reflexivity.
Qed.

Lemma X24_close_through_proxy_witness :
  exists na' np' nt',
    ClosePort {| name := 10%N; port := 0%nat |}
      (example_node_named 1 [example_port kReceiving 2 20 5 1 []]
         [(10%N, 0%nat)]) = Done OK na' /\
    AcceptMessage (Internal 20 (kObserveClosure 4))
      (example_node_named 2 [example_port kProxying 3 30 1 5 []]
         [(20%N, 0%nat)]) = Done OK np' /\
    ports_ np' !! 20%N = None /\
    AcceptMessage (Internal 30 (kObserveClosure 4))
      (example_node_named 3 [example_port kReceiving 2 20 1 5 []]
         [(30%N, 0%nat)]) = Done OK nt'.
Proof.
  destruct (X24_close_through_proxy
              (example_node_named 1 [example_port kReceiving 2 20 5 1 []]
                 [(10%N, 0%nat)])
              (example_node_named 2 [example_port kProxying 3 30 1 5 []]
                 [(20%N, 0%nat)])
              (example_node_named 3 [example_port kReceiving 2 20 1 5 []]
                 [(30%N, 0%nat)])
              {| name := 10%N; port := 0%nat |}
              {| name := 30%N; port := 0%nat |}
              20%N 0%nat
              (example_port kReceiving 2 20 5 1 [])
              (example_port kProxying 3 30 1 5 [])
              (example_port kReceiving 2 20 1 5 [])
              eq_refl eq_refl eq_refl eq_refl eq_refl eq_refl eq_refl eq_refl
              eq_refl eq_refl eq_refl eq_refl eq_refl eq_refl eq_refl eq_refl)
    as (na' & np' & nt' & H1 & _ & H2 & H3 & _ & H4 & _).
  exists na', np', nt'. split; [exact H1|]. split; [exact H2|].
  split; [rewrite H3; reflexivity | exact H4].
Defined.
